(** * Personnel analytics and team selection: a model of [utils/logic.py]

    The module under study works on pandas DataFrames.  A DataFrame is
    modelled as an ordered list of column names together with an ordered
    list of labelled rows; a row maps column names to cells.  Python
    objects that the program mutates ([df.copy()] followed by
    [d[col] = ...]) live in an explicit store of frames, so that aliasing
    between the caller's table and the local copies is visible.
    Expressions that build a new DataFrame (boolean indexing,
    [sort_values], [head], [drop], [loc], [concat], column selection) are
    functions on frame values.

    A number is the rational it denotes and comparisons are exact.  The
    arithmetic of the Overall score (lines 94-107) is float64 arithmetic:
    every product, quotient and sum is rounded to the nearest binary64
    value, as numpy does; there are no infinities, and no operation of
    these lines overflows on finite numbers.  Text is a string of bytes
    and [str.lower] folds the ASCII letters.  Frames carry no dtypes: an
    operation raises or not cell by cell (a comparison with a number
    raises [TypeError] on a text cell), and the refusals that pandas
    derives from the dtype of a whole column (the [.str] accessor on a
    column of floats) are not modelled; a theorem about code that goes
    through [.str] asks for a column of text.  [sort_values] is a stable sort
    with missing values last; pandas promises stability for several keys
    and leaves the order of ties open for a single key.  The narrative
    ["analysis"] strings of the what-if scenarios (number formatting) are
    not built, but every column access and aggregate they evaluate is,
    since those can raise.  The OpenAI client of [what_if_simulation] is
    created and handed to the analysers, which never use it; it is left
    out.

    Two pieces of [app.py] that feed this module are modelled as well,
    from the request values on: the readiness route, which parses the
    roles typed in the form and calls [select_best_team], and
    [_normalize_next].  White space and digits are the ASCII ones. *)

From Stdlib Require Import Ascii String QArith Qminmax Lqa Sorted.
From stdpp Require Import gmap strings list fin_maps pretty.

Close Scope Q_scope.
Open Scope string_scope.
Open Scope list_scope.
Open Scope nat_scope.

(** ** Exceptions and the two monads *)

Inductive exn : Type :=
  | KeyError        (* a column or a row label that does not exist *)
  | TypeError       (* an operation applied to a cell of the wrong type *)
  | AttributeError  (* a string method called on a number *)
  | IndexError.     (* position 0 of an empty index *)

Abbreviation res := (sum exn).
Abbreviation Ok := inr (only parsing).
Abbreviation Raise := inl (only parsing).

#[global] Instance res_ret : MRet res := λ A, inr.
#[global] Instance res_bind : MBind res :=
  λ A B f m, match m with inl e => inl e | inr a => f a end.

(** ** Cells, rows and frames *)

Inductive cell : Type :=
  | CNa                (* NaN / None: a missing value *)
  | CNum (q : Q)
  | CStr (s : string).

Abbreviation row := (gmap string cell).

Record frame : Type := Frame {
  columns : list string;       (* df.columns, in order *)
  body : list (Z * row)        (* the rows, each with its index label *)
}.

Definition labels (f : frame) : list Z := (body f).*1.

Definition cell_at (c : string) (r : row) : cell := default CNa (r !! c).

Definition is_num (c : cell) : bool := match c with CNum _ => true | _ => false end.
Definition is_str (c : cell) : bool := match c with CStr _ => true | _ => false end.
Definition is_na (c : cell) : bool := match c with CNa => true | _ => false end.

(** ** Python strings *)

Definition lower_ascii (a : ascii) : ascii :=
  let n := nat_of_ascii a in
  if Nat.leb 65 n && Nat.leb n 90 then ascii_of_nat (n + 32) else a.

Fixpoint lower (s : string) : string :=
  match s with
  | EmptyString => EmptyString
  | String a s' => String (lower_ascii a) (lower s')
  end.

(** [s.find(sub)], with [None] for -1, and [sub in s]. *)
Definition py_find (sub s : string) : option nat := String.index 0 sub s.

Definition py_in (sub s : string) : bool :=
  match py_find sub s with Some _ => true | None => false end.

Definition any_in (words : list string) (text : string) : bool :=
  existsb (λ w, py_in w text) words.

Definition is_digit (a : ascii) : bool :=
  let n := nat_of_ascii a in Nat.leb 48 n && Nat.leb n 57.

Definition digit_val (a : ascii) : Z := Z.of_nat (nat_of_ascii a) - 48.

(** [int(s)] for a string of decimal digits. *)
Definition int_of_digits (s : string) : Z :=
  fold_left (λ acc a, 10 * acc + digit_val a)%Z (list_ascii_of_string s) 0%Z.

(** [re.search(r"(\d{2})", s)]: the first two adjacent digits. *)
Fixpoint search_2digits (s : string) : option string :=
  match s with
  | String a ((String b _) as t) =>
      if is_digit a && is_digit b then Some (String a (String b EmptyString))
      else search_2digits t
  | _ => None
  end.

Fixpoint take_digits (n : nat) (s : string) : string :=
  match n, s with
  | S n', String a t => if is_digit a then String a (take_digits n' t) else EmptyString
  | _, _ => EmptyString
  end.

(** [re.search(r"(\d{1,3})", s)]: the first digit and up to two more. *)
Fixpoint search_1to3digits (s : string) : option string :=
  match s with
  | EmptyString => None
  | String a t => if is_digit a then Some (take_digits 3 s) else search_1to3digits t
  end.

(** ** Binary64 arithmetic

    numpy computes lines 94-107 in float64.  Every finite float64 is a
    rational, so a float is kept as the rational it denotes and an
    operation rounds its exact result to the nearest float64, ties to
    even, with gradual underflow below 2^-1022.  An operand that is not a
    float64 (an int64 beyond 2^53) is converted first, as numpy does. *)

(** The binary exponent of the positive rational n/d: the [e] with
    2^e <= n/d < 2^(e+1). *)
Definition ilog2 (n d : positive) : Z :=
  let e0 := (Z.log2 (Zpos n) - Z.log2 (Zpos d))%Z in
  if (if 0 <=? e0 then Zpos d * 2 ^ e0 <=? Zpos n
      else Zpos d <=? Zpos n * 2 ^ (- e0))%Z
  then e0 else (e0 - 1)%Z.

(** The integer nearest to num/den, the even one of two nearest. *)
Definition round_half_even (num den : Z) : Z :=
  let qt := (num / den)%Z in
  match (2 * (num mod den) ?= den)%Z with
  | Lt => qt
  | Gt => (qt + 1)%Z
  | Eq => if Z.even qt then qt else (qt + 1)%Z
  end.

(** n/d rounded to 53 significant bits; the unit in the last place is
    2^(e-52), and 2^-1074 for a subnormal result. *)
Definition round64_pos (n d : positive) : Q :=
  let k := (Z.max (ilog2 n d) (-1022) - 52)%Z in
  if (0 <=? k)%Z
  then inject_Z (round_half_even (Zpos n) (Zpos d * 2 ^ k) * 2 ^ k)
  else Qred (Qmake (round_half_even (Zpos n * 2 ^ (- k)) (Zpos d)) (Z.to_pos (2 ^ (- k)))).

Definition round64 (q : Q) : Q :=
  let r := Qred q in
  match Qnum r with
  | Z0 => 0%Q
  | Zpos n => round64_pos n (Qden r)
  | Zneg n => Qopp (round64_pos n (Qden r))
  end.

Definition f64_add (p q : Q) : Q := round64 (round64 p + round64 q).
Definition f64_mul (p q : Q) : Q := round64 (round64 p * round64 q).
Definition f64_div (p q : Q) : Q := round64 (round64 p / round64 q).

Arguments round64 : simpl never.
Arguments f64_add : simpl never.
Arguments f64_mul : simpl never.
Arguments f64_div : simpl never.

(** ** Series: element-wise operations on a column *)

Definition fillna (v : cell) (s : list cell) : list cell :=
  (λ c, match c with CNa => v | _ => c end) <$> s.

(** [Series.map(dict)] for a dict with string keys and numeric values:
    a value that is not a key becomes NaN. *)
Definition map_dict (d : gmap string Q) (s : list cell) : list cell :=
  (λ c, match c with
        | CStr k => match d !! k with Some q => CNum q | None => CNa end
        | _ => CNa
        end) <$> s.

Definition isin_cell (vals : list string) (c : cell) : bool :=
  match c with CStr k => bool_decide (k ∈ vals) | _ => false end.

Definition eq_cell (v : string) (c : cell) : bool :=
  match c with CStr k => bool_decide (k = v) | _ => false end.

(** [series.isin(vals)] and [series == v] for text. *)
Definition isin (vals : list string) (s : list cell) : list bool := isin_cell vals <$> s.
Definition eq_str (v : string) (s : list cell) : list bool := eq_cell v <$> s.

(** [series OP k] for a comparison with a number: NaN compares false and
    a string cell raises. *)
Definition cmp_cell (op : Q → Q → bool) (k : Q) (c : cell) : res bool :=
  match c with
  | CNum q => Ok (op q k)
  | CNa => Ok false
  | CStr _ => Raise TypeError
  end.

Definition cmp_scalar (op : Q → Q → bool) (k : Q) (s : list cell) : res (list bool) :=
  mapM (cmp_cell op k) s.

Definition Qgtb (p q : Q) : bool := negb (Qle_bool p q).
Definition Qltb (p q : Q) : bool := negb (Qle_bool q p).
Definition Qgeb (p q : Q) : bool := Qle_bool q p.

(** Arithmetic between two cells: NaN propagates, text raises. *)
Definition cell_arith (op : Q → Q → Q) (a b : cell) : res cell :=
  match a, b with
  | CStr _, _ | _, CStr _ => Raise TypeError
  | CNum p, CNum q => Ok (CNum (op p q))
  | _, _ => Ok CNa
  end.

(** Float division by a scalar.  numpy yields an infinity or NaN for a
    zero divisor; the divisors of this program are at least 1. *)
Definition cell_div (a k : cell) : res cell :=
  match a, k with
  | CStr _, _ | _, CStr _ => Raise TypeError
  | CNum p, CNum q => Ok (if Qeq_bool q 0 then CNa else CNum (f64_div p q))
  | _, _ => Ok CNa
  end.

(** [k * s] for a float [k], [s / k] and [s + t] on float64 series. *)
Definition scale (k : Q) (s : list cell) : res (list cell) :=
  mapM (cell_arith f64_mul (CNum k)) s.

Definition div_scalar (s : list cell) (k : cell) : res (list cell) :=
  mapM (λ c, cell_div c k) s.

Definition add_series (s t : list cell) : res (list cell) :=
  mapM (λ p, cell_arith f64_add p.1 p.2) (zip s t).

(** [Series.max()], NaN skipped; NaN when nothing is left.  On a column
    holding text the later comparison with a number raises. *)
Fixpoint series_max (s : list cell) : res cell :=
  match s with
  | [] => Ok CNa
  | c :: s' =>
      m ← series_max s';
      match c, m with
      | CStr _, _ | _, CStr _ => Raise TypeError
      | CNa, _ => Ok m
      | CNum q, CNa => Ok (CNum q)
      | CNum q, CNum p => Ok (CNum (if Qle_bool q p then p else q))
      end
  end.

(** Python's [max(x, k)]: [k] only when [k > x]; [max(nan, k)] is nan. *)
Definition py_max (x : cell) (k : Q) : res cell :=
  match x with
  | CNum q => Ok (CNum (if Qltb q k then k else q))
  | CNa => Ok CNa
  | CStr _ => Raise TypeError
  end.

(** [x <= k] on a scalar: false for NaN. *)
Definition le_scalar (x : cell) (k : Q) : res bool :=
  match x with
  | CNum q => Ok (Qle_bool q k)
  | CNa => Ok false
  | CStr _ => Raise TypeError
  end.

(** [Series.mean()]: NaN skipped, text raises. *)
Definition series_mean (s : list cell) : res cell :=
  nums ← mapM (λ c, match c with
                    | CStr _ => Raise TypeError
                    | CNum q => Ok [q]
                    | CNa => Ok []
                    end) s;
  let qs := concat nums in
  Ok (match qs with
      | [] => CNa
      | _ => CNum (fold_right Qplus 0%Q qs / inject_Z (Z.of_nat (length qs)))
      end).

Definition dropna (s : list cell) : list cell := filter (λ c, is_na c = false) s.

Definition cell_eqb (a b : cell) : bool :=
  match a, b with
  | CNa, CNa => true
  | CNum p, CNum q => Qeq_bool p q
  | CStr s, CStr t => bool_decide (s = t)
  | _, _ => false
  end.

(** [Series.unique()]: first occurrences, in order. *)
Fixpoint unique (s : list cell) : list cell :=
  match s with
  | [] => []
  | c :: s' => c :: filter (λ x, cell_eqb c x = false) (unique s')
  end.

(** ** DataFrames *)

(** [df[c]]: the cells of column [c], one per row. *)
Definition getitem (f : frame) (c : string) : res (list cell) :=
  if decide (c ∈ columns f) then Ok ((λ lr, cell_at c lr.2) <$> body f)
  else Raise KeyError.

Definition add_column (cols : list string) (c : string) : list string :=
  if decide (c ∈ cols) then cols else cols ++ [c].

(** The frame after [df[c] = s]: an existing column is overwritten in
    place, a new one is appended on the right. *)
Definition setitem (f : frame) (c : string) (s : list cell) : frame :=
  Frame (add_column (columns f) c)
        (zip_with (λ lr v, (lr.1, <[c := v]> lr.2)) (body f) s).

(** [df[[c1; ...; cn]]]. *)
Definition df_select (f : frame) (cs : list string) : res frame :=
  if decide (cs ⊆ columns f)
  then Ok (Frame cs ((λ lr, (lr.1, filter (λ kv, kv.1 ∈ cs) lr.2)) <$> body f))
  else Raise KeyError.

(** [df[m]] for a boolean series [m]. *)
Definition df_mask (f : frame) (m : list bool) : frame :=
  Frame (columns f) ((filter (λ p, p.2 = true) (zip (body f) m)).*1).

(** [df.head(n)]; a negative [n] drops the last [-n] rows. *)
Definition df_head (n : Z) (f : frame) : frame :=
  Frame (columns f)
        (if (0 <=? n)%Z then take (Z.to_nat n) (body f)
         else take (length (body f) - Z.to_nat (- n)) (body f)).

(** [df.drop(index=ls)]: every row whose label is listed goes. *)
Definition df_drop (f : frame) (ls : list Z) : res frame :=
  if decide (ls ⊆ labels f)
  then Ok (Frame (columns f) (filter (λ lr, lr.1 ∉ ls) (body f)))
  else Raise KeyError.

(** [df.loc[ls]]: for each listed label in turn, the rows that carry it. *)
Definition df_loc (f : frame) (ls : list Z) : res frame :=
  rows ← mapM (λ l, match filter (λ lr, lr.1 = l) (body f) with
                    | [] => Raise KeyError
                    | rs => Ok rs
                    end) ls;
  Ok (Frame (columns f) (concat rows)).

(** [pd.concat([a, b])]. *)
Definition pd_concat (a b : frame) : frame :=
  Frame (columns a ++ filter (λ c, c ∉ columns a) (columns b)) (body a ++ body b).

(** Ordering of two cells of one column; missing values go last whatever
    the direction. *)
Definition cell_compare (a b : cell) : comparison :=
  match a, b with
  | CNum p, CNum q => (p ?= q)%Q
  | CStr s, CStr t => String.compare s t
  | _, _ => Eq
  end.

Definition key_compare (asc : bool) (a b : cell) : comparison :=
  match a, b with
  | CNa, CNa => Eq
  | CNa, _ => Gt
  | _, CNa => Lt
  | _, _ => if asc then cell_compare a b else CompOpp (cell_compare a b)
  end.

Fixpoint keys_compare (by_ : list (string * bool)) (r1 r2 : row) : comparison :=
  match by_ with
  | [] => Eq
  | (c, asc) :: rest =>
      match key_compare asc (cell_at c r1) (cell_at c r2) with
      | Eq => keys_compare rest r1 r2
      | o => o
      end
  end.

Fixpoint insert_row (by_ : list (string * bool)) (x : Z * row) (l : list (Z * row))
  : list (Z * row) :=
  match l with
  | [] => [x]
  | y :: l' =>
      match keys_compare by_ x.2 y.2 with
      | Gt => y :: insert_row by_ x l'
      | _ => x :: l
      end
  end.

(** A stable sort: rows with equal keys keep their order. *)
Definition sort_rows (by_ : list (string * bool)) (l : list (Z * row)) : list (Z * row) :=
  foldr (insert_row by_) [] l.

(** A column can be ordered when its values are all numbers or all text. *)
Definition sortable (s : list cell) : bool :=
  forallb (λ c, negb (is_str c)) s || forallb (λ c, negb (is_num c)) s.

(** [df.sort_values(by, ascending)]; [by_] pairs each key with its
    [ascending] flag. *)
Definition sort_values (f : frame) (by_ : list (string * bool)) : res frame :=
  mapM (λ k, s ← getitem f k.1;
             if sortable s then Ok () else Raise TypeError) by_;;
  Ok (Frame (columns f) (sort_rows by_ (body f))).

(** [df.to_dict(orient="records")]. *)
Definition to_records (f : frame) : list (list (string * cell)) :=
  (λ lr, (λ c, (c, cell_at c lr.2)) <$> columns f) <$> body f.

(** [.str.contains(pat, case=False, na=False)] for a pattern that is an
    alternation of plain words. *)
Definition str_contains_nocase (words : list string) (s : list cell) : list bool :=
  (λ c, match c with
        | CStr v => any_in (lower <$> words) (lower v)
        | _ => false
        end) <$> s.

(** ** The store of DataFrame objects *)

Abbreviation ref := nat.
Abbreviation store := (list frame).
Definition M (A : Type) : Type := store → res A * store.

#[global] Instance M_ret : MRet M := λ A a σ, (Ok a, σ).
#[global] Instance M_bind : MBind M :=
  λ A B f m σ, match m σ with
               | (inl e, σ') => (inl e, σ')
               | (inr a, σ') => f a σ'
               end.

Definition lift {A} (r : res A) : M A := λ σ, (r, σ).

(** The current value of an object. *)
Definition read (r : ref) : M frame :=
  λ σ, match σ !! r with
       | Some f => (Ok f, σ)
       | None => (Raise KeyError, σ)
       end.

Definition alloc (f : frame) : M ref := λ σ, (Ok (length σ), σ ++ [f]).

Definition write (r : ref) (f : frame) : M () := λ σ, (Ok (), <[r := f]> σ).

(** [df.copy()]: a new object with the same contents. *)
Definition copy (r : ref) : M ref := f ← read r; alloc f.

(** [d[c] = s]: the object itself changes. *)
Definition assign (r : ref) (c : string) (s : list cell) : M () :=
  f ← read r; write r (setitem f c s).

(** [d[c] = v] for a scalar [v]. *)
Definition assign_scalar (r : ref) (c : string) (v : cell) : M () :=
  f ← read r; assign r c (replicate (length (body f)) v).

Definition col (r : ref) (c : string) : M (list cell) :=
  f ← read r; lift (getitem f c).

Definition has_column (r : ref) (c : string) : M bool :=
  f ← read r; mret (bool_decide (c ∈ columns f)).

Fixpoint for_each {A} (l : list A) (body : A → M ()) : M () :=
  match l with
  | [] => mret ()
  | x :: l' => body x;; for_each l' body
  end.

(** ** utils/logic.py *)

Definition MEDICAL_SCORE : gmap string Q :=
  list_to_map [("A1", 100); ("A2", 95); ("B1", 88); ("B2", 82); ("C1", 75); ("C2", 68)]%Q.
Definition READINESS_SCORE : gmap string Q :=
  list_to_map [("High", 3); ("Medium", 2); ("Low", 1)]%Q.
Definition LEADERSHIP_MAP : gmap string Q :=
  list_to_map [("High", 3); ("Medium", 2); ("Low", 1); ("Yes", 3); ("No", 1)]%Q.
Definition ATTRITION_RISK_MAP : gmap string Q :=
  list_to_map [("High", 3); ("Medium", 2); ("Low", 1)]%Q.

Definition add_derived_columns (df : ref) : M ref :=
  df ← copy df;
  s ← col df "Medical_Category";
  assign df "Medical_Score" (fillna (CNum 60) (map_dict MEDICAL_SCORE s));;
  s ← col df "Leadership_Potential";
  assign df "Leadership_Score" (fillna (CNum 1) (map_dict LEADERSHIP_MAP s));;
  s ← col df "Readiness_Level";
  assign df "Readiness_Score" (fillna (CNum 1) (map_dict READINESS_SCORE s));;
  has ← has_column df "Attrition_Risk";
  (if has : bool then
     s ← col df "Attrition_Risk";
     assign df "Attrition_Score" (fillna (CNum 2) (map_dict ATTRITION_RISK_MAP s))
   else
     assign_scalar df "Attrition_Score" (CNum 2));;
  mret df.

(** [.astype(int)] of a boolean series, and the sum of integer series. *)
Definition astype_int (m : list bool) : list Z := (λ b : bool, if b then 1%Z else 0%Z) <$> m.
Definition add_int (a b : list Z) : list Z := zip_with Z.add a b.

(** [np.where(score >= 2, "High", np.where(score == 1, "Medium", "Low"))]. *)
Definition heuristic_label (score : list Z) : list cell :=
  (λ n, if (2 <=? n)%Z then CStr "High"
        else if (n =? 1)%Z then CStr "Medium" else CStr "Low") <$> score.

Definition who_is_going_to_leave (df : ref) (top_n : Z) : M frame :=
  d ← add_derived_columns df;
  has ← has_column d "Attrition_Risk";
  if has : bool then
    dv ← read d;
    out ← lift (sort_values dv [("Attrition_Score", false); ("Years_of_Service", true)]);
    sel ← lift (df_select out ["Personnel_ID"; "Name"; "Rank"; "Years_of_Service";
                               "Attrition_Risk"; "Performance_Rating"]);
    mret (df_head top_n sel)
  else
    yos ← col d "Years_of_Service";
    a ← lift (cmp_scalar Qgtb 20 (fillna (CNum 0) yos));
    perf ← col d "Performance_Rating";
    b ← lift (cmp_scalar Qle_bool 2 (fillna (CNum 3) perf));
    tr ← col d "Training_Score";
    c ← lift (cmp_scalar Qltb 50 (fillna (CNum 60) tr));
    let score := add_int (add_int (astype_int a) (astype_int b)) (astype_int c) in
    assign d "Heuristic_Attrition" (heuristic_label score);;
    dv ← read d;
    out ← lift (sort_values dv [("Heuristic_Attrition", false); ("Years_of_Service", true)]);
    sel ← lift (df_select out ["Personnel_ID"; "Name"; "Rank"; "Years_of_Service";
                               "Heuristic_Attrition"; "Performance_Rating"]);
    mret (df_head top_n sel).

Definition medical_scores (df : ref) : M frame :=
  d ← add_derived_columns df;
  dv ← read d;
  lift (df_select dv ["Personnel_ID"; "Name"; "Rank"; "Medical_Category";
                      "Medical_Score"; "BMI"; "Last_Medical_Checkup"]).

Definition who_needs_training (df : ref) (thresh : Z) : M frame :=
  d ← add_derived_columns df;
  ts ← col d "Training_Score";
  m ← lift (cmp_scalar Qltb (inject_Z thresh) (fillna (CNum 0) ts));
  dv ← read d;
  let need := df_mask dv m in
  sel ← lift (df_select need ["Personnel_ID"; "Name"; "Rank"; "Training_Course";
                              "Training_Score"; "Performance_Rating"]);
  lift (sort_values sel [("Training_Score", true)]).

Definition leadership_list (df : ref) : M frame :=
  d ← add_derived_columns df;
  dv ← read d;
  let cols := ["Personnel_ID"; "Name"; "Rank"; "Primary_Skill";
               "Leadership_Potential"; "Performance_Rating"; "Missions_Completed"] in
  let cols := filter (λ c, c ∈ columns dv) cols in
  sorted ← lift (sort_values dv [("Leadership_Score", false); ("Performance_Rating", false)]);
  lift (df_select sorted cols).

(** The dict built by [skill_grouping], as the list of its items; pandas
    visits the groups in key order, which a dict comparison ignores. *)
Definition skill_grouping (df : ref) : M (list (cell * list (list (string * cell)))) :=
  dv ← read df;
  if bool_decide ("Primary_Skill" ∈ columns dv) then
    s ← lift (getitem dv "Primary_Skill");
    lift (mapM (λ skill,
                  let g := df_mask dv (cell_eqb skill <$> s) in
                  sel ← df_select g ["Personnel_ID"; "Name"; "Rank"; "Performance_Rating";
                                     "Readiness_Level"; "Medical_Category"];
                  Ok (skill, to_records sel))
               (unique (dropna s)))
  else mret [].

(** Python truthiness of [required_roles] ([None] or a list). *)
Definition truthy {A} (o : option (list A)) : bool :=
  match o with Some (_ :: _) => true | _ => false end.

(** [list(dict.fromkeys(l))]. *)
Fixpoint dedupe (l : list string) : list string :=
  match l with
  | [] => []
  | x :: l' => x :: filter (λ y, y ≠ x) (dedupe l')
  end.

Section Logic.

(** Two functions of the libraries are taken as given: the parser behind
    [pd.to_numeric] for text cells, and the compilation of a pattern
    chosen at run time by [re] with the [IGNORECASE] flag. *)
Context (str_to_float : string → option Q).
Context (re_compile_nocase : string → res (string → bool)).

(** [pd.to_numeric(s, errors="coerce")]. *)
Definition to_numeric (s : list cell) : list cell :=
  (λ c, match c with
        | CNum q => CNum q
        | CStr v => match str_to_float v with Some q => CNum q | None => CNa end
        | CNa => CNa
        end) <$> s.

(** Lines 78-83: the three numeric columns are cast, or created as 0. *)
Definition safe_numeric_casts (d : ref) : M () :=
  for_each ["Performance_Rating"; "Training_Score"; "Missions_Completed"]
    (λ c, has ← has_column d c;
          if has : bool then s ← col d c; assign d c (fillna (CNum 0) (to_numeric s))
          else assign_scalar d c (CNum 0)).

(** Lines 85-91: a mapped score is derived when its column is missing. *)
Definition derive_if_missing (d : ref) (score source : string) (table : gmap string Q) : M () :=
  has_score ← has_column d score;
  has_source ← has_column d source;
  if negb has_score && (has_source : bool) then
    s ← col d source; assign d score (fillna (CNum 0) (map_dict table s))
  else mret ().

(** Lines 93-107: the normalised, weighted Overall score. *)
Definition score_overall (d : ref) : M () :=
  missions ← col d "Missions_Completed";
  mx ← lift (series_max missions);
  denom_missions ← lift (py_max mx 1);
  perf ← col d "Performance_Rating";
  pmx ← lift (series_max perf);
  small ← lift (le_scalar pmx 5);
  pden ← (if small : bool then mret (CNum 5) else
            pmx ← lift (series_max perf); lift (py_max pmx 1));
  perf_norm ← lift (div_scalar perf pden);
  train ← col d "Training_Score";
  train_norm ← lift (div_scalar train (CNum 100));
  med ← col d "Medical_Score";
  medical_norm ← lift (div_scalar med (CNum 100));
  rs ← col d "Readiness_Score";
  t1 ← lift (scale (5 # 2) rs);
  ls ← col d "Leadership_Score";
  t2 ← lift (scale (3 # 2) ls);
  a ← lift (add_series t1 t2);
  t3 ← lift (scale (6 # 5) perf_norm);
  a ← lift (add_series a t3);
  t4 ← lift (scale 1 medical_norm);
  a ← lift (add_series a t4);
  t5 ← lift (scale (3 # 5) train_norm);
  a ← lift (add_series a t5);
  missions ← col d "Missions_Completed";
  mn ← lift (div_scalar missions denom_missions);
  t6 ← lift (scale (2 # 5) mn);
  a ← lift (add_series a t6);
  assign d "Overall" a.

(** Lines 114-119: one pick per requested role that has a candidate. *)
Fixpoint pick_roles (d : frame) (roles : list string) (picked_idx : list Z)
  : res (list Z) :=
  match roles with
  | [] => Ok picked_idx
  | role :: roles' =>
      s ← getitem d "Primary_Skill";
      let sub := df_mask d (eq_str role s) in
      if bool_decide (length (body sub) ≠ 0) then
        sorted ← sort_values sub [("Overall", false)];
        match labels sorted with
        | l :: _ => pick_roles d roles' (picked_idx ++ [l])
        | [] => Raise IndexError
        end
      else pick_roles d roles' picked_idx
  end.

(** Lines 109-131: restriction, role picks, fill, final cut. *)
Definition pick_team (d : frame) (headcount : Z) (required_roles : option (list string))
    (restrict_to_roles : bool) : res frame :=
  d ← (if restrict_to_roles && truthy required_roles then
         s ← getitem d "Primary_Skill";
         Ok (df_mask d (isin (default [] required_roles) s))
       else Ok d);
  picked_idx ← (if truthy required_roles && negb restrict_to_roles then
                  pick_roles d (default [] required_roles) []
                else Ok []);
  let remaining := (headcount - Z.of_nat (length picked_idx))%Z in
  dropped ← df_drop d picked_idx;
  sorted ← sort_values dropped [("Overall", false)];
  let rest := df_head (Z.max 0 remaining) sorted in
  picks ← df_loc d picked_idx;
  team ← sort_values (pd_concat picks rest) [("Overall", false)];
  let team := df_head headcount team in
  let cols := ["Personnel_ID"; "Name"; "Rank"; "Primary_Skill"; "Readiness_Level";
               "Medical_Category"; "Leadership_Potential"; "Performance_Rating";
               "Overall"] in
  let cols := filter (λ c, c ∈ columns team) cols ++ ["Overall"] in
  let cols := dedupe cols in
  df_select team cols.

(** Lines 76-107: the scored copy of the table. *)
Definition score_table (df : ref) : M ref :=
  d ← add_derived_columns df;
  d ← copy d;
  safe_numeric_casts d;;
  derive_if_missing d "Medical_Score" "Medical_Category" MEDICAL_SCORE;;
  derive_if_missing d "Readiness_Score" "Readiness_Level" READINESS_SCORE;;
  derive_if_missing d "Leadership_Score" "Leadership_Potential" LEADERSHIP_MAP;;
  score_overall d;;
  mret d.

Definition select_best_team (df : ref) (headcount : Z)
    (required_roles : option (list string)) (restrict_to_roles : bool) : M frame :=
  d ← score_table df;
  dv ← read d;
  lift (pick_team dv headcount required_roles restrict_to_roles).

(** What a scenario analyser returns, and the dict [what_if_simulation]
    returns (without its ["analysis"] text). *)
Record scenario : Type := Scenario {
  s_action : string;
  s_recommendations : list string;
  s_data : list (list (string * cell))
}.

Record result : Type := Result {
  query : string;
  action : string;
  recommendations : list string;
  data : list (list (string * cell))
}.

(** [result.update(scenario)]. *)
Definition update (text : string) (s : scenario) : result :=
  Result text (s_action s) (s_recommendations s) (s_data s).

(** Truthiness of a variable that is [None] or a string. *)
Definition truthy_str (o : option string) : bool :=
  match o with
  | Some s => negb (bool_decide (s = EmptyString))
  | None => false
  end.

Definition find_z (sub s : string) : Z :=
  match py_find sub s with Some n => Z.of_nat n | None => (-1)%Z end.

Definition or_mask (a b : list bool) : list bool := zip_with orb a b.
Definition and_mask (a b : list bool) : list bool := zip_with andb a b.

(** A boolean series from a compiled pattern, [na=False]. *)
Definition str_search (re : string → bool) (s : list cell) : list bool :=
  (λ c, match c with CStr v => re v | _ => false end) <$> s.

(** The part of a pandas expression that is evaluated for its
    exceptions only. *)
Definition when (b : bool) (m : res ()) : res () := if b then m else Ok ().

Definition _analyze_retirement_scenario (df : ref) (text_low : string) : M scenario :=
  d ← add_derived_columns df;
  rc ← copy d;
  rc ← read rc;
  lift (
    rc ← (if py_in "senior" text_low then
            s ← getitem rc "Years_of_Service";
            m ← cmp_scalar Qgeb 15 s;
            Ok (df_mask rc m)
          else Ok rc);
    rc ← (if py_in "officer" text_low then
            s ← getitem rc "Rank";
            Ok (df_mask rc (str_contains_nocase ["Officer"; "Captain"; "Major"; "Colonel"] s))
          else Ok rc);
    rc ← (if py_in "pilot" text_low then
            s ← getitem rc "Primary_Skill";
            Ok (df_mask rc (str_contains_nocase ["Pilot"] s))
          else Ok rc);
    rc ← (if py_in "engineer" text_low then
            s ← getitem rc "Primary_Skill";
            Ok (df_mask rc (str_contains_nocase ["Engineer"] s))
          else Ok rc);
    let total_affected := length (body rc) in
    when (bool_decide (0 < total_affected))
         (s ← getitem rc "Years_of_Service"; series_mean s;; Ok ());;
    when (bool_decide (0 < total_affected))
         (getitem rc "Performance_Rating";; Ok ());;
    getitem rc "Leadership_Potential";;
    sel ← df_select rc ["Personnel_ID"; "Name"; "Rank"; "Primary_Skill";
                        "Years_of_Service"; "Performance_Rating"; "Leadership_Potential"];
    Ok (Scenario "retirement_impact"
          ["Develop succession planning for critical roles";
           "Accelerate leadership development programs";
           "Consider phased retirement to retain knowledge";
           "Implement knowledge transfer protocols"]
          (to_records sel))).

(** The loop of lines 274-283 over the skills of the table. *)
Fixpoint redeploy_skills (skills : list cell) (text_low : string)
    (from_skill to_skill : option string) : res (option string * option string) :=
  match skills with
  | [] => Ok (from_skill, to_skill)
  | CStr skill :: rest =>
      if py_in (lower skill) text_low then
        if py_in "from" text_low
           && (find_z (lower skill) text_low <? find_z "from" text_low)%Z
        then redeploy_skills rest text_low (Some skill) to_skill
        else if py_in "to" text_low
                && (find_z "to" text_low <? find_z (lower skill) text_low)%Z
        then redeploy_skills rest text_low from_skill (Some skill)
        else if negb (truthy_str from_skill)
        then redeploy_skills rest text_low (Some skill) to_skill
        else redeploy_skills rest text_low from_skill (Some skill)
      else redeploy_skills rest text_low from_skill to_skill
  | _ :: _ => Raise AttributeError
  end.

Definition _analyze_redeployment_scenario (df : ref) (text_low : string) : M scenario :=
  d ← add_derived_columns df;
  dfv ← read df;
  s ← lift (getitem dfv "Primary_Skill");
  skills ← lift (redeploy_skills (unique (dropna s)) text_low None None);
  let from_skill := skills.1 in
  dv ← read d;
  lift (
    candidates ← (if truthy_str from_skill then
                    ps ← getitem dv "Primary_Skill";
                    re ← re_compile_nocase (default EmptyString from_skill);
                    Ok (df_mask dv (str_search re ps))
                  else
                    pr ← getitem dv "Performance_Rating";
                    Ok (df_mask dv (isin ["Below Average"; "Average"] pr)));
    when (truthy_str from_skill)
         (ps ← getitem dv "Primary_Skill";
          re ← re_compile_nocase (default EmptyString from_skill);
          let remaining := df_mask dv (negb <$> str_search re ps) in
          getitem remaining "Primary_Skill";;
          re_compile_nocase (default EmptyString from_skill);;
          Ok ());;
    sel ← df_select candidates ["Personnel_ID"; "Name"; "Rank"; "Primary_Skill";
                                "Performance_Rating"; "Training_Score"];
    Ok (Scenario "redeployment_impact"
          ["Assess skill transferability and training needs";
           "Plan for knowledge retention in source roles";
           "Develop cross-training programs";
           "Monitor performance during transition period"]
          (to_records sel))).

(** Lines 294-297: the count stored in [skill_gaps[from_skill]]. *)
Definition skill_gap (dv : frame) (from_skill : string) : res nat :=
  ps ← getitem dv "Primary_Skill";
  re ← re_compile_nocase from_skill;
  let remaining := df_mask dv (negb <$> str_search re ps) in
  ps ← getitem remaining "Primary_Skill";
  re ← re_compile_nocase from_skill;
  Ok (length (body (df_mask remaining (str_search re ps)))).

Definition _analyze_grounding_scenario (df : ref) (text_low : string) : M scenario :=
  d ← add_derived_columns df;
  dv ← read d;
  lift (
    ps ← getitem dv "Primary_Skill";
    let pilots := df_mask dv (str_contains_nocase ["Pilot"] ps) in
    mc ← getitem pilots "Medical_Category";
    ms ← getitem pilots "Medical_Score";
    low ← cmp_scalar Qltb 70 ms;
    bmi ← getitem pilots "BMI";
    heavy ← cmp_scalar Qgtb 30 bmi;
    bmi ← getitem pilots "BMI";
    light ← cmp_scalar Qltb (37 # 2) bmi;
    let medical_issues :=
      df_mask pilots (or_mask (or_mask (or_mask (isin ["C1"; "C2"] mc) low) heavy) light) in
    mc ← getitem pilots "Medical_Category";
    pr ← getitem pilots "Performance_Rating";
    ts ← getitem pilots "Training_Score";
    trained ← cmp_scalar Qgeb 80 ts;
    let replacement_candidates :=
      df_mask pilots (and_mask (and_mask (isin ["A1"; "A2"; "B1"] mc)
                                         (isin ["Excellent"; "Good"] pr)) trained) in
    sel ← df_select medical_issues ["Personnel_ID"; "Name"; "Rank"; "Medical_Category";
                                    "Medical_Score"; "BMI"; "Performance_Rating"];
    Ok (Scenario "grounding_impact"
          ["Implement medical monitoring programs";
           "Develop pilot fitness maintenance protocols";
           "Create backup pilot rotation system";
           "Consider accelerated pilot training programs"]
          (to_records sel))).

Definition _analyze_promotion_scenario (df : ref) (text_low : string) : M scenario :=
  d ← add_derived_columns df;
  dv ← read d;
  lift (
    lp ← getitem dv "Leadership_Potential";
    pr ← getitem dv "Performance_Rating";
    yos ← getitem dv "Years_of_Service";
    served ← cmp_scalar Qgeb 5 yos;
    let m := and_mask (and_mask (isin ["High"; "Yes"] lp) (isin ["Excellent"; "Good"] pr))
                      served in
    promotion_candidates ←
      sort_values (df_mask dv m) [("Leadership_Score", false); ("Performance_Rating", false)];
    getitem promotion_candidates "Primary_Skill";;
    sel ← df_select promotion_candidates
            ["Personnel_ID"; "Name"; "Rank"; "Primary_Skill"; "Leadership_Potential";
             "Performance_Rating"; "Years_of_Service"];
    Ok (Scenario "promotion_impact"
          ["Implement structured promotion criteria";
           "Develop leadership development programs";
           "Create mentorship opportunities";
           "Plan for role transitions and knowledge transfer"]
          (to_records sel))).

Definition _analyze_budget_scenario (df : ref) (text_low : string) : M scenario :=
  d ← add_derived_columns df;
  dv ← read d;
  lift (
    ts ← getitem dv "Training_Score";
    series_mean ts;;
    ms ← getitem dv "Medical_Score";
    series_mean ms;;
    ts ← getitem dv "Training_Score";
    costly ← cmp_scalar Qgtb 80 ts;
    ms ← getitem dv "Medical_Score";
    low ← cmp_scalar Qltb 70 ms;
    pr ← getitem dv "Performance_Rating";
    let high_cost_personnel :=
      df_mask dv (or_mask (or_mask costly low) (isin ["Below Average"; "Average"] pr)) in
    sel ← df_select high_cost_personnel
            ["Personnel_ID"; "Name"; "Rank"; "Primary_Skill"; "Training_Score";
             "Medical_Score"; "Performance_Rating"];
    Ok (Scenario "budget_impact"
          ["Implement cost optimization strategies";
           "Focus training investments on high-potential personnel";
           "Develop preventive medical programs";
           "Consider performance-based resource allocation"]
          (to_records sel))).

(** Lines 177-180: the first skill of the table named in the text. *)
Fixpoint first_skill (skills : list cell) (text_low : string) : res (option string) :=
  match skills with
  | [] => Ok None
  | CStr s :: rest => if py_in (lower s) text_low then Ok (Some s) else first_skill rest text_low
  | _ :: _ => Raise AttributeError
  end.

(** Lines 192-194: every skill of the table named in the text. *)
Fixpoint named_skills (skills : list cell) (text_low : string) : res (list string) :=
  match skills with
  | [] => Ok []
  | CStr s :: rest =>
      roles ← named_skills rest text_low;
      Ok (if py_in (lower s) text_low then s :: roles else roles)
  | _ :: _ => Raise AttributeError
  end.

(** [tab["Primary_Skill"].str.lower() == skill.lower()]. *)
Definition eq_lower (skill : string) (s : list cell) : list bool :=
  (λ c, match c with CStr v => bool_decide (lower v = lower skill) | _ => false end) <$> s.

Definition what_if_simulation (df : ref) (text : string) : M result :=
  let text_low := lower text in
  if any_in ["retire"; "retiring"; "retirement"] text_low then
    r ← _analyze_retirement_scenario df text_low; mret (update text r)
  else if any_in ["redeploy"; "redeployment"; "transfer"; "move"] text_low then
    r ← _analyze_redeployment_scenario df text_low; mret (update text r)
  else if any_in ["ground"; "grounding"; "medical"; "unfit"; "disqualify"] text_low then
    r ← _analyze_grounding_scenario df text_low; mret (update text r)
  else if any_in ["promote"; "promotion"; "advance"] text_low then
    r ← _analyze_promotion_scenario df text_low; mret (update text r)
  else if any_in ["budget"; "cost"; "financial"; "expense"] text_low then
    r ← _analyze_budget_scenario df text_low; mret (update text r)
  else if py_in "training" text_low
          && any_in ["threshold"; "score"; "<"; "less than"; "below"] text_low then
    let thresh := match search_2digits text_low with
                  | Some m => int_of_digits m
                  | None => 60%Z
                  end in
    t ← who_needs_training df thresh;
    mret (Result text ("show_training_below_" +:+ pretty thresh) [] (to_records t))
  else if py_in "leaders" text_low || py_in "leadership" text_low then
    dfv ← read df;
    s ← lift (getitem dfv "Primary_Skill");
    skill ← lift (first_skill (unique (dropna s)) text_low);
    tab ← leadership_list df;
    tab ← lift (if truthy_str skill then
                  ps ← getitem tab "Primary_Skill";
                  Ok (df_mask tab (eq_lower (default EmptyString skill) ps))
                else Ok tab);
    mret (Result text "show_leadership" [] (to_records (df_head 50 tab)))
  else if py_in "team" text_low || py_in "readiness" text_low then
    let n := match search_1to3digits text_low with
             | Some m => int_of_digits m
             | None => 10%Z
             end in
    dfv ← read df;
    s ← lift (getitem dfv "Primary_Skill");
    roles ← lift (named_skills (unique (dropna s)) text_low);
    team ← select_best_team df n (match roles with [] => None | _ => Some roles end) false;
    mret (Result text "select_team" [] (to_records team))
  else
    t ← who_is_going_to_leave df 50;
    mret (Result text "show_attrition" [] (to_records t)).

(** ** app.py: the readiness route and the login redirect *)

(** [str.isspace] on an ASCII character: tab, line feed, vertical tab,
    form feed, carriage return, the four separators 28-31 and space. *)
Definition is_space (a : ascii) : bool :=
  let n := nat_of_ascii a in
  Nat.leb 9 n && Nat.leb n 13 || Nat.leb 28 n && Nat.leb n 32.

Fixpoint lstrip (s : string) : string :=
  match s with
  | EmptyString => EmptyString
  | String a t => if is_space a then lstrip t else s
  end.

Fixpoint rstrip (s : string) : string :=
  match s with
  | EmptyString => EmptyString
  | String a t =>
      match rstrip t with
      | EmptyString => if is_space a then EmptyString else String a EmptyString
      | t' => String a t'
      end
  end.

(** [s.strip()]. *)
Definition strip (s : string) : string := rstrip (lstrip s).

(** [s.split(sep)] for a separator of one character. *)
Fixpoint str_split (sep : ascii) (s : string) : list string :=
  match s with
  | EmptyString => [EmptyString]
  | String a t =>
      if Ascii.eqb a sep then EmptyString :: str_split sep t
      else match str_split sep t with
           | h :: r => String a h :: r
           | [] => [String a EmptyString]
           end
  end.

(** Lines 277-278 of [readiness]: the roles typed in the form; [roles]
    is the request value, [None] when the field is absent. *)
Definition parse_roles (roles : option string) : list string :=
  let roles_raw := strip (default EmptyString roles) in
  filter (λ r, r ≠ EmptyString) (strip <$> str_split "," roles_raw).


(** Lines 153-159; [next] is the request value, [None] when absent. *)
Definition _normalize_next (next : option string) : option string :=
  let n := strip (default EmptyString next) in
  if bool_decide (n = EmptyString) then None
  else if bool_decide (lower n ∈ ["none"; "null"; "undefined"]) then None
  else Some n.

(** * Specification-side definitions *)

(** ** Objects a computation leaves alone *)

(** [keeps σ0 m Q]: started in any store that extends [σ0], the
    computation [m] ends in a store that still extends [σ0] (no object of
    [σ0] was written to), and a returned value satisfies [Q]. *)
Definition keeps (σ0 : store) {A} (m : M A) (Q : A → Prop) : Prop :=
  ∀ σ, σ0 `prefix_of` σ →
       σ0 `prefix_of` (m σ).2 ∧ ∀ a, (m σ).1 = Ok a → Q a.

(** [untouched m]: whatever the store, every object that exists before
    [m] runs is the same afterwards, exceptions included. *)
Definition untouched {A} (m : M A) : Prop :=
  ∀ σ, take (length σ) (m σ).2 = σ.

(** ** The frames the program builds, row by row *)

(** A frame obtained from [f] by rewriting each row. *)
Definition rowmap (cols : list string) (F : Z * row → row) (f : frame) : frame :=
  Frame cols ((λ lr, (lr.1, F lr)) <$> body f).

(** [.map(table).fillna(v)] on one cell. *)
Definition mapped (table : gmap string Q) (v : Q) (c : cell) : cell :=
  match c with
  | CStr k => match table !! k with Some q => CNum q | None => CNum v end
  | _ => CNum v
  end.

Definition derived_row (has_attrition : bool) (r : row) : row :=
  <["Attrition_Score" :=
      if has_attrition then mapped ATTRITION_RISK_MAP 2 (cell_at "Attrition_Risk" r)
      else CNum 2]>
    (<["Readiness_Score" := mapped READINESS_SCORE 1 (cell_at "Readiness_Level" r)]>
       (<["Leadership_Score" := mapped LEADERSHIP_MAP 1 (cell_at "Leadership_Potential" r)]>
          (<["Medical_Score" := mapped MEDICAL_SCORE 60 (cell_at "Medical_Category" r)]> r))).

Definition derived_names : list string :=
  ["Medical_Score"; "Leadership_Score"; "Readiness_Score"; "Attrition_Score"].

Definition derived_columns (cols : list string) : list string :=
  foldl add_column cols derived_names.

(** The frame [add_derived_columns] returns for the table [f]. *)
Definition derived (f : frame) : frame :=
  rowmap (derived_columns (columns f))
         (λ lr, derived_row (bool_decide ("Attrition_Risk" ∈ columns f)) lr.2) f.

(** The columns [add_derived_columns] reads whatever the table. *)
Definition categorical_columns : list string :=
  ["Medical_Category"; "Leadership_Potential"; "Readiness_Level"].

(** [m] is the greatest of the numbers [qs]. *)
Definition is_max (m : Q) (qs : list Q) : Prop :=
  (∃ x, x ∈ qs ∧ (x == m)%Q) ∧ ∀ x, x ∈ qs → (x <= m)%Q.

(** ** The lookup tables as the specification words them *)

Definition medical_score (c : cell) : Q :=
  match c with
  | CStr k =>
      if decide (k = "A1") then 100 else if decide (k = "A2") then 95
      else if decide (k = "B1") then 88 else if decide (k = "B2") then 82
      else if decide (k = "C1") then 75 else if decide (k = "C2") then 68
      else 60
  | _ => 60
  end.

Definition leadership_score (c : cell) : Q :=
  match c with
  | CStr k =>
      if decide (k = "High") then 3 else if decide (k = "Medium") then 2
      else if decide (k = "Low") then 1 else if decide (k = "Yes") then 3
      else if decide (k = "No") then 1 else 1
  | _ => 1
  end.

Definition readiness_score (c : cell) : Q :=
  match c with
  | CStr k =>
      if decide (k = "High") then 3 else if decide (k = "Medium") then 2
      else if decide (k = "Low") then 1 else 1
  | _ => 1
  end.

Definition attrition_score (c : cell) : Q :=
  match c with
  | CStr k =>
      if decide (k = "High") then 3 else if decide (k = "Medium") then 2
      else if decide (k = "Low") then 1 else 2
  | _ => 2
  end.

(** What the specification promises of one row [lr'] of the enriched
    table, given the row [lr] of the source it comes from. *)
Definition enriched_from (has_attrition : bool) (lr lr' : Z * row) : Prop :=
  lr'.1 = lr.1
  ∧ (∀ c, c ∉ derived_names → lr'.2 !! c = lr.2 !! c)
  ∧ lr'.2 !! "Medical_Score"
    = Some (CNum (medical_score (cell_at "Medical_Category" lr.2)))
  ∧ lr'.2 !! "Leadership_Score"
    = Some (CNum (leadership_score (cell_at "Leadership_Potential" lr.2)))
  ∧ lr'.2 !! "Readiness_Score"
    = Some (CNum (readiness_score (cell_at "Readiness_Level" lr.2)))
  ∧ lr'.2 !! "Attrition_Score"
    = Some (CNum (if has_attrition then attrition_score (cell_at "Attrition_Risk" lr.2)
                  else 2)).

(** ** The scored table, row by row *)

(** The number a cell holds after the safe cast of lines 78-83: 0 for a
    missing value and for text that is not a number. *)
Definition num_of (c : cell) : Q :=
  match c with
  | CNum q => q
  | CStr v => default 0%Q (str_to_float v)
  | CNa => 0%Q
  end.

(** The same for a column of the source table, 0 when it has no such
    column. *)
Definition col_q (cols : list string) (c : string) (r : row) : Q :=
  if bool_decide (c ∈ cols) then num_of (cell_at c r) else 0%Q.

Definition performance (f : frame) (r : row) : Q := col_q (columns f) "Performance_Rating" r.
Definition training (f : frame) (r : row) : Q := col_q (columns f) "Training_Score" r.
Definition missions (f : frame) (r : row) : Q := col_q (columns f) "Missions_Completed" r.

Definition cast_names : list string :=
  ["Performance_Rating"; "Training_Score"; "Missions_Completed"].

Definition cast_columns (cols : list string) : list string :=
  foldl add_column (derived_columns cols) cast_names.

(** A row of the copy after the derived columns and the casts. *)
Definition cast_row (f : frame) (lr : Z * row) : row :=
  <["Missions_Completed" := CNum (missions f lr.2)]>
    (<["Training_Score" := CNum (training f lr.2)]>
       (<["Performance_Rating" := CNum (performance f lr.2)]>
          (derived_row (bool_decide ("Attrition_Risk" ∈ columns f)) lr.2))).

(** A float that may be NaN. *)
Definition num_cell (o : option Q) : cell := from_option CNum CNa o.

Definition omap2 (op : Q → Q → Q) (a b : option Q) : option Q :=
  match a, b with Some p, Some q => Some (op p q) | _, _ => None end.

Definition odiv (a k : option Q) : option Q :=
  match a, k with
  | Some p, Some q => if Qeq_bool q 0 then None else Some (f64_div p q)
  | _, _ => None
  end.

Definition series_max_q (qs : list Q) : option Q :=
  foldr (λ q acc, match acc with
                  | Some p => Some (if Qle_bool q p then p else q)
                  | None => Some q
                  end) None qs.

Definition opy_max (x : option Q) (k : Q) : option Q :=
  (λ q, if Qltb q k then k else q) <$> x.

Definition perf_denominator (f : frame) : option Q :=
  let pmx := series_max_q ((λ lr, performance f lr.2) <$> body f) in
  if match pmx with Some q => Qle_bool q 5 | None => false end
  then Some 5%Q else opy_max pmx 1.

Definition missions_denominator (f : frame) : option Q :=
  opy_max (series_max_q ((λ lr, missions f lr.2) <$> body f)) 1.

(** The value line 100 computes for one row. *)
Definition overall_cell (f : frame) (lr : Z * row) : option Q :=
  omap2 f64_add
    (omap2 f64_add
       (omap2 f64_add
          (omap2 f64_add
             (omap2 f64_add
                (Some (f64_mul (5 # 2) (readiness_score (cell_at "Readiness_Level" lr.2))))
                (Some (f64_mul (3 # 2)
                         (leadership_score (cell_at "Leadership_Potential" lr.2)))))
             (f64_mul (6 # 5) <$> odiv (Some (performance f lr.2)) (perf_denominator f)))
          (f64_mul 1 <$> odiv (Some (medical_score (cell_at "Medical_Category" lr.2)))
                              (Some 100%Q)))
       (f64_mul (3 # 5) <$> odiv (Some (training f lr.2)) (Some 100%Q)))
    (f64_mul (2 # 5) <$> odiv (Some (missions f lr.2)) (missions_denominator f)).

Definition scored_columns (cols : list string) : list string :=
  add_column (cast_columns cols) "Overall".

(** The frame [score_table] leaves in the store for the table [f]. *)
Definition scored (f : frame) : frame :=
  rowmap (scored_columns (columns f))
         (λ lr, <["Overall" := num_cell (overall_cell f lr)]> (cast_row f lr)) f.

(** ** The Overall score as the specification words it *)

Definition observed_max (qs : list Q) : Q :=
  match qs with
  | [] => 0%Q
  | q :: qs' => foldr Qmax q qs'
  end.

(** A sum of floats, taken from left to right. *)
Definition f64_sum (terms : list Q) : Q :=
  match terms with
  | [] => 0%Q
  | t :: terms' => fold_left f64_add terms' t
  end.

(** The six weighted terms of the specification, each product and each
    quotient a float64 operation, summed in the order they are written. *)
Definition overall_formula (f : frame) (r : row) : Q :=
  let max_performance := observed_max ((λ lr, performance f lr.2) <$> body f) in
  let max_missions := observed_max ((λ lr, missions f lr.2) <$> body f) in
  f64_sum
    [ f64_mul 2.5%Q (readiness_score (cell_at "Readiness_Level" r));
      f64_mul 1.5%Q (leadership_score (cell_at "Leadership_Potential" r));
      f64_mul 1.2%Q
        (f64_div (performance f r)
                 (if Qle_bool max_performance 5 then 5%Q else max_performance));
      f64_mul 1.0%Q (f64_div (medical_score (cell_at "Medical_Category" r)) 100%Q);
      f64_mul 0.6%Q (f64_div (training f r) 100%Q);
      f64_mul 0.4%Q (f64_div (missions f r) (Qmax max_missions 1)) ].

(** A row [lr'] of the scored table carries the Overall score that the
    formula gives for the row [lr] of the source [f]. *)
Definition scored_from (f : frame) (lr lr' : Z * row) : Prop :=
  lr'.1 = lr.1
  ∧ ∃ q, lr'.2 !! "Overall" = Some (CNum q) ∧ (q == overall_formula f lr.2)%Q.

(** ** The team, from the scored table *)

Definition overall_desc : list (string * bool) := [("Overall", false)].

(** Rows that can be ranked: no Overall cell is text. *)
Definition rankable (rows : list (Z * row)) : Prop :=
  Forall (λ lr, is_str (cell_at "Overall" lr.2) = false) rows.

Definition has_skill (role : string) (lr : Z * row) : Prop :=
  eq_cell role (cell_at "Primary_Skill" lr.2) = true.

Definition skill_in (roles : list string) (lr : Z * row) : Prop :=
  isin_cell roles (cell_at "Primary_Skill" lr.2) = true.

#[global] Instance has_skill_dec role lr : Decision (has_skill role lr) :=
  decide (eq_cell role (cell_at "Primary_Skill" lr.2) = true).
#[global] Instance skill_in_dec roles lr : Decision (skill_in roles lr) :=
  decide (isin_cell roles (cell_at "Primary_Skill" lr.2) = true).

Definition rows_labelled (l : Z) (rows : list (Z * row)) : list (Z * row) :=
  filter (λ lr, lr.1 = l) rows.

(** The label [l] was picked for [role]: it is the label of a row of [d]
    with that primary skill. *)
Definition picked_for (d : frame) (l : Z) (role : string) : Prop :=
  ∃ lr, lr ∈ body d ∧ has_skill role lr ∧ lr.1 = l.

(** The rows of the team before the columns are cut, given the
    candidates [d] and the labels picked for the roles. *)
Definition team_rows (d : frame) (headcount : Z) (picked_idx : list Z) : list (Z * row) :=
  let remaining := (headcount - Z.of_nat (length picked_idx))%Z in
  let rest :=
    df_head (Z.max 0 remaining)
      (Frame (columns d) (sort_rows overall_desc (filter (λ lr, lr.1 ∉ picked_idx) (body d)))) in
  let picks := Frame (columns d) (concat ((λ l, rows_labelled l (body d)) <$> picked_idx)) in
  body (df_head headcount
          (Frame (columns (pd_concat picks rest))
                 (sort_rows overall_desc (body (pd_concat picks rest))))).

Definition team_columns (cols : list string) : list string :=
  dedupe (filter (λ c, c ∈ cols)
            ["Personnel_ID"; "Name"; "Rank"; "Primary_Skill"; "Readiness_Level";
             "Medical_Category"; "Leadership_Potential"; "Performance_Rating";
             "Overall"] ++ ["Overall"]).

(** The candidates after the restriction of line 110. *)
Definition candidates (d : frame) (required_roles : option (list string))
    (restrict_to_roles : bool) : frame :=
  if restrict_to_roles && truthy required_roles
  then Frame (columns d) (filter (skill_in (default [] required_roles)) (body d))
  else d.

(** ** Well-formed tables and unrouted queries *)

(** Column [c] exists and holds numbers or missing values, no text. *)
Definition numeric_column (f : frame) (c : string) : Prop :=
  c ∈ columns f ∧ Forall (λ lr, is_str (cell_at c lr.2) = false) (body f).

(** Column [c] exists and holds text or missing values, no number. *)
Definition text_column (f : frame) (c : string) : Prop :=
  c ∈ columns f ∧ Forall (λ lr, is_num (cell_at c lr.2) = false) (body f).

(** A table the attrition report can rank: the identity columns, years
    of service as numbers, and either an attrition-risk column or
    numeric performance ratings and training scores for the heuristic. *)
Definition attrition_ready (f : frame) : Prop :=
  categorical_columns ⊆ columns f
  ∧ ["Personnel_ID"; "Name"; "Rank"; "Performance_Rating"] ⊆ columns f
  ∧ numeric_column f "Years_of_Service"
  ∧ ("Attrition_Risk" ∈ columns f
     ∨ (numeric_column f "Performance_Rating" ∧ numeric_column f "Training_Score")).

(** The lower-cased query matches no keyword set of the router. *)
Definition no_keyword (text_low : string) : Prop :=
  any_in ["retire"; "retiring"; "retirement"] text_low = false
  ∧ any_in ["redeploy"; "redeployment"; "transfer"; "move"] text_low = false
  ∧ any_in ["ground"; "grounding"; "medical"; "unfit"; "disqualify"] text_low = false
  ∧ any_in ["promote"; "promotion"; "advance"] text_low = false
  ∧ any_in ["budget"; "cost"; "financial"; "expense"] text_low = false
  ∧ py_in "training" text_low
    && any_in ["threshold"; "score"; "<"; "less than"; "below"] text_low = false
  ∧ py_in "leaders" text_low || py_in "leadership" text_low = false
  ∧ py_in "team" text_low || py_in "readiness" text_low = false.

(** The lower-cased query reaches the leadership branch of the router. *)
Definition leadership_query (text_low : string) : Prop :=
  any_in ["retire"; "retiring"; "retirement"] text_low = false
  ∧ any_in ["redeploy"; "redeployment"; "transfer"; "move"] text_low = false
  ∧ any_in ["ground"; "grounding"; "medical"; "unfit"; "disqualify"] text_low = false
  ∧ any_in ["promote"; "promotion"; "advance"] text_low = false
  ∧ any_in ["budget"; "cost"; "financial"; "expense"] text_low = false
  ∧ py_in "training" text_low
    && any_in ["threshold"; "score"; "<"; "less than"; "below"] text_low = false
  ∧ py_in "leaders" text_low || py_in "leadership" text_low = true.

(** A table the leadership ranking can sort: skills are text, and the
    performance ratings can be ordered (all numbers or all text). *)
Definition leadership_ready (f : frame) : Prop :=
  categorical_columns ⊆ columns f
  ∧ text_column f "Primary_Skill"
  ∧ "Performance_Rating" ∈ columns f
  ∧ sortable ((λ lr, cell_at "Performance_Rating" lr.2) <$> body f) = true.

(** ** The retirement scenario *)



(** One row as a record over the columns [cols]. *)
Definition record_of (cols : list string) (r : row) : list (string * cell) :=
  (λ c, (c, cell_at c r)) <$> cols.



(** The heuristic tier of one row (lines 36-41). *)
Definition truth (op : Q → Q → bool) (k : Q) (v c : cell) : bool :=
  match c with
  | CNum q => op q k
  | CNa => match v with CNum q => op q k | _ => false end
  | CStr _ => false
  end.

Definition tier_count (r : row) : Z :=
  ((if truth Qgtb 20 (CNum 0) (cell_at "Years_of_Service" r) then 1 else 0)
   + (if truth Qle_bool 2 (CNum 3) (cell_at "Performance_Rating" r) then 1 else 0)
   + (if truth Qltb 50 (CNum 60) (cell_at "Training_Score" r) then 1 else 0))%Z.

Definition tier (r : row) : cell :=
  if (2 <=? tier_count r)%Z then CStr "High"
  else if (tier_count r =? 1)%Z then CStr "Medium" else CStr "Low".

(** The rows [select_best_team] can choose from: those of the required
    roles when the selection is restricted to them, all of them
    otherwise. *)
Definition available_rows (f : frame) (required_roles : option (list string))
    (restrict_to_roles : bool) : list (Z * row) :=
  if restrict_to_roles && truthy required_roles
  then filter (skill_in (default [] required_roles)) (body f)
  else body f.

(** ** Orders on rows *)

(** [x] may come before [y] when the rows are sorted on the keys [by_]. *)
Definition row_le (by_ : list (string * bool)) (x y : Z * row) : Prop :=
  keys_compare by_ x.2 y.2 ≠ Gt.

(** [a] may come before [b] in an ascending column of numbers; a missing
    value goes last. *)
Definition num_le (a b : cell) : Prop :=
  match a, b with
  | CNum p, CNum q => (p <= q)%Q
  | _, CNa => True
  | _, _ => False
  end.

(** No sort key of the row is text. *)
Definition numeric_keys (by_ : list (string * bool)) (lr : Z * row) : Prop :=
  Forall (λ k, is_str (cell_at k.1 lr.2) = false) by_.

(** The rows are in ascending order of the numbers of column [c]. *)
Definition ascending (c : string) (rows : list (Z * row)) : Prop :=
  StronglySorted (λ x y, num_le (cell_at c x.2) (cell_at c y.2)) rows.

(** A row cut to the columns [cs], as [df[cs]] leaves it. *)
Definition project (cs : list string) (lr : Z * row) : Z * row :=
  (lr.1, filter (λ kv, kv.1 ∈ cs) lr.2).

(** ** The reports *)

Definition training_columns : list string :=
  ["Personnel_ID"; "Name"; "Rank"; "Training_Course"; "Training_Score"; "Performance_Rating"].

(** The training score is below the threshold; a missing score counts as 0. *)
Definition training_gap (thresh : Z) (lr : Z * row) : bool :=
  match cell_at "Training_Score" lr.2 with
  | CNum q => Qltb q (inject_Z thresh)
  | CNa => (0 <? thresh)%Z
  | CStr _ => false
  end.

Definition attrition_columns : list string :=
  ["Personnel_ID"; "Name"; "Rank"; "Years_of_Service"; "Attrition_Risk"; "Performance_Rating"].

Definition attrition_keys : list (string * bool) :=
  [("Attrition_Score", false); ("Years_of_Service", true)].

(** [x] ranks no later than [y] in the attrition report: a higher risk
    first, and among equal risks fewer years of service first. *)
Definition risk_order (x y : Z * row) : Prop :=
  let rx := attrition_score (cell_at "Attrition_Risk" x.2) in
  let ry := attrition_score (cell_at "Attrition_Risk" y.2) in
  (ry < rx)%Q
  ∨ ((rx == ry)%Q
     ∧ num_le (cell_at "Years_of_Service" x.2) (cell_at "Years_of_Service" y.2)).

Definition leadership_columns : list string :=
  ["Personnel_ID"; "Name"; "Rank"; "Primary_Skill";
   "Leadership_Potential"; "Performance_Rating"; "Missions_Completed"].

Definition leadership_keys : list (string * bool) :=
  [("Leadership_Score", false); ("Performance_Rating", false)].

(** Rows in order of leadership score, highest first. *)
Definition by_leadership (x y : Z * row) : Prop :=
  (leadership_score (cell_at "Leadership_Potential" y.2)
   <= leadership_score (cell_at "Leadership_Potential" x.2))%Q.

Definition medical_columns : list string :=
  ["Personnel_ID"; "Name"; "Rank"; "Medical_Category"; "Medical_Score"; "BMI";
   "Last_Medical_Checkup"].

(** A row [lr'] of the medical report, against the row [lr] of the table
    it is made from. *)
Definition medical_row (lr lr' : Z * row) : Prop :=
  lr'.1 = lr.1
  ∧ lr'.2 !! "Medical_Score"
    = Some (CNum (medical_score (cell_at "Medical_Category" lr.2)))
  ∧ ∀ c, c ≠ "Medical_Score" →
         lr'.2 !! c = if decide (c ∈ medical_columns) then lr.2 !! c else None.

Definition group_columns : list string :=
  ["Personnel_ID"; "Name"; "Rank"; "Performance_Rating"; "Readiness_Level";
   "Medical_Category"].

(** ** The ranking inside a team *)

(** The Overall score a row carries, 0 when it carries none. *)
Definition overall_of (lr : Z * row) : Q :=
  match cell_at "Overall" lr.2 with CNum q => q | _ => 0%Q end.

(** Rows in order of Overall score, highest first. *)
Definition by_overall (x y : Z * row) : Prop := (overall_of y <= overall_of x)%Q.

(** ** The router and its scenarios *)

(** The five scenarios in the order the router tries them, each with its
    keywords and the action tag of its analyser. *)
Definition scenario_table : list (list string * string) :=
  [ (["retire"; "retiring"; "retirement"], "retirement_impact");
    (["redeploy"; "redeployment"; "transfer"; "move"], "redeployment_impact");
    (["ground"; "grounding"; "medical"; "unfit"; "disqualify"], "grounding_impact");
    (["promote"; "promotion"; "advance"], "promotion_impact");
    (["budget"; "cost"; "financial"; "expense"], "budget_impact") ].

(** The tag of the first entry one of whose keywords occurs in the text. *)
Fixpoint first_scenario (table : list (list string * string)) (text_low : string)
  : option string :=
  match table with
  | [] => None
  | (words, tag) :: rest =>
      if any_in words text_low then Some tag else first_scenario rest text_low
  end.


(** The lower-cased query reaches the promotion analyser. *)
Definition promotion_query (text_low : string) : Prop :=
  any_in ["retire"; "retiring"; "retirement"] text_low = false
  ∧ any_in ["redeploy"; "redeployment"; "transfer"; "move"] text_low = false
  ∧ any_in ["ground"; "grounding"; "medical"; "unfit"; "disqualify"] text_low = false
  ∧ any_in ["promote"; "promotion"; "advance"] text_low = true.

(** Text of ASCII characters only: on such text [str.lower],
    [str.strip] and the digit class of [re] are the functions of this
    file. *)
Definition is_ascii (s : string) : bool :=
  forallb (λ a, Nat.ltb (nat_of_ascii a) 128) (list_ascii_of_string s).

Definition ascii_text (s : string) : Prop := is_ascii s = true.

(** Every text cell of column [c] is ASCII. *)
Definition ascii_column (f : frame) (c : string) : Prop :=
  Forall (λ lr, match cell_at c lr.2 with CStr k => is_ascii k | _ => true end = true)
         (body f).

(** Two adjacent digits [a], [b] of [s], right after the prefix [pre]. *)
Definition digit_pair_at (s pre : string) (a b : ascii) : Prop :=
  ∃ post, s = pre +:+ String a (String b post)
          ∧ is_digit a = true ∧ is_digit b = true.

Definition has_digit_pair (s : string) : Prop :=
  ∃ pre a b, digit_pair_at s pre a b.

(** [n] is the number that the leftmost two adjacent digits of [s]
    write. *)
Definition first_digit_pair (s : string) (n : Z) : Prop :=
  ∃ pre a b,
    digit_pair_at s pre a b
    ∧ (∀ pre' a' b', digit_pair_at s pre' a' b' → String.length pre ≤ String.length pre')
    ∧ n = (10 * digit_val a + digit_val b)%Z.

Definition no_digit (s : string) : Prop :=
  Forall (λ a, is_digit a = false) (list_ascii_of_string s).

Definition all_digits (s : string) : Prop :=
  Forall (λ a, is_digit a = true) (list_ascii_of_string s).

Definition starts_with_digit (s : string) : Prop :=
  match s with String a _ => is_digit a = true | EmptyString => False end.

(** The number a list of digits writes in base ten. *)
Fixpoint decimal_value (ds : list ascii) : Z :=
  match ds with
  | [] => 0
  | a :: ds' => digit_val a * 10 ^ Z.of_nat (length ds') + decimal_value ds'
  end.

(** [n] is the number that the first digits of [s] write: the leftmost
    run of digits, cut after three. *)
Definition first_digit_run (s : string) (n : Z) : Prop :=
  ∃ pre m post,
    s = pre +:+ m +:+ post
    ∧ no_digit pre
    ∧ m ≠ EmptyString ∧ all_digits m
    ∧ String.length m ≤ 3
    ∧ (String.length m < 3 → ¬ starts_with_digit post)
    ∧ n = decimal_value (list_ascii_of_string m).

(** The lower-cased query reaches the training branch. *)
Definition training_query (text_low : string) : Prop :=
  any_in ["retire"; "retiring"; "retirement"] text_low = false
  ∧ any_in ["redeploy"; "redeployment"; "transfer"; "move"] text_low = false
  ∧ any_in ["ground"; "grounding"; "medical"; "unfit"; "disqualify"] text_low = false
  ∧ any_in ["promote"; "promotion"; "advance"] text_low = false
  ∧ any_in ["budget"; "cost"; "financial"; "expense"] text_low = false
  ∧ py_in "training" text_low
    && any_in ["threshold"; "score"; "<"; "less than"; "below"] text_low = true.

(** The lower-cased query reaches the team branch. *)
Definition team_query (text_low : string) : Prop :=
  any_in ["retire"; "retiring"; "retirement"] text_low = false
  ∧ any_in ["redeploy"; "redeployment"; "transfer"; "move"] text_low = false
  ∧ any_in ["ground"; "grounding"; "medical"; "unfit"; "disqualify"] text_low = false
  ∧ any_in ["promote"; "promotion"; "advance"] text_low = false
  ∧ any_in ["budget"; "cost"; "financial"; "expense"] text_low = false
  ∧ py_in "training" text_low
    && any_in ["threshold"; "score"; "<"; "less than"; "below"] text_low = false
  ∧ py_in "leaders" text_low || py_in "leadership" text_low = false
  ∧ py_in "team" text_low || py_in "readiness" text_low = true.






Definition promotion_columns : list string :=
  ["Personnel_ID"; "Name"; "Rank"; "Primary_Skill"; "Leadership_Potential";
   "Performance_Rating"; "Years_of_Service"].

Definition promotion_advice : list string :=
  ["Implement structured promotion criteria";
   "Develop leadership development programs";
   "Create mentorship opportunities";
   "Plan for role transitions and knowledge transfer"].

(** Leadership potential High or Yes and at least five years of service. *)
Definition promotable (lr : Z * row) : bool :=
  isin_cell ["High"; "Yes"] (cell_at "Leadership_Potential" lr.2)
  && match cell_at "Years_of_Service" lr.2 with
     | CNum q => Qle_bool 5 q
     | _ => false
     end.

(** The performance rating is the text [label]. *)
Definition rated (label : string) (lr : Z * row) : bool :=
  eq_cell label (cell_at "Performance_Rating" lr.2).

(** A row as the promotion candidates are sorted: leadership score 3 and
    a rating of Good or Excellent. *)
Definition candidate_row (lr : Z * row) : Prop :=
  cell_at "Leadership_Score" lr.2 = CNum 3
  ∧ (rated "Good" lr = true ∨ rated "Excellent" lr = true).

(** ** Roles typed in a form *)

Definition first_char (s : string) : option ascii :=
  match s with String a _ => Some a | EmptyString => None end.

Fixpoint last_char (s : string) : option ascii :=
  match s with
  | EmptyString => None
  | String a EmptyString => Some a
  | String _ t => last_char t
  end.

(** White space at an end of a string: [false] when the string is empty. *)
Definition space_at (end_ : string → option ascii) (s : string) : bool :=
  from_option is_space false (end_ s).

(** A role as the parser leaves it: not empty, no white space at either
    end, no comma. *)
Definition clean_role (r : string) : Prop :=
  r ≠ EmptyString
  ∧ space_at first_char r = false
  ∧ space_at last_char r = false
  ∧ ","%char ∉ list_ascii_of_string r.

(** The text a user types to ask for the roles [l]: the roles separated
    by [sep]. *)
Fixpoint join_with (sep : ascii) (l : list string) : string :=
  match l with
  | [] => EmptyString
  | [r] => r
  | r :: l' => r +:+ String sep (join_with sep l')
  end.

(** ** Example tables *)

Definition mkrow (cols : list string) (cells : list cell) : row :=
  list_to_map (zip cols cells).

(** A table with the default index 0, 1, 2, ... *)
Definition mkframe (cols : list string) (rows : list (list cell)) : frame :=
  Frame cols (imap (λ i cells, (Z.of_nat i, mkrow cols cells)) rows).

Definition personnel_columns : list string :=
  ["Personnel_ID"; "Name"; "Rank"; "Primary_Skill"; "Years_of_Service";
   "Performance_Rating"; "Training_Score"; "Training_Course"; "Medical_Category";
   "BMI"; "Last_Medical_Checkup"; "Leadership_Potential"; "Readiness_Level";
   "Missions_Completed"].

Definition roster : frame :=
  mkframe personnel_columns
    [ [CNum 1; CStr "Ann"; CStr "Captain"; CStr "Pilot"; CNum 25; CNum 1; CNum 40;
       CStr "Basic"; CStr "A1"; CNum 22; CStr "2024-01-10"; CStr "High"; CStr "High";
       CNum 10];
      [CNum 2; CStr "Bob"; CStr "Major"; CStr "Engineer"; CNum 25; CNum 4; CNum 80;
       CStr "Radar"; CStr "B2"; CNum 31; CStr "2023-11-02"; CStr "No"; CStr "Low";
       CNum 3];
      [CNum 3; CStr "Cy"; CStr "Airman"; CStr "Fighter Pilot"; CNum 5; CNum 4; CNum 80;
       CStr "Basic"; CStr "Zz"; CNa; CNa; CNa; CStr "Medium"; CNum 0] ].

(** One pilot, alone in the table. *)
Definition lone_pilot : frame :=
  mkframe personnel_columns
    [ [CNum 7; CStr "Dee"; CStr "Captain"; CStr "Pilot"; CNum 12; CNum 5; CNum 90;
       CStr "Basic"; CStr "A1"; CNum 23; CStr "2024-03-01"; CStr "High"; CStr "High";
       CNum 4] ].

(** Sixty engineers. *)
Definition squadron : frame :=
  mkframe personnel_columns
    (replicate 60
       [CNum 9; CStr "Eve"; CStr "Major"; CStr "Engineer"; CNum 8; CNum 4; CNum 70;
        CStr "Radar"; CStr "B1"; CNum 24; CStr "2024-02-02"; CStr "High"; CStr "Medium";
        CNum 2]).

(** The roster with the performance ratings in words. *)
Definition rated_in_words : frame :=
  mkframe personnel_columns
    [ [CNum 1; CStr "Ann"; CStr "Captain"; CStr "Pilot"; CNum 25; CStr "Below Average";
       CNum 40; CStr "Basic"; CStr "A1"; CNum 22; CStr "2024-01-10"; CStr "High";
       CStr "High"; CNum 10];
      [CNum 2; CStr "Bob"; CStr "Major"; CStr "Engineer"; CNum 25; CStr "Good"; CNum 80;
       CStr "Radar"; CStr "B2"; CNum 31; CStr "2023-11-02"; CStr "No"; CStr "Low";
       CNum 3] ].

(** Two people whose Overall scores are equal as exact numbers
    (417/50) and differ as the floats the program computes. *)
Definition tied : frame :=
  mkframe personnel_columns
    [ [CNum 1; CStr "Ann"; CStr "Captain"; CStr "Pilot"; CNum 9; CNum 3; CNum 20;
       CStr "Basic"; CStr "A1"; CNum 22; CStr "2024-01-10"; CStr "Low"; CStr "Medium";
       CNum 0];
      [CNum 2; CStr "Bob"; CStr "Major"; CStr "Engineer"; CNum 9; CNum 4; CNum 80;
       CStr "Radar"; CStr "A1"; CNum 23; CStr "2023-11-02"; CStr "Medium"; CStr "Low";
       CNum 10] ].

(** The roster with an attrition-risk column. *)
Definition assessed : frame :=
  mkframe (personnel_columns ++ ["Attrition_Risk"])
    [ [CNum 1; CStr "Ann"; CStr "Captain"; CStr "Pilot"; CNum 25; CNum 1; CNum 40;
       CStr "Basic"; CStr "A1"; CNum 22; CStr "2024-01-10"; CStr "High"; CStr "High";
       CNum 10; CStr "Low"];
      [CNum 2; CStr "Bob"; CStr "Major"; CStr "Engineer"; CNum 25; CNum 4; CNum 80;
       CStr "Radar"; CStr "B2"; CNum 31; CStr "2023-11-02"; CStr "No"; CStr "Low";
       CNum 3; CStr "High"];
      [CNum 3; CStr "Cy"; CStr "Airman"; CStr "Fighter Pilot"; CNum 5; CNum 4; CNum 80;
       CStr "Basic"; CStr "Zz"; CNa; CNa; CNa; CStr "Medium"; CNum 0; CNa];
      [CNum 4; CStr "Dee"; CStr "Captain"; CStr "Pilot"; CNum 12; CNum 5; CNum 90;
       CStr "Basic"; CStr "A1"; CNum 23; CStr "2024-03-01"; CStr "High"; CStr "High";
       CNum 4; CStr "High"] ].

(** A table without the categorical columns. *)
Definition bare : frame :=
  mkframe ["Personnel_ID"; "Name"] [ [CNum 1; CStr "Ann"] ].

(** The roster rated in words, with a second officer of high potential. *)
Definition officers : frame :=
  mkframe personnel_columns
    [ [CNum 1; CStr "Ann"; CStr "Captain"; CStr "Pilot"; CNum 25; CStr "Excellent";
       CNum 40; CStr "Basic"; CStr "A1"; CNum 22; CStr "2024-01-10"; CStr "High";
       CStr "High"; CNum 10];
      [CNum 2; CStr "Bob"; CStr "Major"; CStr "Engineer"; CNum 25; CStr "Good"; CNum 80;
       CStr "Radar"; CStr "B2"; CNum 31; CStr "2023-11-02"; CStr "Yes"; CStr "Low";
       CNum 3];
      [CNum 3; CStr "Cy"; CStr "Airman"; CStr "Fighter Pilot"; CNum 5; CStr "Average";
       CNum 80; CStr "Basic"; CStr "Zz"; CNa; CNa; CNa; CStr "Medium"; CNum 0] ].

(** Instances of the two library functions for the examples.  The parser
    reads plain decimal digits, as [pd.to_numeric] does, and nothing
    else; the pattern is searched as a literal, as [re] does for a
    pattern without metacharacters. *)
Definition plain_digits (s : string) : option Q :=
  if negb (bool_decide (s = EmptyString)) && forallb is_digit (list_ascii_of_string s)
  then Some (inject_Z (int_of_digits s)) else None.

Definition literal_pattern (pat : string) : res (string → bool) :=
  Ok (λ v, py_in (lower pat) (lower v)).

(** A view of the value a call returned, [None] when it raised. *)
Definition returned {A B} (view : A → B) (r : res A) : option B :=
  match r with inr a => Some (view a) | inl _ => None end.

(** * Theorems *)

(** ** The store *)

Lemma bind_run {A B} (m : M A) (k : A → M B) σ a σ' :
  m σ = (Ok a, σ') → (m ≫= k) σ = k a σ'.
Proof. intros H. unfold mbind, M_bind. by rewrite H. Qed.

Lemma bind_raise {A B} (m : M A) (k : A → M B) σ e σ' :
  m σ = (Raise e, σ') → (m ≫= k) σ = (Raise e, σ').
Proof. intros H. unfold mbind, M_bind. by rewrite H. Qed.

Lemma keeps_bind σ0 {A B} (m : M A) (k : A → M B) Q Q' :
  keeps σ0 m Q → (∀ a, Q a → keeps σ0 (k a) Q') → keeps σ0 (m ≫= k) Q'.
Proof.
  intros Hm Hk σ Hσ. destruct (Hm σ Hσ) as [Hpre Hq].
  unfold mbind, M_bind. destruct (m σ) as [[e|a] σ1]; simpl in *; [by split|].
  apply Hk; auto.
Qed.

Lemma keeps_weaken σ0 {A} (m : M A) (Q Q' : A → Prop) :
  keeps σ0 m Q → (∀ a, Q a → Q' a) → keeps σ0 m Q'.
Proof. intros Hm HQ σ Hσ. destruct (Hm σ Hσ). split; auto. Qed.

Lemma keeps_ret σ0 {A} (a : A) (Q : A → Prop) : Q a → keeps σ0 (mret a) Q.
Proof. intros Ha σ Hσ. split; [done|]. intros a' [= <-]. done. Qed.

Lemma keeps_lift σ0 {A} (r : res A) : keeps σ0 (lift r) (λ _, True).
Proof. intros σ Hσ. by split. Qed.

Lemma keeps_read σ0 r : keeps σ0 (read r) (λ _, True).
Proof. intros σ Hσ. unfold read. destruct (σ !! r); by split. Qed.

Lemma keeps_alloc σ0 f : keeps σ0 (alloc f) (λ d, length σ0 ≤ d).
Proof.
  intros σ Hσ. unfold alloc; simpl. split.
  - by apply prefix_app_r.
  - intros a [= <-]. by apply prefix_length.
Qed.

Lemma keeps_write σ0 r f : length σ0 ≤ r → keeps σ0 (write r f) (λ _, True).
Proof.
  intros Hr σ [k ->]. unfold write; simpl. split; [|done].
  rewrite insert_app_r_alt by done. by apply prefix_app_r.
Qed.

Lemma keeps_copy σ0 r : keeps σ0 (copy r) (λ d, length σ0 ≤ d).
Proof.
  unfold copy. eapply keeps_bind; [apply keeps_read|]. intros f _. apply keeps_alloc.
Qed.

Lemma keeps_assign σ0 r c s : length σ0 ≤ r → keeps σ0 (assign r c s) (λ _, True).
Proof.
  intros Hr. unfold assign. eapply keeps_bind; [apply keeps_read|].
  intros f _. by apply keeps_write.
Qed.

Lemma keeps_assign_scalar σ0 r c v :
  length σ0 ≤ r → keeps σ0 (assign_scalar r c v) (λ _, True).
Proof.
  intros Hr. unfold assign_scalar. eapply keeps_bind; [apply keeps_read|].
  intros f _. by apply keeps_assign.
Qed.

Lemma keeps_col σ0 r c : keeps σ0 (col r c) (λ _, True).
Proof.
  unfold col. eapply keeps_bind; [apply keeps_read|]. intros f _. apply keeps_lift.
Qed.

Lemma keeps_has_column σ0 r c : keeps σ0 (has_column r c) (λ _, True).
Proof.
  unfold has_column. eapply keeps_bind; [apply keeps_read|]. intros f _.
  by apply keeps_ret.
Qed.

Lemma keeps_for_each σ0 {A} (l : list A) (body : A → M ()) :
  (∀ x, keeps σ0 (body x) (λ _, True)) → keeps σ0 (for_each l body) (λ _, True).
Proof.
  intros Hb. induction l as [|x l IH]; simpl.
  - by apply keeps_ret.
  - eapply keeps_bind; [apply Hb|]. intros _ _. apply IH.
Qed.

Lemma keeps_untouched {A} (m : M A) (Q : store → A → Prop) :
  (∀ σ0, keeps σ0 m (Q σ0)) → untouched m.
Proof.
  intros H σ. destruct (H σ σ) as [[k Hk] _]; [done|].
  rewrite Hk. by rewrite take_app_length.
Qed.

Create HintDb keeps.
#[local] Hint Resolve keeps_lift keeps_read keeps_alloc keeps_copy keeps_col
  keeps_has_column keeps_assign keeps_assign_scalar keeps_write : keeps.

(** One step through a computation, for goals of the form [keeps]. *)
Ltac keeps_step :=
  lazymatch goal with
  | |- keeps _ (mbind _ _) _ => eapply keeps_bind; [| intros ? ?]
  | |- keeps _ (if ?b then _ else _) _ => destruct b
  | |- keeps _ (mret _) _ =>
      first [ apply (keeps_ret _ _ (λ _, True)); exact I | apply keeps_ret; try done ]
  | |- keeps _ (for_each _ _) _ => apply keeps_for_each; intros ?
  | |- keeps _ _ _ => solve [eauto with keeps]
  end.

Lemma keeps_add_derived_columns σ0 df :
  keeps σ0 (add_derived_columns df) (λ d, length σ0 ≤ d).
Proof. unfold add_derived_columns. repeat keeps_step. Qed.

#[local] Hint Resolve keeps_add_derived_columns : keeps.

Lemma keeps_who_is_going_to_leave σ0 df top_n :
  keeps σ0 (who_is_going_to_leave df top_n) (λ _, True).
Proof. unfold who_is_going_to_leave. repeat keeps_step. Qed.

Lemma keeps_medical_scores σ0 df : keeps σ0 (medical_scores df) (λ _, True).
Proof. unfold medical_scores. repeat keeps_step. Qed.

Lemma keeps_who_needs_training σ0 df thresh :
  keeps σ0 (who_needs_training df thresh) (λ _, True).
Proof. unfold who_needs_training. repeat keeps_step. Qed.

Lemma keeps_leadership_list σ0 df : keeps σ0 (leadership_list df) (λ _, True).
Proof. unfold leadership_list. repeat keeps_step. Qed.

Lemma keeps_skill_grouping σ0 df : keeps σ0 (skill_grouping df) (λ _, True).
Proof. unfold skill_grouping. repeat keeps_step. Qed.

Lemma keeps_safe_numeric_casts σ0 d :
  length σ0 ≤ d → keeps σ0 (safe_numeric_casts d) (λ _, True).
Proof. intros Hd. unfold safe_numeric_casts. repeat keeps_step. Qed.

Lemma keeps_derive_if_missing σ0 d score source table :
  length σ0 ≤ d → keeps σ0 (derive_if_missing d score source table) (λ _, True).
Proof. intros Hd. unfold derive_if_missing. repeat keeps_step. Qed.

Lemma keeps_score_overall σ0 d :
  length σ0 ≤ d → keeps σ0 (score_overall d) (λ _, True).
Proof. intros Hd. unfold score_overall. repeat keeps_step. Qed.

#[local] Hint Resolve keeps_safe_numeric_casts keeps_derive_if_missing
  keeps_score_overall : keeps.

Lemma keeps_score_table σ0 df : keeps σ0 (score_table df) (λ d, length σ0 ≤ d).
Proof. unfold score_table. repeat keeps_step. Qed.

#[local] Hint Resolve keeps_score_table : keeps.

Lemma keeps_select_best_team σ0 df headcount required_roles restrict_to_roles :
  keeps σ0 (select_best_team df headcount required_roles restrict_to_roles) (λ _, True).
Proof. unfold select_best_team. repeat keeps_step. Qed.

Lemma keeps_retirement σ0 df text_low :
  keeps σ0 (_analyze_retirement_scenario df text_low) (λ _, True).
Proof. unfold _analyze_retirement_scenario. repeat keeps_step. Qed.

Lemma keeps_redeployment σ0 df text_low :
  keeps σ0 (_analyze_redeployment_scenario df text_low) (λ _, True).
Proof. unfold _analyze_redeployment_scenario. repeat keeps_step. Qed.

Lemma keeps_grounding σ0 df text_low :
  keeps σ0 (_analyze_grounding_scenario df text_low) (λ _, True).
Proof. unfold _analyze_grounding_scenario. repeat keeps_step. Qed.

Lemma keeps_promotion σ0 df text_low :
  keeps σ0 (_analyze_promotion_scenario df text_low) (λ _, True).
Proof. unfold _analyze_promotion_scenario. repeat keeps_step. Qed.

Lemma keeps_budget σ0 df text_low :
  keeps σ0 (_analyze_budget_scenario df text_low) (λ _, True).
Proof. unfold _analyze_budget_scenario. repeat keeps_step. Qed.

#[local] Hint Resolve keeps_who_is_going_to_leave keeps_who_needs_training
  keeps_leadership_list keeps_select_best_team keeps_retirement keeps_redeployment
  keeps_grounding keeps_promotion keeps_budget : keeps.

Lemma keeps_what_if_simulation σ0 df text :
  keeps σ0 (what_if_simulation df text) (λ _, True).
Proof. unfold what_if_simulation. cbv zeta. repeat keeps_step. Qed.

(** C9.  No core operation mutates its input table: whatever the store,
    the table and the arguments, every DataFrame object that exists when
    [add_derived_columns], a report generator, [select_best_team] or
    [what_if_simulation] is called is the same object with the same
    contents when the call ends, normally or by an exception.  The
    derived columns go to a copy. *)
Theorem input_table_never_mutated :
  ∀ df : ref,
    untouched (add_derived_columns df)
    ∧ (∀ top_n, untouched (who_is_going_to_leave df top_n))
    ∧ untouched (medical_scores df)
    ∧ (∀ thresh, untouched (who_needs_training df thresh))
    ∧ untouched (leadership_list df)
    ∧ untouched (skill_grouping df)
    ∧ (∀ headcount required_roles restrict_to_roles,
         untouched (select_best_team df headcount required_roles restrict_to_roles))
    ∧ (∀ text, untouched (what_if_simulation df text)).
Proof.
  intros df. repeat split; intros.
  - apply (keeps_untouched _ (λ σ0 d, length σ0 ≤ d)); intros.
    apply keeps_add_derived_columns.
  - apply (keeps_untouched _ (λ _ _, True)); intros. apply keeps_who_is_going_to_leave.
  - apply (keeps_untouched _ (λ _ _, True)); intros. apply keeps_medical_scores.
  - apply (keeps_untouched _ (λ _ _, True)); intros. apply keeps_who_needs_training.
  - apply (keeps_untouched _ (λ _ _, True)); intros. apply keeps_leadership_list.
  - apply (keeps_untouched _ (λ _ _, True)); intros. apply keeps_skill_grouping.
  - apply (keeps_untouched _ (λ _ _, True)); intros. apply keeps_select_best_team.
  - apply (keeps_untouched _ (λ _ _, True)); intros. apply keeps_what_if_simulation.
Qed.

(** ** Series and frames in row-by-row form *)

Lemma mapM_ok {A B} (f : A → res B) (g : A → B) (l : list A) :
  (∀ x, x ∈ l → f x = Ok (g x)) → mapM f l = Ok (g <$> l).
Proof.
  induction l as [|x l IH]; intros H; [done|].
  simpl. rewrite (H x) by left. simpl.
  rewrite IH; [done|]. intros y Hy. apply H. by right.
Qed.

Lemma mapM_cons {A B} (f : A → res B) x l :
  mapM f (x :: l) = (y ← f x; k ← mapM f l; mret (y :: k)).
Proof. done. Qed.

Lemma mapM_fmap {A B C} (f : B → res C) (h : A → B) (l : list A) :
  mapM f (h <$> l) = mapM (f ∘ h) l.
Proof.
  induction l as [|x l IH]; [done|]. by rewrite fmap_cons, !mapM_cons, IH.
Qed.

Lemma zip_with_fmap_same {A B C D} (h : B → C → D) (g1 : A → B) (g2 : A → C) l :
  zip_with h (g1 <$> l) (g2 <$> l) = (λ x, h (g1 x) (g2 x)) <$> l.
Proof. induction l as [|x l IH]; [done|]. csimpl. by rewrite IH. Qed.

Lemma zip_fmap_same {A B C} (g1 : A → B) (g2 : A → C) (l : list A) :
  zip (g1 <$> l) (g2 <$> l) = (λ x, (g1 x, g2 x)) <$> l.
Proof. apply zip_with_fmap_same. Qed.

Lemma rowmap_id f : f = rowmap (columns f) (λ lr, lr.2) f.
Proof.
  destruct f as [cols b]. unfold rowmap; simpl. f_equal.
  induction b as [|[l r] b IH]; [done|]. csimpl. by rewrite <- IH.
Qed.

Lemma getitem_rowmap cols F f c :
  c ∈ cols → getitem (rowmap cols F f) c = Ok ((λ lr, cell_at c (F lr)) <$> body f).
Proof.
  intros Hc. unfold getitem, rowmap; simpl. rewrite decide_True by done.
  by rewrite <- list_fmap_compose.
Qed.

Lemma getitem_missing f c : c ∉ columns f → getitem f c = Raise KeyError.
Proof. intros Hc. unfold getitem. by rewrite decide_False. Qed.

Lemma setitem_rowmap cols F f c (G : Z * row → cell) :
  setitem (rowmap cols F f) c (G <$> body f)
  = rowmap (add_column cols c) (λ lr, <[c := G lr]> (F lr)) f.
Proof.
  unfold setitem, rowmap; simpl. f_equal.
  induction (body f) as [|x l IH]; [done|]. csimpl. by rewrite IH.
Qed.

Lemma replicate_fmap_const {A B} (v : B) (l : list A) :
  replicate (length l) v = (λ _, v) <$> l.
Proof. induction l as [|x l IH]; [done|]. csimpl. by rewrite IH. Qed.

Lemma body_rowmap_length cols F f : length (body (rowmap cols F f)) = length (body f).
Proof. unfold rowmap; simpl. by rewrite length_fmap. Qed.

Lemma elem_of_add_column cols c c' : c' ∈ add_column cols c ↔ c' ∈ cols ∨ c' = c.
Proof.
  unfold add_column. case_decide.
  - split; [by left|]. intros [?| ->]; done.
  - rewrite elem_of_app, list_elem_of_singleton. done.
Qed.

Lemma fillna_map_dict {A} table v (G : A → cell) l :
  fillna (CNum v) (map_dict table (G <$> l)) = (λ x, mapped table v (G x)) <$> l.
Proof.
  unfold fillna, map_dict. rewrite <- !list_fmap_compose.
  apply list_fmap_ext. intros _ x _. simpl.
  destruct (G x) as [| |k]; simpl; try done. by destruct (table !! k).
Qed.

Lemma cell_at_insert c v r : cell_at c (<[c := v]> r) = v.
Proof. unfold cell_at. by rewrite lookup_insert_eq. Qed.

Lemma cell_at_insert_ne c c' v r : c ≠ c' → cell_at c' (<[c := v]> r) = cell_at c' r.
Proof. intros. unfold cell_at. by rewrite lookup_insert_ne. Qed.

(** ** Running the primitives on the newest object of the store *)

Lemma run_read σ r f : σ !! r = Some f → read r σ = (Ok f, σ).
Proof. intros H. unfold read. by rewrite H. Qed.

Lemma lookup_last (σ : store) f : (σ ++ [f]) !! length σ = Some f.
Proof. by rewrite list_lookup_middle. Qed.

Lemma run_copy σ r f : σ !! r = Some f → copy r σ = (Ok (length σ), σ ++ [f]).
Proof. intros H. unfold copy. by erewrite bind_run by by apply run_read. Qed.

Lemma run_assign σ f c s :
  assign (length σ) c s (σ ++ [f]) = (Ok (), σ ++ [setitem f c s]).
Proof.
  unfold assign. erewrite bind_run by apply run_read, lookup_last.
  unfold write. f_equal. rewrite insert_app_r_alt by done.
  by rewrite Nat.sub_diag.
Qed.

Lemma run_assign_scalar σ f c v :
  assign_scalar (length σ) c v (σ ++ [f])
  = (Ok (), σ ++ [setitem f c (replicate (length (body f)) v)]).
Proof.
  unfold assign_scalar. erewrite bind_run by apply run_read, lookup_last.
  apply run_assign.
Qed.

Lemma run_col σ f c : col (length σ) c (σ ++ [f]) = (getitem f c, σ ++ [f]).
Proof. unfold col. by erewrite bind_run by apply run_read, lookup_last. Qed.

Lemma run_has_column σ f c :
  has_column (length σ) c (σ ++ [f]) = (Ok (bool_decide (c ∈ columns f)), σ ++ [f]).
Proof. unfold has_column. by erewrite bind_run by apply run_read, lookup_last. Qed.

Lemma rowmap_ext cols cols' F G f :
  cols = cols' → (∀ lr, lr ∈ body f → F lr = G lr) → rowmap cols F f = rowmap cols' G f.
Proof.
  intros -> H. unfold rowmap. f_equal. apply list_fmap_ext.
  intros i lr Hlr. f_equal. apply H. by eapply list_elem_of_lookup_2.
Qed.

Lemma run_col_rowmap σ cols F f c :
  c ∈ cols →
  col (length σ) c (σ ++ [rowmap cols F f])
  = (Ok ((λ lr, cell_at c (F lr)) <$> body f), σ ++ [rowmap cols F f]).
Proof. intros Hc. by rewrite run_col, getitem_rowmap. Qed.

Lemma run_assign_rowmap σ cols F f c (G : Z * row → cell) :
  assign (length σ) c (G <$> body f) (σ ++ [rowmap cols F f])
  = (Ok (), σ ++ [rowmap (add_column cols c) (λ lr, <[c := G lr]> (F lr)) f]).
Proof. by rewrite run_assign, setitem_rowmap. Qed.

Lemma run_assign_scalar_rowmap σ cols F f c v :
  assign_scalar (length σ) c v (σ ++ [rowmap cols F f])
  = (Ok (), σ ++ [rowmap (add_column cols c) (λ lr, <[c := v]> (F lr)) f]).
Proof.
  rewrite run_assign_scalar, body_rowmap_length, (replicate_fmap_const v (body f)).
  by rewrite setitem_rowmap.
Qed.

Lemma run_has_column_rowmap σ cols F f c :
  has_column (length σ) c (σ ++ [rowmap cols F f])
  = (Ok (bool_decide (c ∈ cols)), σ ++ [rowmap cols F f]).
Proof. by rewrite run_has_column. Qed.

(** Membership of a column name in a list of columns grown by
    [add_column]. *)
Ltac in_cols :=
  rewrite ?elem_of_add_column; solve [auto 12].

(** One bind whose first computation reads or writes the newest object. *)
Ltac run_step :=
  first
    [ erewrite bind_run by (rewrite run_col_rowmap by in_cols; reflexivity)
    | erewrite bind_run by (rewrite run_assign_rowmap; reflexivity)
    | erewrite bind_run by (rewrite run_assign_scalar_rowmap; reflexivity)
    | erewrite bind_run by (rewrite run_has_column_rowmap; reflexivity) ].

Lemma run_add_derived_columns σ df f :
  σ !! df = Some f → categorical_columns ⊆ columns f →
  add_derived_columns df σ = (Ok (length σ), σ ++ [derived f]).
Proof.
  intros Hf Hc.
  assert ("Medical_Category" ∈ columns f) by (apply Hc; set_solver).
  assert ("Leadership_Potential" ∈ columns f) by (apply Hc; set_solver).
  assert ("Readiness_Level" ∈ columns f) by (apply Hc; set_solver).
  unfold add_derived_columns.
  erewrite bind_run by by apply run_copy.
  replace (σ ++ [f]) with (σ ++ [rowmap (columns f) (λ lr, lr.2) f])
    by by rewrite <- rowmap_id.
  run_step. rewrite fillna_map_dict. run_step.
  run_step. rewrite fillna_map_dict. run_step.
  run_step. rewrite fillna_map_dict. run_step.
  run_step.
  destruct (decide ("Attrition_Risk" ∈ columns f)) as [Ha|Ha].
  - rewrite bool_decide_eq_true_2 by in_cols.
    erewrite bind_run; [|run_step; rewrite fillna_map_dict; apply run_assign_rowmap].
    unfold mret, M_ret. do 2 f_equal. unfold derived. f_equal.
    apply rowmap_ext; [done|]. intros lr _. unfold derived_row.
    rewrite bool_decide_eq_true_2 by done.
    by rewrite !cell_at_insert_ne by done.
  - rewrite bool_decide_eq_false_2
      by (rewrite !elem_of_add_column; intros [[[?|?]|?]|?]; done).
    erewrite bind_run by apply run_assign_scalar_rowmap.
    unfold mret, M_ret. do 2 f_equal. unfold derived. f_equal.
    apply rowmap_ext; [done|]. intros lr _. unfold derived_row.
    rewrite bool_decide_eq_false_2 by done.
    by rewrite !cell_at_insert_ne by done.
Qed.

(** ** The derived scores *)

Lemma filter_ext_in {A} (P1 P2 : A → Prop)
    `{!∀ x, Decision (P1 x), !∀ x, Decision (P2 x)} (l : list A) :
  (∀ x, x ∈ l → P1 x ↔ P2 x) → filter P1 l = filter P2 l.
Proof.
  induction l as [|x l IH]; intros Hiff; [done|].
  rewrite !filter_cons, IH by (intros; apply Hiff; by right).
  destruct (Hiff x) as [H1 H2]; [by left|].
  repeat case_decide; tauto.
Qed.

Lemma derived_columns_eq cols :
  derived_columns cols = cols ++ filter (λ c, c ∉ cols) derived_names.
Proof. clear str_to_float re_compile_nocase.
  unfold derived_columns.
  assert (NoDup derived_names) as Hnd by (by apply (bool_decide_unpack _); vm_compute).
  revert cols. induction derived_names as [|x names IH]; intros cols.
  - by rewrite filter_nil, app_nil_r.
  - apply NoDup_cons in Hnd as [Hx Hnd]. simpl. rewrite IH by done.
    rewrite filter_cons. unfold add_column.
    destruct (decide (x ∈ cols)) as [Hin|Hin].
    + by rewrite (decide_False (P := x ∉ cols)) by tauto.
    + rewrite (decide_True (P := x ∉ cols)) by done.
      rewrite <- app_assoc. simpl. do 2 f_equal.
      apply filter_ext_in. intros c Hc.
      rewrite elem_of_app, list_elem_of_singleton. split; [tauto|].
      intros Hn [?| ->]; done.
Qed.

Lemma mapped_medical c : mapped MEDICAL_SCORE 60 c = CNum (medical_score c).
Proof.
  destruct c as [| |k]; try done. unfold mapped, medical_score, MEDICAL_SCORE.
  simpl. rewrite !lookup_insert, lookup_empty.
  repeat (case_decide; [subst; repeat case_decide; done|]).
  repeat case_decide; congruence.
Qed.

Lemma mapped_leadership c : mapped LEADERSHIP_MAP 1 c = CNum (leadership_score c).
Proof.
  destruct c as [| |k]; try done. unfold mapped, leadership_score, LEADERSHIP_MAP.
  simpl. rewrite !lookup_insert, lookup_empty.
  repeat (case_decide; [subst; repeat case_decide; done|]).
  repeat case_decide; congruence.
Qed.

Lemma mapped_readiness c : mapped READINESS_SCORE 1 c = CNum (readiness_score c).
Proof.
  destruct c as [| |k]; try done. unfold mapped, readiness_score, READINESS_SCORE.
  simpl. rewrite !lookup_insert, lookup_empty.
  repeat (case_decide; [subst; repeat case_decide; done|]).
  repeat case_decide; congruence.
Qed.

Lemma mapped_attrition c : mapped ATTRITION_RISK_MAP 2 c = CNum (attrition_score c).
Proof.
  destruct c as [| |k]; try done. unfold mapped, attrition_score, ATTRITION_RISK_MAP.
  simpl. rewrite !lookup_insert, lookup_empty.
  repeat (case_decide; [subst; repeat case_decide; done|]).
  repeat case_decide; congruence.
Qed.

Lemma score_ranges c :
  (60 <= medical_score c <= 100)%Q ∧ (1 <= leadership_score c <= 3)%Q
  ∧ (1 <= readiness_score c <= 3)%Q ∧ (1 <= attrition_score c <= 3)%Q.
Proof.
  unfold medical_score, leadership_score, readiness_score, attrition_score.
  destruct c; repeat case_decide; repeat split; by compute.
Qed.

Lemma derived_row_enriched has lr :
  enriched_from has lr (lr.1, derived_row has lr.2).
Proof.
  unfold enriched_from, derived_row. simpl. split; [done|]. split.
  - intros c Hc. unfold derived_names in Hc.
    rewrite !not_elem_of_cons in Hc. destruct Hc as (?&?&?&?&_).
    by rewrite !lookup_insert_ne by done.
  - rewrite <- mapped_medical, <- mapped_leadership, <- mapped_readiness.
    repeat split.
    + by rewrite !lookup_insert_ne, lookup_insert_eq by done.
    + by rewrite !lookup_insert_ne, lookup_insert_eq by done.
    + by rewrite !lookup_insert_ne, lookup_insert_eq by done.
    + rewrite lookup_insert_eq. destruct has; [|done].
      by rewrite mapped_attrition.
Qed.

(** C5.  On every table that has the three categorical columns, enrich
    ([add_derived_columns]) raises nothing and returns a new table: the
    original columns come first, in their order, followed by the derived
    columns that were not there; each row keeps its label and its cells
    outside the four derived columns; and its four derived scores are
    those of the lookup tables, with default 60 (medical), 1
    (leadership), 1 (readiness) and 2 (attrition, also the constant
    value when there is no attrition-risk column), for a missing or
    unrecognised value too.  Each score lies in its range. *)
Theorem enrich_adds_derived_scores (σ : store) (df : ref) (f : frame) :
  σ !! df = Some f →
  categorical_columns ⊆ columns f →
  ∃ d : frame,
    add_derived_columns df σ = (Ok (length σ), σ ++ [d])
    ∧ columns d = columns f ++ filter (λ c, c ∉ columns f) derived_names
    ∧ Forall2 (enriched_from (bool_decide ("Attrition_Risk" ∈ columns f)))
              (body f) (body d)
    ∧ ∀ c, (60 <= medical_score c <= 100)%Q ∧ (1 <= leadership_score c <= 3)%Q
           ∧ (1 <= readiness_score c <= 3)%Q ∧ (1 <= attrition_score c <= 3)%Q.
Proof.
  intros Hf Hc. exists (derived f). split; [by apply run_add_derived_columns|].
  split; [apply derived_columns_eq|]. split; [|apply score_ranges].
  unfold derived, rowmap; simpl. apply Forall2_fmap_r, Forall_Forall2_diag.
  apply Forall_forall. intros lr _. apply derived_row_enriched.
Qed.

(** ** The scored copy *)

Lemma fillna_to_numeric {A} (G : A → cell) l :
  fillna (CNum 0) (to_numeric (G <$> l)) = (λ x, CNum (num_of (G x))) <$> l.
Proof.
  unfold fillna, to_numeric. rewrite <- !list_fmap_compose.
  apply list_fmap_ext. intros _ x _. simpl.
  destruct (G x) as [| |v]; simpl; try done. by destruct (str_to_float v).
Qed.

Lemma run_cast_one σ cols F f c :
  (has ← has_column (length σ) c;
   if has : bool then
     s ← col (length σ) c; assign (length σ) c (fillna (CNum 0) (to_numeric s))
   else assign_scalar (length σ) c (CNum 0)) (σ ++ [rowmap cols F f])
  = (Ok (), σ ++ [rowmap (add_column cols c)
                         (λ lr, <[c := CNum (col_q cols c (F lr))]> (F lr)) f]).
Proof.
  run_step. unfold col_q. destruct (decide (c ∈ cols)) as [Hc|Hc].
  - rewrite bool_decide_eq_true_2 by done.
    run_step. by rewrite fillna_to_numeric, run_assign_rowmap.
  - rewrite bool_decide_eq_false_2 by done.
    by rewrite run_assign_scalar_rowmap.
Qed.

Lemma col_q_add cols c c' v r :
  c ≠ c' → col_q (add_column cols c') c (<[c' := v]> r) = col_q cols c r.
Proof. clear re_compile_nocase.
  intros Hne. unfold col_q. rewrite cell_at_insert_ne by done.
  destruct (decide (c ∈ cols)) as [Hc|Hc].
  - rewrite !bool_decide_eq_true_2; [done|done|]. rewrite elem_of_add_column. by left.
  - rewrite !bool_decide_eq_false_2; [done|done|]. rewrite elem_of_add_column. tauto.
Qed.

Lemma run_safe_numeric_casts σ f :
  safe_numeric_casts (length σ) (σ ++ [derived f])
  = (Ok (), σ ++ [rowmap (cast_columns (columns f)) (cast_row f) f]).
Proof.
  unfold safe_numeric_casts, derived. simpl.
  erewrite bind_run by apply run_cast_one.
  erewrite bind_run by apply run_cast_one.
  erewrite bind_run by apply run_cast_one.
  unfold mret, M_ret. do 2 f_equal. f_equal. apply rowmap_ext; [done|].
  intros lr _. unfold cast_row, missions, training, performance, derived_row,
    derived_columns, derived_names.
  simpl. by rewrite !col_q_add by done.
Qed.

Lemma run_derive_if_missing σ cols F f score source table :
  score ∈ cols →
  derive_if_missing (length σ) score source table (σ ++ [rowmap cols F f])
  = (Ok (), σ ++ [rowmap cols F f]).
Proof.
  intros Hs. unfold derive_if_missing. do 2 run_step.
  by rewrite bool_decide_eq_true_2 by done.
Qed.

Lemma run_col_num σ cols F f c (q : Z * row → Q) :
  c ∈ cols → (∀ lr, cell_at c (F lr) = CNum (q lr)) →
  col (length σ) c (σ ++ [rowmap cols F f])
  = (Ok ((λ lr, num_cell (Some (q lr))) <$> body f), σ ++ [rowmap cols F f]).
Proof.
  intros Hc Hq. rewrite run_col_rowmap by done. do 2 f_equal.
  apply list_fmap_ext. intros _ lr _. by rewrite Hq.
Qed.

Lemma scale_num {A} k (g : A → option Q) l :
  scale k ((λ x, num_cell (g x)) <$> l) = Ok ((λ x, num_cell (f64_mul k <$> g x)) <$> l).
Proof.
  unfold scale. rewrite mapM_fmap. apply mapM_ok. intros x _. simpl.
  by destruct (g x).
Qed.

Lemma add_series_num {A} (g1 g2 : A → option Q) l :
  add_series ((λ x, num_cell (g1 x)) <$> l) ((λ x, num_cell (g2 x)) <$> l)
  = Ok ((λ x, num_cell (omap2 f64_add (g1 x) (g2 x))) <$> l).
Proof.
  unfold add_series. rewrite zip_fmap_same, mapM_fmap. apply mapM_ok.
  intros x _. simpl. by destruct (g1 x), (g2 x).
Qed.

Lemma div_scalar_num {A} (g : A → option Q) l k :
  div_scalar ((λ x, num_cell (g x)) <$> l) (num_cell k)
  = Ok ((λ x, num_cell (odiv (g x) k)) <$> l).
Proof.
  unfold div_scalar. rewrite mapM_fmap. apply mapM_ok. intros x _. simpl.
  destruct (g x), k; simpl; try done. by destruct (Qeq_bool _ _).
Qed.

Lemma div_scalar_const {A} (g : A → option Q) l q :
  div_scalar ((λ x, num_cell (g x)) <$> l) (CNum q)
  = Ok ((λ x, num_cell (odiv (g x) (Some q))) <$> l).
Proof. apply (div_scalar_num g l (Some q)). Qed.

Lemma series_max_num {A} (g : A → Q) l :
  series_max ((λ x, num_cell (Some (g x))) <$> l)
  = Ok (num_cell (series_max_q (g <$> l))).
Proof.
  induction l as [|x l IH]; [done|].
  rewrite !fmap_cons.
  change (series_max (?c :: ?s)) with
    (m ← series_max s;
     match c, m with
     | CStr _, _ | _, CStr _ => Raise TypeError
     | CNa, _ => Ok m
     | CNum q, CNa => Ok (CNum q)
     | CNum q, CNum p => Ok (CNum (if Qle_bool q p then p else q))
     end).
  rewrite IH. simpl. by destruct (series_max_q (g <$> l)).
Qed.

Lemma py_max_num x k : py_max (num_cell x) k = Ok (num_cell (opy_max x k)).
Proof. by destruct x. Qed.

Lemma le_scalar_num x k :
  le_scalar (num_cell x) k = Ok (match x with Some q => Qle_bool q k | None => false end).
Proof. by destruct x. Qed.

Lemma cast_row_missions f lr :
  cell_at "Missions_Completed" (cast_row f lr) = CNum (missions f lr.2).
Proof. unfold cast_row. by rewrite cell_at_insert. Qed.

Lemma cast_row_training f lr :
  cell_at "Training_Score" (cast_row f lr) = CNum (training f lr.2).
Proof. unfold cast_row. by rewrite cell_at_insert_ne, cell_at_insert by done. Qed.

Lemma cast_row_performance f lr :
  cell_at "Performance_Rating" (cast_row f lr) = CNum (performance f lr.2).
Proof. unfold cast_row. by rewrite !cell_at_insert_ne, cell_at_insert by done. Qed.

Lemma cast_row_medical f lr :
  cell_at "Medical_Score" (cast_row f lr)
  = CNum (medical_score (cell_at "Medical_Category" lr.2)).
Proof.
  unfold cast_row, derived_row.
  by rewrite !cell_at_insert_ne, cell_at_insert, mapped_medical by done.
Qed.

Lemma cast_row_leadership f lr :
  cell_at "Leadership_Score" (cast_row f lr)
  = CNum (leadership_score (cell_at "Leadership_Potential" lr.2)).
Proof.
  unfold cast_row, derived_row.
  by rewrite !cell_at_insert_ne, cell_at_insert, mapped_leadership by done.
Qed.

Lemma cast_row_readiness f lr :
  cell_at "Readiness_Score" (cast_row f lr)
  = CNum (readiness_score (cell_at "Readiness_Level" lr.2)).
Proof.
  unfold cast_row, derived_row.
  by rewrite !cell_at_insert_ne, cell_at_insert, mapped_readiness by done.
Qed.

Lemma in_cast_columns cols c :
  c ∈ cast_columns cols ↔ c ∈ cols ∨ c ∈ derived_names ∨ c ∈ cast_names.
Proof. clear str_to_float re_compile_nocase.
  unfold cast_columns, derived_columns, derived_names, cast_names. simpl.
  rewrite !elem_of_add_column, !elem_of_cons, elem_of_nil. tauto.
Qed.

(** One bind whose first computation is a pure series operation. *)
Ltac run_lift lem :=
  erewrite bind_run by (unfold lift; rewrite lem; reflexivity).

Lemma run_perf_denominator (σ : store) (s : list cell) (b : bool) (x : option Q) :
  series_max s = Ok (num_cell x) →
  (if b then mret (CNum 5)
   else pmx ← lift (series_max s); lift (py_max pmx 1)) σ
  = (Ok (num_cell (if b then Some 5%Q else opy_max x 1)), σ).
Proof.
  intros Hs. destruct b; [done|].
  run_lift Hs. unfold lift. by rewrite py_max_num.
Qed.

Lemma run_score_overall σ f :
  score_overall (length σ) (σ ++ [rowmap (cast_columns (columns f)) (cast_row f) f])
  = (Ok (), σ ++ [scored f]).
Proof.
  unfold score_overall.
  erewrite bind_run
    by (apply run_col_num; [rewrite in_cast_columns; set_solver|apply cast_row_missions]).
  run_lift @series_max_num. run_lift py_max_num.
  erewrite bind_run
    by (apply run_col_num; [rewrite in_cast_columns; set_solver|apply cast_row_performance]).
  run_lift @series_max_num. run_lift le_scalar_num.
  erewrite bind_run by (apply run_perf_denominator, series_max_num).
  run_lift @div_scalar_num.
  erewrite bind_run
    by (apply run_col_num; [rewrite in_cast_columns; set_solver|apply cast_row_training]).
  run_lift @div_scalar_const.
  erewrite bind_run
    by (apply run_col_num; [rewrite in_cast_columns; set_solver|apply cast_row_medical]).
  run_lift @div_scalar_const.
  erewrite bind_run
    by (apply run_col_num; [rewrite in_cast_columns; set_solver|apply cast_row_readiness]).
  run_lift @scale_num.
  erewrite bind_run
    by (apply run_col_num; [rewrite in_cast_columns; set_solver|apply cast_row_leadership]).
  run_lift @scale_num. run_lift @add_series_num.
  run_lift @scale_num. run_lift @add_series_num.
  run_lift @scale_num. run_lift @add_series_num.
  run_lift @scale_num. run_lift @add_series_num.
  erewrite bind_run
    by (apply run_col_num; [rewrite in_cast_columns; set_solver|apply cast_row_missions]).
  run_lift @div_scalar_num.
  run_lift @scale_num. run_lift @add_series_num.
  rewrite run_assign_rowmap. reflexivity.
Qed.

Lemma run_score_table σ df f :
  σ !! df = Some f → categorical_columns ⊆ columns f →
  score_table df σ = (Ok (S (length σ)), σ ++ [derived f; scored f]).
Proof.
  intros Hf Hc. unfold score_table.
  erewrite bind_run by by apply run_add_derived_columns.
  erewrite bind_run by apply run_copy, lookup_last.
  erewrite bind_run by apply run_safe_numeric_casts.
  erewrite bind_run
    by (apply run_derive_if_missing; rewrite in_cast_columns; set_solver).
  erewrite bind_run
    by (apply run_derive_if_missing; rewrite in_cast_columns; set_solver).
  erewrite bind_run
    by (apply run_derive_if_missing; rewrite in_cast_columns; set_solver).
  erewrite bind_run by apply run_score_overall.
  unfold mret, M_ret. rewrite length_app, <- app_assoc. simpl.
  by rewrite Nat.add_1_r.
Qed.

(** ** The maximum of a column *)

Lemma is_max_unique m m' qs : is_max m qs → is_max m' qs → (m == m')%Q.
Proof.
  intros [(x & Hx & Hxm) Hub] [(y & Hy & Hym) Hub'].
  apply Qle_antisym.
  - rewrite <- Hxm. by apply Hub'.
  - rewrite <- Hym. by apply Hub.
Qed.

Lemma is_max_foldr b l : is_max (foldr Qmax b l) (b :: l).
Proof.
  induction l as [|x l [(y & Hy & Hym) Hub]]; simpl.
  - split; [exists b; split; [by left|done]|].
    intros x Hx. apply list_elem_of_singleton in Hx as ->. apply Qle_refl.
  - split.
    + destruct (Q.max_spec x (foldr Qmax b l)) as [[_ He]|[_ He]].
      * exists y. split; [|by rewrite He].
        apply elem_of_cons in Hy as [->|Hy]; [by left|by do 2 right].
      * exists x. split; [right; by left|by rewrite He].
    + intros z Hz. rewrite !elem_of_cons in Hz.
      destruct Hz as [->|[->|Hz]].
      * eapply Qle_trans; [apply Hub; by left|apply Q.le_max_r].
      * apply Q.le_max_l.
      * eapply Qle_trans; [apply Hub; by right|apply Q.le_max_r].
Qed.

Lemma is_max_observed qs : qs ≠ [] → is_max (observed_max qs) qs.
Proof. destruct qs as [|q qs]; [done|]. intros _. apply is_max_foldr. Qed.

Lemma series_max_q_is_max qs :
  qs ≠ [] → ∃ m, series_max_q qs = Some m ∧ is_max m qs.
Proof.
  induction qs as [|q qs IH]; [done|]. intros _. simpl.
  destruct qs as [|q' qs].
  - simpl. exists q. split; [done|]. split; [exists q; split; [by left|done]|].
    intros x Hx. apply list_elem_of_singleton in Hx as ->. apply Qle_refl.
  - destruct IH as (m & -> & (y & Hy & Hym) & Hub); [done|].
    eexists. split; [done|].
    destruct (Qle_bool q m) eqn:Hq.
    + apply Qle_bool_iff in Hq. split; [exists y; split; [by right|done]|].
      intros x Hx. apply elem_of_cons in Hx as [->|Hx]; [done|by apply Hub].
    + assert (m < q)%Q as Hlt.
      { apply Qnot_le_lt. intros Hle. apply Qle_bool_iff in Hle. congruence. }
      split; [exists q; split; [by left|done]|].
      intros x Hx. apply elem_of_cons in Hx as [->|Hx]; [apply Qle_refl|].
      eapply Qle_trans; [by apply Hub|by apply Qlt_le_weak].
Qed.

Lemma series_max_q_observed qs :
  qs ≠ [] → ∃ m, series_max_q qs = Some m ∧ (m == observed_max qs)%Q.
Proof.
  intros Hne. destruct (series_max_q_is_max qs Hne) as (m & Hm & Hmax).
  exists m. split; [done|]. eapply is_max_unique; [done|by apply is_max_observed].
Qed.

Lemma Qle_bool_eq_compat x y k : (x == y)%Q → Qle_bool x k = Qle_bool y k.
Proof.
  intros H. destruct (Qle_bool y k) eqn:Hy.
  - apply Qle_bool_iff. apply Qle_bool_iff in Hy. by rewrite H.
  - destruct (Qle_bool x k) eqn:Hx; [|done].
    apply Qle_bool_iff in Hx. rewrite H in Hx. apply Qle_bool_iff in Hx. congruence.
Qed.

Lemma Qeq_bool_nonzero d : (0 < d)%Q → Qeq_bool d 0 = false.
Proof.
  intros Hd. destruct (Qeq_bool d 0) eqn:He; [|done].
  apply Qeq_bool_iff in He. rewrite He in Hd. by apply Qlt_irrefl in Hd.
Qed.

Lemma perf_denominator_spec f :
  body f ≠ [] →
  let max_performance := observed_max ((λ lr, performance f lr.2) <$> body f) in
  ∃ d, perf_denominator f = Some d ∧ (0 < d)%Q
       ∧ (d == if Qle_bool max_performance 5 then 5 else max_performance)%Q.
Proof.
  intros Hne mp. unfold perf_denominator.
  destruct (series_max_q_observed ((λ lr, performance f lr.2) <$> body f))
    as (m & -> & Hm); [by destruct (body f)|].
  fold mp in Hm. rewrite <- (Qle_bool_eq_compat _ _ _ Hm).
  destruct (Qle_bool m 5) eqn:Hle.
  - exists 5%Q. by repeat split.
  - assert (5 < m)%Q as Hlt.
    { apply Qnot_le_lt. intros H. apply Qle_bool_iff in H. congruence. }
    simpl. unfold Qltb. replace (Qle_bool 1 m) with true.
    + exists m. split; [done|]. split; [|done]. lra.
    + symmetry. apply Qle_bool_iff. lra.
Qed.

Lemma missions_denominator_spec f :
  body f ≠ [] →
  let max_missions := observed_max ((λ lr, missions f lr.2) <$> body f) in
  ∃ d, missions_denominator f = Some d ∧ (1 <= d)%Q
       ∧ (d == Qmax max_missions 1)%Q.
Proof.
  intros Hne mm. unfold missions_denominator.
  destruct (series_max_q_observed ((λ lr, missions f lr.2) <$> body f))
    as (m & -> & Hm); [by destruct (body f)|].
  fold mm in Hm. simpl. eexists. split; [done|]. unfold Qltb.
  destruct (Qle_bool 1 m) eqn:Hle; simpl.
  - apply Qle_bool_iff in Hle. split; [done|].
    rewrite <- Hm. symmetry. by apply Q.max_l.
  - assert (m < 1)%Q as Hlt.
    { apply Qnot_le_lt. intros H. apply Qle_bool_iff in H. congruence. }
    split; [apply Qle_refl|]. rewrite <- Hm. symmetry. apply Q.max_r. lra.
Qed.

Lemma round64_proper p q : (p == q)%Q → round64 p = round64 q.
Proof. intros H. unfold round64. by rewrite (Qred_complete p q H). Qed.

Lemma f64_mul_proper p p' q q' :
  (p == p')%Q → (q == q')%Q → f64_mul p q = f64_mul p' q'.
Proof.
  intros Hp Hq. unfold f64_mul.
  by rewrite (round64_proper p p' Hp), (round64_proper q q' Hq).
Qed.

Lemma f64_div_proper p p' q q' :
  (p == p')%Q → (q == q')%Q → f64_div p q = f64_div p' q'.
Proof.
  intros Hp Hq. unfold f64_div.
  by rewrite (round64_proper p p' Hp), (round64_proper q q' Hq).
Qed.

Lemma overall_cell_formula f lr :
  lr ∈ body f →
  ∃ q, overall_cell f lr = Some q ∧ (q == overall_formula f lr.2)%Q.
Proof.
  intros Hlr. assert (body f ≠ []) as Hne by (intros H; rewrite H in Hlr; inversion Hlr).
  destruct (perf_denominator_spec f Hne) as (pd & Hpd & Hpd0 & Hpde).
  destruct (missions_denominator_spec f Hne) as (md & Hmd & Hmd1 & Hmde).
  unfold overall_cell, overall_formula. rewrite Hpd, Hmd. simpl.
  rewrite (Qeq_bool_nonzero pd) by done.
  rewrite (Qeq_bool_nonzero md) by lra.
  simpl. eexists. split; [done|].
  unfold f64_sum. cbn [fold_left].
  rewrite <- (f64_div_proper _ _ pd _ (Qeq_refl _) Hpde).
  rewrite <- (f64_div_proper _ _ md _ (Qeq_refl _) Hmde).
  rewrite (f64_mul_proper 2.5 (5 # 2) _ _ eq_refl (Qeq_refl _)).
  rewrite (f64_mul_proper 1.5 (3 # 2) _ _ eq_refl (Qeq_refl _)).
  rewrite (f64_mul_proper 1.2 (6 # 5) _ _ eq_refl (Qeq_refl _)).
  rewrite (f64_mul_proper 1.0 1 _ _ eq_refl (Qeq_refl _)).
  rewrite (f64_mul_proper 0.6 (3 # 5) _ _ eq_refl (Qeq_refl _)).
  rewrite (f64_mul_proper 0.4 (2 # 5) _ _ eq_refl (Qeq_refl _)).
  reflexivity.
Qed.

(** C4.  For every table with the three categorical columns,
    [select_best_team] first builds a scored copy of the table
    ([score_table], lines 76-107) in which every row, in the order and
    with the labels of the source, has the Overall score
    2.5 x readiness + 1.5 x leadership + 1.2 x (performance / 5, or / the
    observed maximum performance when that exceeds 5) + 1.0 x (medical /
    100) + 0.6 x (training / 100) + 0.4 x (missions / the observed maximum
    missions, at least 1).  Performance, training and missions are the
    cells after the safe numeric cast (0 for a missing or non-numeric
    cell or an absent column).  The score is a float64: each product,
    each quotient and each sum of the formula is the float64 operation,
    the sum taken from left to right, and the stored value is that
    number bit for bit. *)
Theorem overall_score_is_the_weighted_sum (σ : store) (df : ref) (f : frame) :
  σ !! df = Some f →
  categorical_columns ⊆ columns f →
  ∃ d : frame,
    score_table df σ = (Ok (S (length σ)), σ ++ [derived f; d])
    ∧ Forall2 (scored_from f) (body f) (body d).
Proof.
  intros Hf Hc. exists (scored f). split; [by apply run_score_table|].
  unfold scored, rowmap; simpl. apply Forall2_fmap_r, Forall_Forall2_diag.
  apply Forall_forall. intros lr Hlr. split; [done|]. simpl.
  destruct (overall_cell_formula f lr Hlr) as (q & Hq & Hqe).
  exists q. split; [|done]. by rewrite lookup_insert_eq, Hq.
Qed.

(** ** Frames as values: masks, sorting, labels *)

Lemma getitem_ok f c :
  c ∈ columns f → getitem f c = Ok ((λ lr, cell_at c lr.2) <$> body f).
Proof. intros Hc. unfold getitem. by rewrite decide_True. Qed.

Lemma filter_zip_fmap {A} (h : A → bool) (l : list A) :
  (filter (λ p, p.2 = true) (zip l (h <$> l))).*1 = filter (λ x, h x = true) l.
Proof.
  induction l as [|x l IH]; [done|]. rewrite fmap_cons.
  change (zip (x :: l) (h x :: (h <$> l))) with ((x, h x) :: zip l (h <$> l)).
  rewrite !filter_cons. cbn [snd].
  destruct (h x); cbn.
  - rewrite decide_True by done. rewrite fmap_cons. cbn [fst]. by rewrite IH.
  - rewrite decide_False by done. by rewrite IH.
Qed.

Lemma df_mask_fmap f (h : Z * row → bool) :
  df_mask f (h <$> body f) = Frame (columns f) (filter (λ lr, h lr = true) (body f)).
Proof. unfold df_mask. f_equal. apply filter_zip_fmap. Qed.

Lemma insert_row_perm by_ x l : insert_row by_ x l ≡ₚ x :: l.
Proof.
  induction l as [|y l IH]; [done|]. simpl.
  destruct (keys_compare by_ x.2 y.2); try done.
  rewrite IH. apply Permutation_swap.
Qed.

Lemma sort_rows_perm by_ l : sort_rows by_ l ≡ₚ l.
Proof.
  induction l as [|x l IH]; [done|]. unfold sort_rows in *. simpl.
  by rewrite insert_row_perm, IH.
Qed.

Lemma length_sort_rows by_ l : length (sort_rows by_ l) = length l.
Proof. by rewrite sort_rows_perm. Qed.

Lemma rankable_sortable rows :
  rankable rows → sortable ((λ lr, cell_at "Overall" lr.2) <$> rows) = true.
Proof.
  intros H. unfold sortable. apply orb_true_iff. left.
  apply forallb_forall. intros c Hc. apply list_elem_of_In in Hc.
  apply list_elem_of_fmap in Hc as (lr & -> & Hlr).
  unfold rankable in H. rewrite Forall_forall in H. by rewrite (H lr Hlr).
Qed.

Lemma sort_values_overall d :
  "Overall" ∈ columns d → rankable (body d) →
  sort_values d overall_desc = Ok (Frame (columns d) (sort_rows overall_desc (body d))).
Proof.
  intros Hc Hr. unfold sort_values, overall_desc. simpl.
  rewrite getitem_ok by done. simpl. by rewrite rankable_sortable.
Qed.

Lemma rankable_filter (P : Z * row → Prop) `{!∀ x, Decision (P x)} rows :
  rankable rows → rankable (filter P rows).
Proof.
  unfold rankable. rewrite !Forall_forall. intros Hrk lr Hlr.
  apply list_elem_of_filter in Hlr as [_ Hlr]. by apply Hrk.
Qed.

Lemma rankable_sort by_ rows : rankable rows → rankable (sort_rows by_ rows).
Proof. unfold rankable. by rewrite sort_rows_perm. Qed.

Lemma rankable_head n cols rows : rankable rows → rankable (body (df_head n (Frame cols rows))).
Proof. unfold rankable, df_head. simpl. intros H. destruct (0 <=? n)%Z; by apply Forall_take. Qed.

Lemma elem_of_concat {A} (x : A) (ls : list (list A)) :
  x ∈ concat ls ↔ ∃ l, l ∈ ls ∧ x ∈ l.
Proof.
  induction ls as [|l ls IH]; simpl.
  - split; [by intros ?%elem_of_nil|]. by intros (l & ?%elem_of_nil & _).
  - rewrite elem_of_app, IH. split.
    + intros [H|(l' & Hl' & Hx)]; [exists l; split; [by left|done]|].
      exists l'. split; [by right|done].
    + intros (l' & Hl' & Hx). apply elem_of_cons in Hl' as [->|Hl']; [by left|].
      right. by exists l'.
Qed.

Lemma rankable_picks rows picked :
  rankable rows → rankable (concat ((λ l, rows_labelled l rows) <$> picked)).
Proof.
  unfold rankable. rewrite !Forall_forall. intros H lr Hlr.
  apply elem_of_concat in Hlr as (l & Hl & Hlr).
  apply list_elem_of_fmap in Hl as (x & -> & _).
  apply list_elem_of_filter in Hlr as [_ Hlr]. by apply H.
Qed.

Lemma eq_cell_true role c : eq_cell role c = true ↔ c = CStr role.
Proof.
  destruct c as [| |k]; simpl; try by split.
  rewrite bool_decide_eq_true. split; [by intros ->|by intros [= ->]].
Qed.

Lemma isin_cell_true roles c : isin_cell roles c = true ↔ ∃ k, c = CStr k ∧ k ∈ roles.
Proof.
  destruct c as [| |k]; simpl.
  - split; [done|]. by intros (? & ? & _).
  - split; [done|]. by intros (? & ? & _).
  - rewrite bool_decide_eq_true. split; [by exists k|]. by intros (? & [= ->] & ?).
Qed.

Lemma df_mask_eq_str d role :
  df_mask d (eq_str role ((λ lr, cell_at "Primary_Skill" lr.2) <$> body d))
  = Frame (columns d) (filter (has_skill role) (body d)).
Proof.
  unfold eq_str. rewrite <- list_fmap_compose.
  apply (df_mask_fmap d (λ lr, eq_cell role (cell_at "Primary_Skill" lr.2))).
Qed.

Lemma df_mask_isin d roles :
  df_mask d (isin roles ((λ lr, cell_at "Primary_Skill" lr.2) <$> body d))
  = Frame (columns d) (filter (skill_in roles) (body d)).
Proof.
  unfold isin. rewrite <- list_fmap_compose.
  apply (df_mask_fmap d (λ lr, isin_cell roles (cell_at "Primary_Skill" lr.2))).
Qed.

(** ** The role picks *)

Lemma pick_roles_cons d role roles picked_idx :
  pick_roles d (role :: roles) picked_idx
  = (s ← getitem d "Primary_Skill";
     let sub := df_mask d (eq_str role s) in
     if bool_decide (length (body sub) ≠ 0) then
       sorted ← sort_values sub [("Overall", false)];
       match labels sorted with
       | l :: _ => pick_roles d roles (picked_idx ++ [l])
       | [] => Raise IndexError
       end
     else pick_roles d roles picked_idx).
Proof. done. Qed.

Lemma pick_roles_spec d roles acc :
  "Primary_Skill" ∈ columns d → "Overall" ∈ columns d → rankable (body d) →
  ∃ picks matched,
    pick_roles d roles acc = Ok (acc ++ picks)
    ∧ matched `sublist_of` roles
    ∧ Forall2 (picked_for d) picks matched
    ∧ ∀ role, role ∈ roles → (∃ lr, lr ∈ body d ∧ has_skill role lr) →
        ∃ lr, lr ∈ body d ∧ has_skill role lr ∧ lr.1 ∈ picks.
Proof.
  intros Hps Hov Hr. revert acc. induction roles as [|role roles IH]; intros acc.
  - exists [], []. rewrite app_nil_r. split; [done|]. split; [constructor|].
    split; [constructor|]. by intros ? ?%elem_of_nil.
  - rewrite pick_roles_cons, getitem_ok by done.
    cbn [mbind res_bind]. cbv zeta. rewrite df_mask_eq_str. cbn [body columns].
    destruct (filter (has_skill role) (body d)) as [|lr0 sub'] eqn:Hsub.
    + rewrite bool_decide_eq_false_2 by (simpl; lia).
      destruct (IH acc) as (picks & matched & Hrun & Hsl & Hf2 & Hcov).
      exists picks, matched. split; [done|]. split; [by apply sublist_cons|].
      split; [done|].
      intros r Hr' Hex. apply elem_of_cons in Hr' as [->|Hr']; [|by apply Hcov].
      destruct Hex as (lr & Hlr & Hs).
      assert (lr ∈ filter (has_skill role) (body d)) as Hin
        by (apply list_elem_of_filter; by split).
      rewrite Hsub in Hin. by apply elem_of_nil in Hin.
    + rewrite bool_decide_eq_true_2 by done.
      assert (rankable (lr0 :: sub')) as Hrs
        by (rewrite <- Hsub; by apply rankable_filter).
      fold overall_desc. rewrite sort_values_overall by done.
      cbn [mbind res_bind labels body columns].
      destruct (sort_rows overall_desc (lr0 :: sub')) as [|top sorted] eqn:Hsort.
      { pose proof (sort_rows_perm overall_desc (lr0 :: sub')) as Hp.
        rewrite Hsort in Hp. by apply Permutation_nil_cons in Hp. }
      csimpl.
      destruct (IH (acc ++ [top.1])) as (picks & matched & Hrun & Hsl & Hf2 & Hcov).
      assert (top ∈ body d ∧ has_skill role top) as [Htop Hskill].
      { assert (top ∈ filter (has_skill role) (body d)) as Hin.
        { rewrite Hsub, <- (sort_rows_perm overall_desc), Hsort. by left. }
        apply list_elem_of_filter in Hin as [? ?]. by split. }
      exists (top.1 :: picks), (role :: matched). rewrite Hrun, <- app_assoc.
      split; [done|]. split; [by apply sublist_skip|]. split.
      * constructor; [|done]. by exists top.
      * intros r Hr' Hex. apply elem_of_cons in Hr' as [->|Hr'].
        -- exists top. split; [done|]. split; [done|]. by left.
        -- destruct (Hcov r Hr' Hex) as (lr & ? & ? & ?).
           exists lr. split; [done|]. split; [done|]. by right.
Qed.

Lemma picked_length d picks matched roles :
  Forall2 (picked_for d) picks matched → matched `sublist_of` roles →
  length picks ≤ length roles.
Proof.
  intros Hf2 Hsl. rewrite (Forall2_length _ _ _ Hf2). by apply sublist_length.
Qed.

Lemma picked_labels d picks matched :
  Forall2 (picked_for d) picks matched → picks ⊆ labels d.
Proof.
  intros Hf2 l Hl. apply list_elem_of_lookup in Hl as [i Hi].
  destruct (Forall2_lookup_l _ _ _ _ _ Hf2 Hi) as (role & _ & lr & Hlr & _ & <-).
  unfold labels. by apply list_elem_of_fmap_2.
Qed.

Lemma same_label_same_row (rows : list (Z * row)) lr lr' :
  NoDup rows.*1 → lr ∈ rows → lr' ∈ rows → lr.1 = lr'.1 → lr = lr'.
Proof.
  induction rows as [|x rows IH]; [by intros _ ?%elem_of_nil|].
  rewrite fmap_cons. intros [Hx Hnd]%NoDup_cons Hin Hin' He.
  apply elem_of_cons in Hin as [->|Hin]; apply elem_of_cons in Hin' as [->|Hin'].
  - done.
  - exfalso. apply Hx. rewrite He. by apply list_elem_of_fmap_2.
  - exfalso. apply Hx. rewrite <- He. by apply list_elem_of_fmap_2.
  - by apply IH.
Qed.

Lemma picked_NoDup d picks matched :
  NoDup (labels d) → NoDup matched → Forall2 (picked_for d) picks matched →
  NoDup picks.
Proof.
  intros Hnd Hm Hf2. induction Hf2 as [|l role picks matched Hp Hf2 IH]; [constructor|].
  apply NoDup_cons in Hm as [Hrole Hm]. apply NoDup_cons. split; [|by apply IH].
  intros Hl. apply Hrole. apply list_elem_of_lookup in Hl as [i Hi].
  destruct (Forall2_lookup_l _ _ _ _ _ Hf2 Hi) as (role' & Hi' & lr' & Hlr' & Hs' & He').
  destruct Hp as (lr & Hlr & Hs & He).
  assert (lr = lr') as -> by (eapply same_label_same_row; [done..|congruence]).
  apply eq_cell_true in Hs, Hs'. rewrite Hs in Hs'. injection Hs' as ->.
  by eapply list_elem_of_lookup_2.
Qed.

(** ** The team *)

Lemma df_drop_ok d ls :
  ls ⊆ labels d →
  df_drop d ls = Ok (Frame (columns d) (filter (λ lr, lr.1 ∉ ls) (body d))).
Proof. intros Hs. unfold df_drop. by rewrite decide_True. Qed.

Lemma rows_labelled_nonempty l rows : l ∈ rows.*1 → rows_labelled l rows ≠ [].
Proof.
  intros Hl Hnil. apply list_elem_of_fmap in Hl as (lr & -> & Hlr).
  assert (lr ∈ rows_labelled lr.1 rows) as Hin by (by apply list_elem_of_filter).
  rewrite Hnil in Hin. by apply elem_of_nil in Hin.
Qed.

Lemma df_loc_ok d ls :
  ls ⊆ labels d →
  df_loc d ls = Ok (Frame (columns d) (concat ((λ l, rows_labelled l (body d)) <$> ls))).
Proof.
  intros Hs. unfold df_loc.
  rewrite (mapM_ok _ (λ l, rows_labelled l (body d))); [done|].
  intros l Hl. fold (rows_labelled l (body d)).
  pose proof (rows_labelled_nonempty l (body d) (Hs l Hl)).
  by destruct (rows_labelled l (body d)).
Qed.

Lemma df_select_ok f cs :
  cs ⊆ columns f →
  df_select f cs
  = Ok (Frame cs ((λ lr, (lr.1, filter (λ kv, kv.1 ∈ cs) lr.2)) <$> body f)).
Proof. intros Hs. unfold df_select. by rewrite decide_True. Qed.

Lemma elem_of_dedupe x l : x ∈ dedupe l ↔ x ∈ l.
Proof. clear str_to_float re_compile_nocase.
  induction l as [|y l IH]; [done|]. simpl.
  rewrite !elem_of_cons, list_elem_of_filter, IH.
  destruct (decide (x = y)); tauto.
Qed.

Lemma team_columns_sub cols : "Overall" ∈ cols → team_columns cols ⊆ cols.
Proof.
  intros Ho c Hc. unfold team_columns in Hc.
  apply elem_of_dedupe, elem_of_app in Hc as [Hc|Hc].
  - by apply list_elem_of_filter in Hc as [? _].
  - by apply list_elem_of_singleton in Hc as ->.
Qed.

Lemma team_columns_keep cols c :
  c ∈ ["Personnel_ID"; "Name"; "Rank"; "Primary_Skill"; "Readiness_Level";
       "Medical_Category"; "Leadership_Potential"; "Performance_Rating"; "Overall"] →
  c ∈ cols → c ∈ team_columns cols.
Proof.
  intros Hc Hin. unfold team_columns. apply elem_of_dedupe, elem_of_app. left.
  by apply list_elem_of_filter.
Qed.

Lemma filter_not_self (l : list string) : filter (λ c, c ∉ l) l = [].
Proof.
  assert (∀ k, k ⊆ l → filter (λ c, c ∉ l) k = []) as H; [|by apply H].
  induction k as [|x k IH]; intros Hk; [done|].
  rewrite filter_cons, decide_False, IH; [done| |].
  - intros y Hy. apply Hk. by right.
  - intros Hx. apply Hx, Hk. by left.
Qed.

Lemma columns_candidates d required_roles restrict_to_roles :
  columns (candidates d required_roles restrict_to_roles) = columns d.
Proof. unfold candidates. by destruct (_ && _). Qed.

Lemma rankable_candidates d required_roles restrict_to_roles :
  rankable (body d) → rankable (body (candidates d required_roles restrict_to_roles)).
Proof.
  intros Hr. unfold candidates. destruct (_ && _); [|done]. simpl.
  by apply rankable_filter.
Qed.

Lemma run_pick_team d headcount required_roles restrict_to_roles picked_idx :
  "Overall" ∈ columns d → rankable (body d) →
  (truthy required_roles = true → "Primary_Skill" ∈ columns d) →
  let d1 := candidates d required_roles restrict_to_roles in
  (if truthy required_roles && negb restrict_to_roles
   then pick_roles d1 (default [] required_roles) []
   else Ok []) = Ok picked_idx →
  picked_idx ⊆ labels d1 →
  pick_team d headcount required_roles restrict_to_roles
  = Ok (Frame (team_columns (columns d))
          ((λ lr, (lr.1, filter (λ kv, kv.1 ∈ team_columns (columns d)) lr.2))
             <$> team_rows d1 headcount picked_idx)).
Proof.
  intros Hov Hr Hps d1 Hpick Hsub. unfold pick_team.
  assert ((if restrict_to_roles && truthy required_roles
           then s ← getitem d "Primary_Skill";
                Ok (df_mask d (isin (default [] required_roles) s))
           else Ok d) = Ok d1) as ->.
  { unfold d1, candidates. destruct (restrict_to_roles && truthy required_roles) eqn:Hb;
      [|done].
    apply andb_true_iff in Hb as [_ Hb]. rewrite getitem_ok by auto.
    cbn [mbind res_bind]. by rewrite df_mask_isin. }
  cbn [mbind res_bind]. fold d1. rewrite Hpick. cbn [mbind res_bind].
  assert ("Overall" ∈ columns d1) as Hov1 by (unfold d1; by rewrite columns_candidates).
  assert (rankable (body d1)) as Hr1 by by apply rankable_candidates.
  rewrite df_drop_ok by done. cbn [mbind res_bind]. fold overall_desc.
  rewrite sort_values_overall; [|done|by apply rankable_filter].
  cbn [mbind res_bind columns body]. rewrite df_loc_ok by done.
  cbn [mbind res_bind].
  rewrite sort_values_overall.
  - cbn [mbind res_bind]. cbv zeta.
    assert (∀ n rows, columns (df_head n (Frame
              (columns (pd_concat
                 (Frame (columns d1) (concat ((λ l, rows_labelled l (body d1)) <$> picked_idx)))
                 (df_head (Z.max 0 (headcount - Z.of_nat (length picked_idx)))
                    (Frame (columns d1)
                       (sort_rows overall_desc
                          (filter (λ lr, lr.1 ∉ picked_idx) (body d1))))))) rows))
            = columns d) as Hcols.
    { intros n rows. simpl. rewrite filter_not_self, app_nil_r.
      apply columns_candidates. }
    rewrite Hcols. rewrite df_select_ok.
    + done.
    + rewrite Hcols. by apply team_columns_sub.
  - simpl. apply elem_of_app. by left.
  - unfold pd_concat, rankable. cbn [body]. apply Forall_app. split.
    + by apply rankable_picks.
    + by apply rankable_head, rankable_sort, rankable_filter.
Qed.

Lemma elem_of_head n cols rows lr :
  lr ∈ body (df_head n (Frame cols rows)) → lr ∈ rows.
Proof.
  unfold df_head. cbn [body]. destruct (0 <=? n)%Z; intros H.
  - by eapply subseteq_take, H.
  - by eapply subseteq_take, H.
Qed.

Lemma team_rows_sub d headcount picked_idx lr :
  lr ∈ team_rows d headcount picked_idx → lr ∈ body d.
Proof.
  unfold team_rows. cbv zeta. intros H%elem_of_head.
  rewrite sort_rows_perm in H. unfold pd_concat in H. cbn [body] in H.
  apply elem_of_app in H as [H|H].
  - apply elem_of_concat in H as (l & Hl & H).
    apply list_elem_of_fmap in Hl as (x & -> & _).
    by apply list_elem_of_filter in H as [_ ?].
  - apply elem_of_head in H. rewrite sort_rows_perm in H.
    by apply list_elem_of_filter in H as [_ ?].
Qed.

(** ** Facts about the scored table *)

Lemma overall_in_scored f : "Overall" ∈ columns (scored f).
Proof. unfold scored, scored_columns. simpl. apply elem_of_add_column. by right. Qed.

Lemma column_in_scored f c : c ∈ columns f → c ∈ columns (scored f).
Proof.
  intros Hc. unfold scored, scored_columns. simpl.
  apply elem_of_add_column. left. apply in_cast_columns. by left.
Qed.

Lemma rankable_scored f : rankable (body (scored f)).
Proof.
  unfold rankable, scored, rowmap. simpl. apply Forall_fmap, Forall_forall.
  intros lr _. simpl. rewrite cell_at_insert. by destruct (overall_cell f lr).
Qed.

Lemma skill_scored f lr :
  cell_at "Primary_Skill" (<["Overall" := num_cell (overall_cell f lr)]> (cast_row f lr))
  = cell_at "Primary_Skill" lr.2.
Proof. unfold cast_row, derived_row. by rewrite !cell_at_insert_ne by done. Qed.

Lemma labels_scored f : labels (scored f) = labels f.
Proof.
  unfold labels, scored, rowmap. simpl. rewrite <- list_fmap_compose.
  by apply list_fmap_ext.
Qed.

Lemma elem_of_scored f lr' :
  lr' ∈ body (scored f) →
  ∃ lr, lr ∈ body f ∧ lr'.1 = lr.1
        ∧ cell_at "Primary_Skill" lr'.2 = cell_at "Primary_Skill" lr.2.
Proof.
  unfold scored, rowmap. simpl. intros (lr & -> & Hlr)%list_elem_of_fmap.
  exists lr. repeat split; [done|]. apply skill_scored.
Qed.

Lemma scored_of_elem f lr :
  lr ∈ body f →
  ∃ lr', lr' ∈ body (scored f) ∧ lr'.1 = lr.1
         ∧ cell_at "Primary_Skill" lr'.2 = cell_at "Primary_Skill" lr.2.
Proof.
  intros Hlr. eexists. split.
  - unfold scored, rowmap. simpl. by apply list_elem_of_fmap_2.
  - split; [done|]. apply skill_scored.
Qed.

Lemma run_select_best_team σ df f headcount required_roles restrict_to_roles :
  σ !! df = Some f → categorical_columns ⊆ columns f →
  select_best_team df headcount required_roles restrict_to_roles σ
  = (pick_team (scored f) headcount required_roles restrict_to_roles,
     σ ++ [derived f; scored f]).
Proof.
  intros Hf Hc. unfold select_best_team.
  erewrite bind_run by by apply run_score_table.
  erewrite bind_run; [done|]. apply run_read.
  rewrite lookup_app_r by lia. by replace (S (length σ) - length σ) with 1 by lia.
Qed.

Lemma restricted_row_lookup (cs : list string) (r : row) c :
  c ∈ cs → filter (λ kv, kv.1 ∈ cs) r !! c = r !! c.
Proof.
  intros Hc. destruct (r !! c) as [v|] eqn:Hr.
  - by apply map_lookup_filter_Some.
  - apply map_lookup_filter_None. left. done.
Qed.

Lemma cell_at_str c r k : cell_at c r = CStr k → r !! c = Some (CStr k).
Proof. unfold cell_at. destruct (r !! c); simpl; congruence. Qed.

(** C6.  With [restrict_to_roles] true and a non-empty list of required
    roles (["Pilot"] in particular), [select_best_team] returns, on every
    table that has the categorical columns and a Primary_Skill column,
    a team whose rows all have a primary skill of the list: the table is
    filtered before any ranking. *)
Theorem restricted_team_stays_within_roles
    (σ : store) (df : ref) (f : frame) (headcount : Z) (roles : list string) :
  σ !! df = Some f →
  categorical_columns ⊆ columns f →
  "Primary_Skill" ∈ columns f →
  roles ≠ [] →
  ∃ team : frame,
    select_best_team df headcount (Some roles) true σ
    = (Ok team, σ ++ [derived f; scored f])
    ∧ ∀ lr, lr ∈ body team →
        ∃ k, lr.2 !! "Primary_Skill" = Some (CStr k) ∧ k ∈ roles.
Proof.
  intros Hf Hc Hps Hne. rewrite (run_select_best_team σ df f) by done.
  assert (truthy (Some roles) = true) as Ht by by destruct roles.
  rewrite (run_pick_team _ _ _ _ []).
  - eexists. split; [done|]. cbn [body]. intros lr' (lr & -> & Hlr)%list_elem_of_fmap.
    apply team_rows_sub in Hlr. unfold candidates in Hlr. rewrite Ht in Hlr.
    cbn [andb body] in Hlr. apply list_elem_of_filter in Hlr as [Hin _].
    apply isin_cell_true in Hin as (k & Hk & Hkr). exists k. split; [|done].
    cbn [snd]. rewrite restricted_row_lookup; [by apply cell_at_str|].
    apply team_columns_keep; [by repeat constructor|by apply column_in_scored].
  - apply overall_in_scored.
  - apply rankable_scored.
  - intros _. by apply column_in_scored.
  - by rewrite Ht.
  - by intros ? ?%elem_of_nil.
Qed.

Lemma rows_labelled_length l (rows : list (Z * row)) :
  NoDup rows.*1 → length (rows_labelled l rows) ≤ 1.
Proof.
  unfold rows_labelled. induction rows as [|lr rows IH]; [simpl; lia|].
  rewrite fmap_cons. intros [Hnotin Hnd]%NoDup_cons. rewrite filter_cons.
  destruct (decide (lr.1 = l)) as [He|He]; [|by apply IH].
  assert (filter (λ lr0 : Z * row, lr0.1 = l) rows = []) as ->; [|simpl; lia].
  destruct (filter (λ lr0 : Z * row, lr0.1 = l) rows) as [|x xs] eqn:Hx; [done|].
  assert (x ∈ filter (λ lr0 : Z * row, lr0.1 = l) rows) as Hin by (rewrite Hx; by left).
  apply list_elem_of_filter in Hin as [Hl Hin]. exfalso. apply Hnotin.
  rewrite He, <- Hl. by apply list_elem_of_fmap_2.
Qed.

Lemma picks_length (rows : list (Z * row)) picked :
  NoDup rows.*1 →
  length (concat ((λ l, rows_labelled l rows) <$> picked)) ≤ length picked.
Proof.
  intros Hnd. induction picked as [|l picked IH]; [done|].
  csimpl. rewrite length_app. pose proof (rows_labelled_length l rows Hnd). lia.
Qed.

Lemma head_length n cols rows :
  (0 ≤ n)%Z → length (body (df_head n (Frame cols rows))) ≤ Z.to_nat n.
Proof.
  intros Hn. unfold df_head. cbn [body].
  rewrite (proj2 (Z.leb_le 0 n)) by done. rewrite length_take. lia.
Qed.

Lemma head_all n cols rows :
  (Z.of_nat (length rows) ≤ n)%Z → body (df_head n (Frame cols rows)) = rows.
Proof.
  intros Hn. unfold df_head. cbn [body].
  rewrite (proj2 (Z.leb_le 0 n)) by lia. apply take_ge. lia.
Qed.

Lemma team_rows_all d headcount picked_idx :
  NoDup (labels d) →
  (Z.of_nat (length picked_idx) ≤ headcount)%Z →
  team_rows d headcount picked_idx
  ≡ₚ concat ((λ l, rows_labelled l (body d)) <$> picked_idx)
     ++ body (df_head (Z.max 0 (headcount - Z.of_nat (length picked_idx)))
                (Frame (columns d)
                   (sort_rows overall_desc
                      (filter (λ lr, lr.1 ∉ picked_idx) (body d))))).
Proof.
  intros Hnd Hk. unfold team_rows. cbv zeta. rewrite head_all.
  - rewrite sort_rows_perm. by unfold pd_concat.
  - rewrite length_sort_rows. unfold pd_concat. cbn [body]. rewrite length_app.
    pose proof (picks_length (body d) picked_idx Hnd).
    pose proof (head_length (Z.max 0 (headcount - Z.of_nat (length picked_idx)))
                  (columns d)
                  (sort_rows overall_desc (filter (λ lr, lr.1 ∉ picked_idx) (body d)))).
    lia.
Qed.

(** C2.  Without restriction, when the headcount is at least the number
    of required roles, the team [select_best_team] returns has a row for
    every required role that has a candidate in the table (roles without
    a candidate are skipped): the picks and the fill together never
    exceed the headcount, so the final cut drops no pick.  The table has
    the categorical columns, a Primary_Skill column and distinct row
    labels. *)
Theorem required_roles_are_covered
    (σ : store) (df : ref) (f : frame) (headcount : Z) (roles : list string) :
  σ !! df = Some f →
  categorical_columns ⊆ columns f →
  "Primary_Skill" ∈ columns f →
  NoDup (labels f) →
  (Z.of_nat (length roles) ≤ headcount)%Z →
  ∃ team : frame,
    select_best_team df headcount (Some roles) false σ
    = (Ok team, σ ++ [derived f; scored f])
    ∧ ∀ role, role ∈ roles →
        (∃ lr, lr ∈ body f ∧ cell_at "Primary_Skill" lr.2 = CStr role) →
        ∃ lr', lr' ∈ body team ∧ lr'.2 !! "Primary_Skill" = Some (CStr role).
Proof.
  intros Hf Hc Hps Hnd Hh. rewrite (run_select_best_team σ df f) by done.
  destruct (pick_roles_spec (scored f) roles [])
    as (picks & matched & Hrun & Hsl & Hf2 & Hcov);
    [by apply column_in_scored|apply overall_in_scored|apply rankable_scored|].
  rewrite app_nil_l in Hrun.
  pose proof (picked_length _ _ _ _ Hf2 Hsl) as Hlen.
  pose proof (picked_labels _ _ _ Hf2) as Hsub.
  assert (candidates (scored f) (Some roles) false = scored f) as Hcand by done.
  rewrite (run_pick_team _ _ _ _ (if truthy (Some roles) then picks else [])).
  - eexists. split; [done|]. cbn [body]. rewrite Hcand.
    intros role Hrole (lr & Hlr & Hskill).
    assert (truthy (Some roles) = true) as Ht by (destruct roles; [by inversion Hrole|done]).
    rewrite Ht.
    destruct (scored_of_elem f lr Hlr) as (ls & Hls & _ & Hsk).
    destruct (Hcov role Hrole) as (lp & Hlp & Hskp & Hpicked).
    { exists ls. split; [done|]. apply eq_cell_true. by rewrite Hsk. }
    exists (lp.1, filter (λ kv, kv.1 ∈ team_columns (columns (scored f))) lp.2).
    split.
    + apply list_elem_of_fmap. exists lp. split; [done|].
      rewrite team_rows_all; [| by rewrite labels_scored | lia].
      apply elem_of_app. left. apply elem_of_concat.
      exists (rows_labelled lp.1 (body (scored f))). split.
      * by apply (list_elem_of_fmap_2 (λ l, rows_labelled l (body (scored f)))).
      * by apply list_elem_of_filter.
    + cbn [snd]. rewrite restricted_row_lookup.
      * apply cell_at_str. by apply eq_cell_true.
      * apply team_columns_keep; [by repeat constructor|by apply column_in_scored].
  - apply overall_in_scored.
  - apply rankable_scored.
  - intros _. by apply column_in_scored.
  - rewrite Hcand. destruct (truthy (Some roles)) eqn:Ht; [done|done].
  - rewrite Hcand. by destruct (truthy (Some roles)); [|intros ? ?%elem_of_nil].
Qed.

(** ** The attrition report *)

Lemma sort_values_ok f by_ :
  Forall (λ k, k.1 ∈ columns f
               ∧ sortable ((λ lr, cell_at k.1 lr.2) <$> body f) = true) by_ →
  sort_values f by_ = Ok (Frame (columns f) (sort_rows by_ (body f))).
Proof.
  intros H. unfold sort_values.
  rewrite (mapM_ok _ (λ _, ())); [done|].
  intros k Hk. rewrite Forall_forall in H. destruct (H k Hk) as [Hc Hs].
  rewrite getitem_ok by done. cbn [mbind res_bind]. by rewrite Hs.
Qed.

Lemma sortable_no_str (s : list cell) :
  Forall (λ c, is_str c = false) s → sortable s = true.
Proof.
  intros H. unfold sortable. apply orb_true_iff. left.
  apply forallb_forall. intros c Hc%list_elem_of_In.
  rewrite Forall_forall in H. by rewrite (H c Hc).
Qed.

Lemma sortable_no_num (s : list cell) :
  Forall (λ c, is_num c = false) s → sortable s = true.
Proof.
  intros H. unfold sortable. apply orb_true_iff. right.
  apply forallb_forall. intros c Hc%list_elem_of_In.
  rewrite Forall_forall in H. by rewrite (H c Hc).
Qed.

Lemma cmp_scalar_fillna {A} op k v (G : A → cell) (l : list A) :
  is_str v = false →
  Forall (λ x, is_str (G x) = false) l →
  cmp_scalar op k (fillna v (G <$> l)) = Ok ((λ x, truth op k v (G x)) <$> l).
Proof.
  intros Hv H. unfold cmp_scalar, fillna. rewrite <- list_fmap_compose, mapM_fmap.
  apply mapM_ok. intros x Hx. rewrite Forall_forall in H. specialize (H x Hx).
  simpl. destruct (G x); [|done|done]. by destruct v.
Qed.

Lemma cmp_scalar_plain {A} op k (G : A → cell) (l : list A) :
  Forall (λ x, is_str (G x) = false) l →
  cmp_scalar op k (G <$> l) = Ok ((λ x, truth op k CNa (G x)) <$> l).
Proof.
  intros H. unfold cmp_scalar. rewrite mapM_fmap.
  apply mapM_ok. intros x Hx. rewrite Forall_forall in H. specialize (H x Hx).
  simpl. by destruct (G x).
Qed.

Lemma heuristic_label_fmap {A} (a b c : A → bool) (l : list A) :
  heuristic_label
    (add_int (add_int (astype_int (a <$> l)) (astype_int (b <$> l))) (astype_int (c <$> l)))
  = (λ x, let n := ((if a x then 1 else 0) + (if b x then 1 else 0)
                    + (if c x then 1 else 0))%Z in
          if (2 <=? n)%Z then CStr "High"
          else if (n =? 1)%Z then CStr "Medium" else CStr "Low") <$> l.
Proof.
  unfold heuristic_label, add_int, astype_int.
  rewrite <- !list_fmap_compose, !zip_with_fmap_same, <- list_fmap_compose.
  done.
Qed.

Lemma derived_row_other has c r :
  c ∉ derived_names → cell_at c (derived_row has r) = cell_at c r.
Proof.
  intros Hc. unfold derived_names in Hc. rewrite !not_elem_of_cons in Hc.
  destruct Hc as (?&?&?&?&_). unfold derived_row.
  by rewrite !cell_at_insert_ne by done.
Qed.

Lemma in_derived_columns cols c : c ∈ derived_columns cols ↔ c ∈ cols ∨ c ∈ derived_names.
Proof. clear str_to_float re_compile_nocase.
  unfold derived_columns, derived_names. simpl.
  rewrite !elem_of_add_column, !elem_of_cons, elem_of_nil. tauto.
Qed.

(** A name that is none of a few listed names. *)
Ltac not_in_names :=
  unfold derived_names, cast_names;
  rewrite !not_elem_of_cons; repeat split; first [done | apply not_elem_of_nil].

Lemma numeric_column_derived f c :
  numeric_column f c → c ∉ derived_names →
  Forall (λ lr, is_str (cell_at c
            (derived_row (bool_decide ("Attrition_Risk" ∈ columns f)) lr.2)) = false)
         (body f).
Proof.
  intros [_ H] Hc. eapply Forall_impl; [exact H|]. intros lr Hlr. simpl.
  by rewrite derived_row_other.
Qed.

Lemma Forall_series_rowmap (P : cell → Prop) cols F f c :
  Forall (λ lr, P (cell_at c (F lr))) (body f) →
  Forall P ((λ lr, cell_at c lr.2) <$> body (rowmap cols F f)).
Proof.
  intros H. unfold rowmap. cbn [body]. rewrite <- list_fmap_compose.
  by apply Forall_fmap.
Qed.

Lemma run_attrition_ranked σ df f top_n :
  σ !! df = Some f → attrition_ready f → "Attrition_Risk" ∈ columns f →
  ∃ t, who_is_going_to_leave df top_n σ = (Ok t, σ ++ [derived f]).
Proof.
  intros Hf (Hc & Hid & Hyos & _) Hrisk. unfold who_is_going_to_leave.
  erewrite bind_run by by apply run_add_derived_columns.
  unfold derived. run_step.
  rewrite bool_decide_eq_true_2 by (apply in_derived_columns; by left).
  erewrite bind_run by apply run_read, lookup_last.
  erewrite bind_run.
  2:{ unfold lift. rewrite sort_values_ok; [reflexivity|].
      repeat constructor; cbn [fst].
      - apply in_derived_columns. right. by repeat constructor.
      - apply sortable_no_str, Forall_series_rowmap, Forall_forall.
        intros lr _. unfold derived_row. rewrite cell_at_insert.
        rewrite bool_decide_eq_true_2 by done. by rewrite mapped_attrition.
      - apply in_derived_columns. left. apply Hyos.
      - apply sortable_no_str, Forall_series_rowmap.
        apply numeric_column_derived; [done|not_in_names]. }
  erewrite bind_run.
  2:{ unfold lift. rewrite df_select_ok; [reflexivity|]. cbn [columns].
      intros c Hcol. apply in_derived_columns. left.
      rewrite !elem_of_cons in Hcol.
      destruct Hcol as [->|[->|[->|[->|[->|[->|Hcol]]]]]];
        [..|by apply elem_of_nil in Hcol];
        first [apply Hid; by repeat constructor | apply Hyos | done]. }
  by eexists.
Qed.

Lemma run_attrition_heuristic σ df f top_n :
  σ !! df = Some f → attrition_ready f → "Attrition_Risk" ∉ columns f →
  ∃ t d, who_is_going_to_leave df top_n σ = (Ok t, σ ++ [d]).
Proof.
  intros Hf (Hc & Hid & Hyos & Hheur) Hrisk.
  destruct Hheur as [?|[Hperf Htrain]]; [done|].
  unfold who_is_going_to_leave.
  erewrite bind_run by by apply run_add_derived_columns.
  unfold derived. run_step.
  rewrite bool_decide_eq_false_2
    by (rewrite in_derived_columns; intros [?|H]; [done|]; revert H;
        change ("Attrition_Risk" ∉ derived_names); not_in_names).
  erewrite bind_run
    by (apply run_col_rowmap, in_derived_columns; left; apply Hyos).
  erewrite bind_run
    by (unfold lift; rewrite cmp_scalar_fillna;
        [reflexivity|done|apply numeric_column_derived; [done|not_in_names]]).
  erewrite bind_run
    by (apply run_col_rowmap, in_derived_columns; left; apply Hperf).
  erewrite bind_run
    by (unfold lift; rewrite cmp_scalar_fillna;
        [reflexivity|done|apply numeric_column_derived; [done|not_in_names]]).
  erewrite bind_run
    by (apply run_col_rowmap, in_derived_columns; left; apply Htrain).
  erewrite bind_run
    by (unfold lift; rewrite cmp_scalar_fillna;
        [reflexivity|done|apply numeric_column_derived; [done|not_in_names]]).
  cbv zeta. rewrite heuristic_label_fmap. run_step.
  erewrite bind_run by apply run_read, lookup_last.
  erewrite bind_run.
  2:{ unfold lift. rewrite sort_values_ok; [reflexivity|].
      repeat constructor; cbn [fst].
      - apply elem_of_add_column. by right.
      - apply sortable_no_num, Forall_series_rowmap, Forall_forall.
        intros lr _. rewrite cell_at_insert. simpl.
        repeat (destruct (_ <=? _)%Z || destruct (_ =? _)%Z); done.
      - apply elem_of_add_column. left. apply in_derived_columns. left. apply Hyos.
      - apply sortable_no_str, Forall_series_rowmap.
        eapply Forall_impl;
          [apply (numeric_column_derived f "Years_of_Service"); [done|not_in_names]|].
        intros lr Hlr. simpl in *. by rewrite cell_at_insert_ne by done. }
  erewrite bind_run.
  2:{ unfold lift. rewrite df_select_ok; [reflexivity|]. cbn [columns].
      intros c Hcol. apply elem_of_add_column.
      rewrite !elem_of_cons in Hcol.
      destruct Hcol as [->|[->|[->|[->|[->|[->|Hcol]]]]]];
        [..|by apply elem_of_nil in Hcol];
        first [by right
              | left; apply in_derived_columns; left;
                first [apply Hid; by repeat constructor | apply Hyos]]. }
  by do 2 eexists.
Qed.

Lemma who_is_going_to_leave_returns σ df f top_n :
  σ !! df = Some f → attrition_ready f →
  ∃ t σ', who_is_going_to_leave df top_n σ = (Ok t, σ').
Proof.
  intros Hf Hready. destruct (decide ("Attrition_Risk" ∈ columns f)) as [Hr|Hr].
  - destruct (run_attrition_ranked σ df f top_n) as (t & Ht); [done..|]. by do 2 eexists.
  - destruct (run_attrition_heuristic σ df f top_n) as (t & d & Ht); [done..|].
    by do 2 eexists.
Qed.

(** ** The what-if router *)

Lemma what_if_default df text :
  no_keyword (lower text) →
  what_if_simulation df text
  = (t ← who_is_going_to_leave df 50;
     mret (Result text "show_attrition" [] (to_records t))).
Proof.
  intros (H1 & H2 & H3 & H4 & H5 & H6 & H7 & H8).
  unfold what_if_simulation. cbv zeta.
  by rewrite H1, H2, H3, H4, H5, H6, H7, H8.
Qed.

(** X23.  On every table the attrition report can rank, a query whose
    lower-cased text matches none of the router's keyword sets raises
    nothing: [what_if_simulation] takes the default branch and returns
    the action "show_attrition" with the rows of the attrition report
    (top 50) as its data. *)
Theorem unrouted_query_shows_attrition
    (σ : store) (df : ref) (f : frame) (text : string) :
  σ !! df = Some f →
  attrition_ready f →
  no_keyword (lower text) →
  ∃ (t : frame) (σ' : store),
    who_is_going_to_leave df 50 σ = (Ok t, σ')
    ∧ what_if_simulation df text σ
      = (Ok (Result text "show_attrition" [] (to_records t)), σ').
Proof.
  intros Hf Hready Hno.
  destruct (who_is_going_to_leave_returns σ df f 50 Hf Hready) as (t & σ' & Ht).
  exists t, σ'. split; [done|].
  rewrite what_if_default by done. by erewrite bind_run by done.
Qed.

Lemma bind_ok_inv {A B} (m : M A) (k : A → M B) σ r σ' :
  (m ≫= k) σ = (Ok r, σ') → ∃ a σ1, m σ = (Ok a, σ1) ∧ k a σ1 = (Ok r, σ').
Proof.
  unfold mbind, M_bind. destruct (m σ) as [[e|a] σ1]; [done|]. by exists a, σ1.
Qed.

Lemma df_head_length n f : (0 ≤ n)%Z → length (body (df_head n f)) ≤ Z.to_nat n.
Proof. destruct f as [cols rows]. apply head_length. Qed.

Lemma to_records_length f : length (to_records f) = length (body f).
Proof. unfold to_records. by rewrite length_fmap. Qed.

Lemma what_if_leadership df text :
  leadership_query (lower text) →
  what_if_simulation df text
  = (dfv ← read df;
     s ← lift (getitem dfv "Primary_Skill");
     skill ← lift (first_skill (unique (dropna s)) (lower text));
     tab ← leadership_list df;
     tab ← lift (if truthy_str skill then
                   ps ← getitem tab "Primary_Skill";
                   Ok (df_mask tab (eq_lower (default EmptyString skill) ps))
                 else Ok tab);
     mret (Result text "show_leadership" [] (to_records (df_head 50 tab)))).
Proof.
  intros (H1 & H2 & H3 & H4 & H5 & H6 & H7).
  unfold what_if_simulation. cbv zeta.
  by rewrite H1, H2, H3, H4, H5, H6, H7.
Qed.

Lemma elem_of_unique c s : c ∈ unique s → c ∈ s.
Proof.
  revert c. induction s as [|x s IH]; intros c; [done|]. simpl.
  rewrite !elem_of_cons, list_elem_of_filter.
  intros [->|[_ H]]; [by left|right; by apply IH].
Qed.

Lemma first_skill_ok skills text_low :
  Forall (λ c, is_str c = true) skills → ∃ o, first_skill skills text_low = Ok o.
Proof.
  induction skills as [|c skills IH]; intros H; [by eexists|].
  apply Forall_cons in H as [Hc H]. destruct c as [| |k]; try done. simpl.
  destruct (py_in (lower k) text_low); [by eexists|by apply IH].
Qed.

Lemma text_column_skills f c :
  text_column f c →
  Forall (λ x, is_str x = true) (unique (dropna ((λ lr, cell_at c lr.2) <$> body f))).
Proof.
  intros [_ H]. apply Forall_forall. intros x Hx%elem_of_unique.
  unfold dropna in Hx. apply list_elem_of_filter in Hx as [Hna Hx].
  apply list_elem_of_fmap in Hx as (lr & -> & Hlr).
  rewrite Forall_forall in H. specialize (H lr Hlr). simpl in H.
  by destruct (cell_at c lr.2).
Qed.

Lemma run_leadership_list σ df f :
  σ !! df = Some f → leadership_ready f →
  ∃ tab, leadership_list df σ = (Ok tab, σ ++ [derived f])
         ∧ "Primary_Skill" ∈ columns tab.
Proof.
  intros Hf (Hc & [Hps _] & Hpr & Hsort). unfold leadership_list.
  erewrite bind_run by by apply run_add_derived_columns.
  erewrite bind_run by apply run_read, lookup_last.
  cbv zeta. erewrite bind_run.
  2:{ unfold lift. rewrite sort_values_ok; [reflexivity|].
      repeat constructor; cbn [fst].
      - apply in_derived_columns. right. by repeat constructor.
      - apply sortable_no_str. unfold derived. apply Forall_series_rowmap, Forall_forall.
        intros lr _. unfold derived_row.
        by rewrite !cell_at_insert_ne, cell_at_insert, mapped_leadership by done.
      - apply in_derived_columns. by left.
      - unfold derived, rowmap. cbn [body]. rewrite <- list_fmap_compose.
        erewrite list_fmap_ext; [exact Hsort|]. intros _ lr _. simpl.
        apply derived_row_other. not_in_names. }
  unfold lift. rewrite df_select_ok.
  - eexists. split; [done|]. cbn [columns]. apply list_elem_of_filter.
    split; [|by repeat constructor]. apply in_derived_columns. by left.
  - cbn [columns]. intros c Hcol. by apply list_elem_of_filter in Hcol as [? _].
Qed.

(** C10.  A query routed to the leadership branch (it names "leaders" or
    "leadership" and no keyword of higher priority) gets at most 50 rows
    of data, whatever the table: [what_if_simulation] cuts the leadership
    ranking with [head(50)], which [leadership_list] itself does not.
    On a table the leadership ranking can sort the call does return. *)
Theorem leadership_branch_returns_at_most_50
    (σ : store) (df : ref) (f : frame) (text : string) :
  σ !! df = Some f →
  "Primary_Skill" ∈ columns f →
  leadership_query (lower text) →
  (∀ r σ', what_if_simulation df text σ = (Ok r, σ') →
           action r = "show_leadership" ∧ length (data r) ≤ 50)
  ∧ (leadership_ready f →
     ∃ r σ', what_if_simulation df text σ = (Ok r, σ')).
Proof.
  intros Hf Hps Hq. rewrite what_if_leadership by done. split.
  - intros r σ' Hrun.
    apply bind_ok_inv in Hrun as (dfv & σ1 & _ & Hrun).
    apply bind_ok_inv in Hrun as (s & σ2 & _ & Hrun).
    apply bind_ok_inv in Hrun as (skill & σ3 & _ & Hrun).
    apply bind_ok_inv in Hrun as (tab & σ4 & _ & Hrun).
    apply bind_ok_inv in Hrun as (tab' & σ5 & _ & Hrun).
    injection Hrun as <- _. split; [done|]. cbn [data].
    rewrite to_records_length.
    by apply (df_head_length 50).
  - intros Hready. pose proof Hready as (Hc & Htext & _).
    erewrite bind_run by by apply run_read.
    erewrite bind_run by (unfold lift; by rewrite getitem_ok).
    destruct (first_skill_ok _ (lower text) (text_column_skills f _ Htext)) as (o & Ho).
    erewrite bind_run by (unfold lift; by rewrite Ho).
    destruct (run_leadership_list σ df f Hf Hready) as (tab & Htab & Hcol).
    erewrite bind_run by done.
    destruct (truthy_str o).
    + erewrite bind_run by (unfold lift; by rewrite getitem_ok). by do 2 eexists.
    + erewrite bind_run by done. by do 2 eexists.
Qed.

(** ** The retirement scenario *)

Lemma filter_fmap {A B} (P : B → Prop) `{!∀ x, Decision (P x)} (g : A → B) (l : list A) :
  filter P (g <$> l) = g <$> filter (λ x, P (g x)) l.
Proof.
  induction l as [|x l IH]; [done|]. rewrite fmap_cons, !filter_cons, IH.
  by destruct (decide (P (g x))).
Qed.





(** ** The size of the team *)

Lemma rows_labelled_one (rows : list (Z * row)) l :
  NoDup rows.*1 → l ∈ rows.*1 → length (rows_labelled l rows) = 1.
Proof.
  intros Hnd Hl. pose proof (rows_labelled_length l rows Hnd).
  pose proof (rows_labelled_nonempty l rows Hl).
  destruct (rows_labelled l rows); [done|simpl in *; lia].
Qed.

Lemma picks_count (rows : list (Z * row)) picked :
  NoDup rows.*1 → picked ⊆ rows.*1 →
  length (concat ((λ l, rows_labelled l rows) <$> picked)) = length picked.
Proof.
  intros Hnd. induction picked as [|l picked IH]; intros Hsub; [done|].
  csimpl. rewrite length_app, IH by (intros x Hx; apply Hsub; by right).
  rewrite rows_labelled_one; [done|done|]. apply Hsub. by left.
Qed.

Lemma NoDup_filter_labels (P : Z * row → Prop) `{!∀ x, Decision (P x)}
    (rows : list (Z * row)) :
  NoDup rows.*1 → NoDup (filter P rows).*1.
Proof.
  induction rows as [|lr rows IH]; [done|]. rewrite fmap_cons.
  intros [Hlr Hnd]%NoDup_cons. rewrite filter_cons.
  destruct (decide (P lr)); [|by apply IH].
  rewrite fmap_cons. apply NoDup_cons. split; [|by apply IH].
  intros (x & Hx & Hin)%list_elem_of_fmap. apply Hlr.
  apply list_elem_of_filter in Hin as [_ Hin]. rewrite Hx.
  by apply list_elem_of_fmap_2.
Qed.

Lemma others_count (rows : list (Z * row)) picked :
  NoDup rows.*1 → NoDup picked → picked ⊆ rows.*1 →
  length (filter (λ lr, lr.1 ∉ picked) rows) + length picked = length rows.
Proof.
  intros Hnd Hp Hsub.
  rewrite <- (filter_app_complement (λ lr : Z * row, lr.1 ∉ picked) rows) at 2.
  rewrite length_app. f_equal.
  rewrite <- (length_fmap fst (filter _ rows)). apply Permutation_length.
  symmetry. apply NoDup_Permutation; [by apply NoDup_filter_labels|done|].
  intros l. split.
  - intros (lr & -> & Hlr)%list_elem_of_fmap.
    apply list_elem_of_filter in Hlr as [Hin _].
    by destruct (decide (lr.1 ∈ picked)).
  - intros Hl. destruct (proj1 (list_elem_of_fmap _ _ _) (Hsub l Hl)) as (lr & -> & Hlr).
    apply list_elem_of_fmap_2, list_elem_of_filter. split; [|done]. by intros Hn.
Qed.

Lemma head_length_exact n cols rows :
  (0 ≤ n)%Z → length (body (df_head n (Frame cols rows))) = Z.to_nat n `min` length rows.
Proof.
  intros Hn. unfold df_head. cbn [body].
  rewrite (proj2 (Z.leb_le 0 n)) by done. apply length_take.
Qed.

Lemma team_rows_length d headcount picked_idx :
  NoDup (labels d) → NoDup picked_idx → picked_idx ⊆ labels d → (0 < headcount)%Z →
  length (team_rows d headcount picked_idx) = Z.to_nat headcount `min` length (body d).
Proof.
  intros Hnd Hp Hsub Hh. unfold team_rows. cbv zeta.
  rewrite head_length_exact, length_sort_rows by lia.
  unfold pd_concat. cbn [body]. rewrite length_app, picks_count by done.
  rewrite head_length_exact, length_sort_rows by lia.
  pose proof (others_count (body d) picked_idx Hnd Hp Hsub). lia.
Qed.

Lemma labels_candidates d required_roles restrict_to_roles :
  NoDup (labels d) → NoDup (labels (candidates d required_roles restrict_to_roles)).
Proof.
  intros Hnd. unfold candidates. destruct (_ && _); [|done].
  unfold labels. cbn [body]. by apply NoDup_filter_labels.
Qed.

Lemma candidates_available f required_roles restrict_to_roles :
  length (body (candidates (scored f) required_roles restrict_to_roles))
  = length (available_rows f required_roles restrict_to_roles).
Proof.
  unfold candidates, available_rows. destruct (_ && _).
  - unfold scored, rowmap. cbn [body]. rewrite filter_fmap, length_fmap. f_equal.
    apply filter_ext_in. intros lr _. unfold skill_in. cbn [snd].
    by rewrite skill_scored.
  - unfold scored, rowmap. cbn [body]. by rewrite length_fmap.
Qed.

(** X10.  The row count that C1 states holds whenever no role is named
    twice: on a table with the categorical columns (and a Primary_Skill
    column when roles are given) and distinct row labels, a positive
    headcount yields exactly min(headcount, available rows) rows. *)
Theorem team_size_with_distinct_roles
    (σ : store) (df : ref) (f : frame) (headcount : Z)
    (required_roles : option (list string)) (restrict_to_roles : bool) :
  σ !! df = Some f →
  categorical_columns ⊆ columns f →
  (truthy required_roles = true → "Primary_Skill" ∈ columns f) →
  NoDup (labels f) →
  NoDup (default [] required_roles) →
  (0 < headcount)%Z →
  ∃ team : frame,
    select_best_team df headcount required_roles restrict_to_roles σ
    = (Ok team, σ ++ [derived f; scored f])
    ∧ length (body team)
      = Z.to_nat headcount
        `min` length (available_rows f required_roles restrict_to_roles).
Proof.
  intros Hf Hc Hps Hnd Hroles Hh. rewrite (run_select_best_team σ df f) by done.
  set (d1 := candidates (scored f) required_roles restrict_to_roles).
  assert (NoDup (labels d1)) as Hnd1
    by (apply labels_candidates; by rewrite labels_scored).
  assert (∃ picked,
            (if truthy required_roles && negb restrict_to_roles
             then pick_roles d1 (default [] required_roles) []
             else Ok []) = Ok picked
            ∧ NoDup picked ∧ picked ⊆ labels d1) as (picked & Hpick & Hpnd & Hsub).
  { destruct (truthy required_roles && negb restrict_to_roles) eqn:Hb.
    - apply andb_true_iff in Hb as [Ht Hr].
      destruct (pick_roles_spec d1 (default [] required_roles) [])
        as (picks & matched & Hrun & Hsl & Hf2 & _).
      + unfold d1. rewrite columns_candidates. apply column_in_scored. by apply Hps.
      + unfold d1. rewrite columns_candidates. apply overall_in_scored.
      + apply rankable_candidates, rankable_scored.
      + exists picks. split; [done|]. split.
        * eapply picked_NoDup; [done| |done]. by eapply sublist_NoDup.
        * by eapply picked_labels.
    - exists []. split; [done|]. split; [constructor|by intros ? ?%elem_of_nil]. }
  rewrite (run_pick_team _ _ _ _ picked);
    [|apply overall_in_scored|apply rankable_scored
     |intros Ht; apply column_in_scored; by apply Hps|done|done].
  eexists. split; [done|]. cbn [body]. rewrite length_fmap.
  fold d1. rewrite team_rows_length by done. unfold d1.
  by rewrite candidates_available.
Qed.

(** The scores of C4 are the ones the caller sees: without required
    roles, every row of the returned team carries the Overall score the
    formula gives for the row of the table with the same label. *)
Corollary returned_rows_carry_the_formula
    (σ : store) (df : ref) (f : frame) (headcount : Z) (restrict_to_roles : bool) :
  σ !! df = Some f →
  categorical_columns ⊆ columns f →
  ∃ team : frame,
    select_best_team df headcount None restrict_to_roles σ
    = (Ok team, σ ++ [derived f; scored f])
    ∧ ∀ lr', lr' ∈ body team → ∃ lr, lr ∈ body f ∧ scored_from f lr lr'.
Proof.
  intros Hf Hc. rewrite (run_select_best_team σ df f) by done.
  rewrite (run_pick_team _ _ _ _ []);
    [|apply overall_in_scored|apply rankable_scored|done
     |by rewrite andb_false_l|by intros ? ?%elem_of_nil].
  eexists. split; [done|]. cbn [body].
  intros lr' (ls & -> & Hls)%list_elem_of_fmap.
  apply team_rows_sub in Hls. unfold candidates in Hls.
  rewrite andb_false_r in Hls. unfold scored, rowmap in Hls. cbn [body] in Hls.
  apply list_elem_of_fmap in Hls as (lr & -> & Hlr).
  exists lr. split; [done|]. split; [done|]. cbn [snd].
  destruct (overall_cell_formula f lr Hlr) as (q & Hq & Hqe).
  exists q. split; [|done].
  rewrite restricted_row_lookup
    by (apply team_columns_keep; [by repeat constructor|apply overall_in_scored]).
  by rewrite lookup_insert_eq, Hq.
Qed.

(** ** Sorting: the order [sort_rows] establishes *)

Lemma cell_compare_antisym a b : cell_compare b a = CompOpp (cell_compare a b).
Proof.
  destruct a as [|p|s], b as [|q|t]; simpl; try done.
  - symmetry. apply Qcompare_antisym.
  - apply String.compare_antisym.
Qed.

Lemma key_compare_antisym asc a b : key_compare asc b a = CompOpp (key_compare asc a b).
Proof.
  pose proof (cell_compare_antisym a b) as H.
  destruct a as [|p|s], b as [|q|t], asc; simpl in *; try done; by rewrite H.
Qed.

Lemma keys_compare_antisym by_ r1 r2 :
  keys_compare by_ r2 r1 = CompOpp (keys_compare by_ r1 r2).
Proof.
  induction by_ as [|[c asc] by_ IH]; [done|]. simpl.
  rewrite (key_compare_antisym asc (cell_at c r1) (cell_at c r2)).
  by destruct (key_compare asc (cell_at c r1) (cell_at c r2)).
Qed.

Lemma row_le_total by_ x y : ¬ row_le by_ x y → row_le by_ y x.
Proof.
  unfold row_le. rewrite (keys_compare_antisym by_ x.2 y.2).
  destruct (keys_compare by_ x.2 y.2); simpl; try done. intros H. by destruct H.
Qed.

Lemma insert_row_hd by_ x y l :
  row_le by_ y x → HdRel (row_le by_) y l → HdRel (row_le by_) y (insert_row by_ x l).
Proof.
  intros Hyx Hl. destruct l as [|z l]; simpl; [by constructor|].
  destruct (keys_compare by_ x.2 z.2); constructor; try done. by inversion Hl.
Qed.

Lemma insert_row_sorted by_ x l :
  Sorted (row_le by_) l → Sorted (row_le by_) (insert_row by_ x l).
Proof.
  induction 1 as [|y l Hs IH Hhd]; simpl; [by repeat constructor|].
  destruct (keys_compare by_ x.2 y.2) eqn:Hc.
  - constructor; [by constructor|]. constructor. unfold row_le. by rewrite Hc.
  - constructor; [by constructor|]. constructor. unfold row_le. by rewrite Hc.
  - constructor; [done|]. apply insert_row_hd; [|done].
    apply row_le_total. unfold row_le. by rewrite Hc; intros H; apply H.
Qed.

Lemma sort_rows_sorted by_ l : Sorted (row_le by_) (sort_rows by_ l).
Proof.
  unfold sort_rows. induction l as [|x l IH]; simpl; [constructor|].
  by apply insert_row_sorted.
Qed.

Lemma sort_rows_of_sorted by_ l : Sorted (row_le by_) l → sort_rows by_ l = l.
Proof.
  unfold sort_rows. induction 1 as [|x l Hs IH Hhd]; [done|]. simpl. rewrite IH.
  destruct Hhd as [|y l Hxy]; [done|]. simpl. unfold row_le in Hxy.
  by destruct (keys_compare by_ x.2 y.2).
Qed.

Lemma Sorted_strongly {A} (R : A → A → Prop) (P : A → Prop) l :
  (∀ x y z, P x → P y → P z → R x y → R y z → R x z) →
  Forall P l → Sorted R l → StronglySorted R l.
Proof.
  intros Htr HP Hs. induction Hs as [|x l Hs IH Hhd]; [constructor|].
  apply Forall_cons in HP as [Hx HP]. specialize (IH HP).
  constructor; [done|]. destruct Hhd as [|y l Hxy]; [constructor|].
  apply Forall_cons in HP as [Hy HP]. constructor; [done|].
  apply StronglySorted_inv in IH as [_ Hall].
  rewrite Forall_forall in Hall, HP. apply Forall_forall. intros z Hz.
  eapply (Htr x y z); eauto.
Qed.

Lemma Qcompare_eq_l p q r : (p ?= q)%Q = Eq → (p ?= r)%Q = (q ?= r)%Q.
Proof. intros H%Qeq_alt. by rewrite H. Qed.

Lemma Qcompare_eq_r p q r : (p ?= q)%Q = Eq → (r ?= p)%Q = (r ?= q)%Q.
Proof. intros H%Qeq_alt. by rewrite H. Qed.

Lemma Qcompare_lt_trans p q r : (p ?= q)%Q = Lt → (q ?= r)%Q ≠ Gt → (p ?= r)%Q = Lt.
Proof.
  intros H1%Qlt_alt H2. apply -> Qlt_alt.
  destruct (Qcompare_spec q r) as [He|Hl|Hg]; [lra|lra|done].
Qed.

Lemma Qcompare_gt_trans p q r : (q ?= p)%Q = Lt → (r ?= q)%Q ≠ Gt → (r ?= p)%Q = Lt.
Proof.
  intros H1%Qlt_alt H2. apply -> Qlt_alt.
  destruct (Qcompare_spec r q) as [He|Hl|Hg]; [lra|lra|done].
Qed.

Lemma key_compare_eq_l asc a b c :
  is_str a = false → is_str b = false → is_str c = false →
  key_compare asc a b = Eq → key_compare asc a c = key_compare asc b c.
Proof.
  destruct a as [|p|?], b as [|q|?], c as [|r|?]; try done; simpl; intros _ _ _.
  destruct asc; simpl.
  - apply Qcompare_eq_l.
  - rewrite !Qcompare_antisym. intros H. apply Qcompare_eq_r.
    rewrite <- Qcompare_antisym, H. done.
Qed.

Lemma key_compare_lt_trans asc a b c :
  is_str a = false → is_str b = false → is_str c = false →
  key_compare asc a b = Lt → key_compare asc b c ≠ Gt → key_compare asc a c = Lt.
Proof.
  destruct a as [|p|?], b as [|q|?], c as [|r|?]; try done; simpl; intros _ _ _.
  destruct asc; simpl.
  - apply Qcompare_lt_trans.
  - rewrite !Qcompare_antisym. apply Qcompare_gt_trans.
Qed.

Lemma row_le_trans by_ x y z :
  numeric_keys by_ x → numeric_keys by_ y → numeric_keys by_ z →
  row_le by_ x y → row_le by_ y z → row_le by_ x z.
Proof.
  unfold row_le, numeric_keys.
  induction by_ as [|[c asc] by_ IH]; [done|].
  intros [Hx Hx']%Forall_cons [Hy Hy']%Forall_cons [Hz Hz']%Forall_cons. simpl in *.
  destruct (key_compare asc (cell_at c x.2) (cell_at c y.2)) eqn:H12; [| |done].
  - rewrite (key_compare_eq_l asc _ _ _ Hx Hy Hz H12).
    destruct (key_compare asc (cell_at c y.2) (cell_at c z.2)); [by apply IH|done|done].
  - intros _ H23. rewrite (key_compare_lt_trans asc _ _ _ Hx Hy Hz H12); [done|].
    by destruct (key_compare asc (cell_at c y.2) (cell_at c z.2)).
Qed.

Lemma numeric_keys_sort by_ by' l :
  Forall (numeric_keys by_) l → Forall (numeric_keys by_) (sort_rows by' l).
Proof. intros H. by rewrite sort_rows_perm. Qed.

Lemma sort_rows_strongly_sorted by_ l :
  Forall (numeric_keys by_) l → StronglySorted (row_le by_) (sort_rows by_ l).
Proof.
  intros H. apply (Sorted_strongly _ (numeric_keys by_)).
  - apply row_le_trans.
  - by apply numeric_keys_sort.
  - apply sort_rows_sorted.
Qed.

Lemma StronglySorted_take {A} (R : A → A → Prop) n l :
  StronglySorted R l → StronglySorted R (take n l).
Proof.
  intros H. revert n. induction H as [|x l Hs IH Hall]; intros [|n]; simpl; try constructor.
  - apply IH.
  - rewrite Forall_forall in Hall. apply Forall_forall. intros y Hy.
    apply Hall. by eapply subseteq_take.
Qed.

Lemma StronglySorted_fmap {A B} (R : A → A → Prop) (R' : B → B → Prop) (g : A → B) l :
  (∀ x y, x ∈ l → y ∈ l → R x y → R' (g x) (g y)) →
  StronglySorted R l → StronglySorted R' (g <$> l).
Proof.
  intros Hg H. induction H as [|x l Hs IH Hall]; csimpl; constructor.
  - apply IH. intros y z Hy Hz. apply Hg; by right.
  - apply Forall_fmap. rewrite Forall_forall in Hall. apply Forall_forall.
    intros y Hy. simpl. apply Hg; [by left|by right|by apply Hall].
Qed.

Lemma key_compare_num_le a b :
  is_str a = false → is_str b = false →
  key_compare true a b ≠ Gt ↔ num_le a b.
Proof.
  destruct a as [|p|?], b as [|q|?]; try done; simpl; intros _ _;
    first [ symmetry; apply Qle_alt | split; [intros H; by try apply H | done] ].
Qed.

Lemma key_compare_desc p q : key_compare false (CNum p) (CNum q) ≠ Gt ↔ (q <= p)%Q.
Proof.
  simpl. rewrite <- Qcompare_antisym, CompOpp_involutive. by rewrite Qle_alt.
Qed.

Lemma StronglySorted_weaken {A} (R R' : A → A → Prop) l :
  (∀ x y, x ∈ l → y ∈ l → R x y → R' x y) →
  StronglySorted R l → StronglySorted R' l.
Proof.
  intros HR H. rewrite <- (list_fmap_id l). apply (StronglySorted_fmap R R' id); [|done].
  intros x y Hx Hy. by apply HR.
Qed.

Lemma row_le_first c asc by_ x y :
  row_le ((c, asc) :: by_) x y → key_compare asc (cell_at c x.2) (cell_at c y.2) ≠ Gt.
Proof. unfold row_le. simpl. by destruct (key_compare asc _ _). Qed.

(** ** The training report *)

Lemma Qltb_0_inject t : Qltb 0 (inject_Z t) = (0 <? t)%Z.
Proof.
  unfold Qltb, Qle_bool. simpl. rewrite Z.mul_1_r.
  destruct (Z.leb_spec t 0), (Z.ltb_spec 0 t); simpl; try done; lia.
Qed.

Lemma run_col_derived σ f c :
  c ∈ columns (derived f) →
  col (length σ) c (σ ++ [derived f])
  = (Ok ((λ lr, cell_at c lr.2) <$> body (derived f)), σ ++ [derived f]).
Proof. intros Hc. by rewrite run_col, getitem_ok. Qed.

Lemma derived_numeric f c :
  numeric_column f c → c ∉ derived_names →
  Forall (λ lr, is_str (cell_at c lr.2) = false) (body (derived f)).
Proof.
  intros Hn Hc. unfold derived, rowmap. cbn [body]. apply Forall_fmap.
  by apply numeric_column_derived.
Qed.

Lemma restricted_row_none (cs : list string) (r : row) c :
  c ∉ cs → filter (λ kv : string * cell, kv.1 ∈ cs) r !! c = None.
Proof.
  intros Hc. apply map_lookup_filter_None. right. intros v _ Hin. by apply Hc.
Qed.

Lemma project_derived cs has lr :
  (∀ c, c ∈ cs → c ∉ derived_names) →
  project cs (lr.1, derived_row has lr.2) = project cs lr.
Proof.
  intros Hcs. unfold project. cbn [fst snd]. f_equal. apply map_eq. intros c.
  destruct (decide (c ∈ cs)) as [Hc|Hc].
  - rewrite !restricted_row_lookup by done.
    pose proof (Hcs c Hc) as Hn. unfold derived_names in Hn.
    rewrite !not_elem_of_cons in Hn. destruct Hn as (? & ? & ? & ? & _).
    unfold derived_row. by rewrite !lookup_insert_ne by done.
  - by rewrite !restricted_row_none by done.
Qed.

Lemma cell_at_project cs c lr : c ∈ cs → cell_at c (project cs lr).2 = cell_at c lr.2.
Proof. intros Hc. unfold cell_at, project. cbn [snd]. by rewrite restricted_row_lookup. Qed.

Lemma training_gap_truth thresh c :
  truth Qltb (inject_Z thresh) (CNum 0) c
  = match c with
    | CNum q => Qltb q (inject_Z thresh)
    | CNa => (0 <? thresh)%Z
    | CStr _ => false
    end.
Proof. destruct c; simpl; [apply Qltb_0_inject|done|done]. Qed.

Lemma run_who_needs_training σ df f thresh :
  σ !! df = Some f →
  categorical_columns ⊆ columns f →
  training_columns ⊆ columns f →
  numeric_column f "Training_Score" →
  who_needs_training df thresh σ
  = (Ok (Frame training_columns
           (sort_rows [("Training_Score", true)]
              (project training_columns
                 <$> filter (λ lr, training_gap thresh lr = true) (body f)))),
     σ ++ [derived f]).
Proof.
  intros Hf Hc Hcols Hnum. unfold who_needs_training.
  erewrite bind_run by by apply run_add_derived_columns.
  assert (∀ c, c ∈ training_columns → c ∈ columns (derived f)) as Hin.
  { intros c Hcin. apply in_derived_columns. left. by apply Hcols. }
  erewrite bind_run by (apply run_col_derived, Hin; by repeat constructor).
  erewrite bind_run
    by (unfold lift; rewrite cmp_scalar_fillna;
        [reflexivity|done|apply derived_numeric; [done|not_in_names]]).
  erewrite bind_run by apply run_read, lookup_last.
  cbv zeta. rewrite df_mask_fmap. fold training_columns.
  erewrite bind_run by (unfold lift; rewrite df_select_ok by done; reflexivity).
  cbn [body columns]. unfold lift.
  set (rows := filter _ (body (derived f))).
  rewrite sort_values_ok.
  - do 3 f_equal. cbn [body]. unfold rows, derived, rowmap. cbn [body].
    rewrite filter_fmap, <- list_fmap_compose.
    erewrite (filter_ext_in _ (λ lr, training_gap thresh lr = true)).
    + f_equal. apply list_fmap_ext. intros _ lr _. simpl. apply project_derived.
      intros c Hcin. unfold training_columns in Hcin.
      rewrite !elem_of_cons, elem_of_nil in Hcin.
      destruct Hcin as [->|[->|[->|[->|[->|[->|[]]]]]]]; not_in_names.
    + intros lr _. cbn [snd]. rewrite derived_row_other by not_in_names.
      by rewrite training_gap_truth.
  - apply Forall_cons. split; [|constructor].
    cbn [fst columns body]. split; [by repeat constructor|].
    apply sortable_no_str. rewrite <- list_fmap_compose. apply Forall_fmap.
    apply Forall_forall. intros lr [_ Hlr]%list_elem_of_filter. simpl.
    change (is_str (cell_at "Training_Score" (project training_columns lr).2) = false).
    rewrite cell_at_project by by repeat constructor.
    pose proof (derived_numeric f "Training_Score" Hnum) as Hd.
    rewrite Forall_forall in Hd. apply Hd; [not_in_names|done].
Qed.

(** X6.  The training report lists exactly the rows whose training score
    is below the threshold, a missing score counting as 0 (so such a row
    is listed whenever the threshold is positive), cut to the six report
    columns and in ascending order of score with missing scores last. *)
Theorem training_report_lists_the_gaps (σ : store) (df : ref) (f : frame) (thresh : Z) :
  σ !! df = Some f →
  categorical_columns ⊆ columns f →
  training_columns ⊆ columns f →
  numeric_column f "Training_Score" →
  ∃ t : frame,
    who_needs_training df thresh σ = (Ok t, σ ++ [derived f])
    ∧ columns t = training_columns
    ∧ body t ≡ₚ project training_columns
                 <$> filter (λ lr, training_gap thresh lr = true) (body f)
    ∧ ascending "Training_Score" (body t).
Proof.
  intros Hf Hc Hcols Hnum. rewrite (run_who_needs_training σ df f) by done.
  eexists. split; [done|]. cbn [columns body]. split; [done|]. split.
  - apply sort_rows_perm.
  - set (rows := project training_columns <$> _).
    assert (Forall (numeric_keys [("Training_Score", true)]) rows) as Hk.
    { apply Forall_fmap, Forall_forall. intros lr [_ Hlr]%list_elem_of_filter.
      repeat constructor. simpl.
      change (is_str (cell_at "Training_Score" (project training_columns lr).2) = false).
      rewrite cell_at_project by by repeat constructor.
      destruct Hnum as [_ Hn]. rewrite Forall_forall in Hn. by apply Hn. }
    eapply StronglySorted_weaken; [|by apply sort_rows_strongly_sorted].
    intros x y Hx Hy Hxy%row_le_first.
    rewrite sort_rows_perm in Hx, Hy. rewrite Forall_forall in Hk.
    apply key_compare_num_le; [| |done].
    + pose proof (Hk x Hx) as Hkx. by apply Forall_cons in Hkx as [? _].
    + pose proof (Hk y Hy) as Hky. by apply Forall_cons in Hky as [? _].
Qed.

(** ** The ranked attrition report *)

Lemma StronglySorted_take_drop {A} (R : A → A → Prop) n l x y :
  StronglySorted R l → x ∈ take n l → y ∈ drop n l → R x y.
Proof.
  intros H. revert n. induction H as [|z l Hs IH Hall]; intros n Hx Hy.
  - rewrite take_nil in Hx. by apply elem_of_nil in Hx.
  - destruct n as [|n]; [by apply elem_of_nil in Hx|]. simpl in *.
    apply elem_of_cons in Hx as [->|Hx]; [|by eapply IH].
    rewrite Forall_forall in Hall. apply Hall. by eapply subseteq_drop.
Qed.

Lemma head_take n f :
  (0 ≤ n)%Z → body (df_head n f) = take (Z.to_nat n) (body f).
Proof. intros Hn. unfold df_head. cbn [body]. by rewrite (proj2 (Z.leb_le 0 n)). Qed.

Lemma run_attrition_ranked_rows σ df f top_n :
  σ !! df = Some f → attrition_ready f → "Attrition_Risk" ∈ columns f →
  who_is_going_to_leave df top_n σ
  = (Ok (df_head top_n
           (Frame attrition_columns
              (project attrition_columns
                 <$> sort_rows attrition_keys (body (derived f))))),
     σ ++ [derived f]).
Proof.
  intros Hf (Hc & Hid & Hyos & _) Hrisk. unfold who_is_going_to_leave.
  erewrite bind_run by by apply run_add_derived_columns.
  unfold derived at 1. run_step. fold (derived f).
  rewrite bool_decide_eq_true_2 by (apply in_derived_columns; by left).
  erewrite bind_run by apply run_read, lookup_last.
  erewrite bind_run.
  2:{ unfold lift. rewrite sort_values_ok; [reflexivity|].
      repeat constructor; cbn [fst].
      - apply in_derived_columns. right. by repeat constructor.
      - unfold derived. apply sortable_no_str, Forall_series_rowmap, Forall_forall.
        intros lr _. unfold derived_row. rewrite cell_at_insert.
        rewrite bool_decide_eq_true_2 by done. by rewrite mapped_attrition.
      - apply in_derived_columns. left. apply Hyos.
      - unfold derived. apply sortable_no_str, Forall_series_rowmap.
        apply numeric_column_derived; [done|not_in_names]. }
  erewrite bind_run.
  2:{ unfold lift. rewrite df_select_ok; [reflexivity|]. cbn [columns].
      intros c Hcol. apply in_derived_columns. left.
      rewrite !elem_of_cons in Hcol.
      destruct Hcol as [->|[->|[->|[->|[->|[->|Hcol]]]]]];
        [..|by apply elem_of_nil in Hcol];
        first [apply Hid; by repeat constructor | apply Hyos | done]. }
  done.
Qed.

Lemma row_le_risk x y :
  cell_at "Attrition_Score" x.2 = CNum (attrition_score (cell_at "Attrition_Risk" x.2)) →
  cell_at "Attrition_Score" y.2 = CNum (attrition_score (cell_at "Attrition_Risk" y.2)) →
  is_str (cell_at "Years_of_Service" x.2) = false →
  is_str (cell_at "Years_of_Service" y.2) = false →
  row_le attrition_keys x y →
  risk_order (project attrition_columns x) (project attrition_columns y).
Proof.
  intros Hx Hy Hyx Hyy. unfold row_le, attrition_keys, risk_order. cbv zeta.
  rewrite !cell_at_project by by repeat constructor.
  cbn [keys_compare]. rewrite Hx, Hy. cbn [key_compare cell_compare].
  set (rx := attrition_score _). set (ry := attrition_score _).
  destruct (Qcompare_spec rx ry) as [He|Hl|Hg]; cbn [CompOpp].
  - intros H. right. split; [done|]. apply key_compare_num_le; [done..|].
    by destruct (key_compare true _ _).
  - intros H. by destruct H.
  - intros _. by left.
Qed.

Lemma derived_attrition_score f lr :
  "Attrition_Risk" ∈ columns f → lr ∈ body (derived f) →
  cell_at "Attrition_Score" lr.2 = CNum (attrition_score (cell_at "Attrition_Risk" lr.2)).
Proof.
  intros Hr (lr0 & -> & _)%list_elem_of_fmap. cbn [snd].
  rewrite (derived_row_other _ "Attrition_Risk") by not_in_names.
  unfold derived_row. rewrite cell_at_insert, bool_decide_eq_true_2 by done.
  apply mapped_attrition.
Qed.

Lemma project_body_derived cs f :
  (∀ c, c ∈ cs → c ∉ derived_names) →
  project cs <$> body (derived f) = project cs <$> body f.
Proof.
  intros Hcs. unfold derived, rowmap. cbn [body]. rewrite <- list_fmap_compose.
  apply list_fmap_ext. intros _ lr _. simpl. by apply project_derived.
Qed.

(** X3.  With an attrition-risk column the report is ranked by risk: the
    rows it returns are rows of the table cut to the six report columns,
    there are min(top_n, rows) of them, a higher attrition score always
    comes first (High, then Medium and unrecognised, then Low) and, among
    equal scores, fewer years of service first with missing years last;
    every row left out ranks after every row returned. *)
Theorem ranked_attrition_report_order (σ : store) (df : ref) (f : frame) (top_n : Z) :
  σ !! df = Some f →
  attrition_ready f →
  "Attrition_Risk" ∈ columns f →
  (0 ≤ top_n)%Z →
  ∃ (t : frame) (rest : list (Z * row)),
    who_is_going_to_leave df top_n σ = (Ok t, σ ++ [derived f])
    ∧ project attrition_columns <$> body f ≡ₚ body t ++ rest
    ∧ length (body t) = Z.to_nat top_n `min` length (body f)
    ∧ StronglySorted risk_order (body t)
    ∧ ∀ x y, x ∈ body t → y ∈ rest → risk_order x y.
Proof.
  intros Hf Hready Hrisk Hn. rewrite (run_attrition_ranked_rows σ df f) by done.
  set (S := sort_rows attrition_keys (body (derived f))).
  assert (StronglySorted risk_order (project attrition_columns <$> S)) as Hss.
  { apply (StronglySorted_fmap (row_le attrition_keys)).
    - intros x y Hx Hy. unfold S in Hx, Hy. rewrite sort_rows_perm in Hx, Hy.
      destruct Hready as (_ & _ & Hyos & _).
      pose proof (derived_numeric f "Years_of_Service" Hyos) as Hd.
      rewrite Forall_forall in Hd.
      apply row_le_risk; [by apply (derived_attrition_score f)..| |];
        apply Hd; first [not_in_names | done].
    - apply sort_rows_strongly_sorted, Forall_forall. intros x Hx.
      destruct Hready as (_ & _ & Hyos & _).
      pose proof (derived_numeric f "Years_of_Service" Hyos) as Hd.
      rewrite Forall_forall in Hd.
      repeat constructor; cbn [fst].
      + by rewrite (derived_attrition_score f x).
      + apply Hd; [not_in_names|done]. }
  exists (df_head top_n (Frame attrition_columns (project attrition_columns <$> S))),
         (drop (Z.to_nat top_n) (project attrition_columns <$> S)).
  rewrite head_take by done. cbn [body].
  split; [done|]. split; [|split; [|split]].
  - rewrite take_drop. unfold S. rewrite sort_rows_perm.
    rewrite project_body_derived; [done|].
    intros c Hcin. unfold attrition_columns in Hcin.
    rewrite !elem_of_cons, elem_of_nil in Hcin.
    destruct Hcin as [->|[->|[->|[->|[->|[->|[]]]]]]]; not_in_names.
  - rewrite length_take, length_fmap. unfold S. rewrite length_sort_rows.
    unfold derived, rowmap. cbn [body]. by rewrite length_fmap.
  - by apply StronglySorted_take.
  - intros x y Hx Hy. by eapply StronglySorted_take_drop.
Qed.

(** ** The leadership ranking *)

Lemma Sorted_weaken {A} (R R' : A → A → Prop) l :
  (∀ x y, R x y → R' x y) → Sorted R l → Sorted R' l.
Proof.
  intros HR. induction 1 as [|x l Hs IH Hhd]; constructor; [done|].
  destruct Hhd; constructor. by apply HR.
Qed.

Lemma row_le_single c asc x y :
  row_le [(c, asc)] x y ↔ key_compare asc (cell_at c x.2) (cell_at c y.2) ≠ Gt.
Proof. unfold row_le. simpl. by destruct (key_compare asc _ _). Qed.

Lemma sort_rows_first_key c asc by_ l :
  Forall (numeric_keys [(c, asc)]) l →
  StronglySorted (row_le [(c, asc)]) (sort_rows ((c, asc) :: by_) l).
Proof.
  intros H. apply (Sorted_strongly _ (numeric_keys [(c, asc)])).
  - apply row_le_trans.
  - by rewrite sort_rows_perm.
  - eapply Sorted_weaken; [|apply sort_rows_sorted].
    intros x y Hxy. apply row_le_single. by eapply row_le_first.
Qed.

Lemma leadership_columns_derived f :
  filter (λ c, c ∈ columns (derived f)) leadership_columns
  = filter (λ c, c ∈ columns f) leadership_columns.
Proof.
  apply filter_ext_in. intros c Hc. unfold derived, rowmap. cbn [columns].
  rewrite in_derived_columns. split; [|by left]. intros [?|Hd]; [done|].
  assert (c ∉ derived_names) as Hn; [|done].
  unfold leadership_columns in Hc. rewrite !elem_of_cons, elem_of_nil in Hc.
  destruct Hc as [->|[->|[->|[->|[->|[->|[->|[]]]]]]]]; not_in_names.
Qed.

Lemma run_leadership_rows σ df f :
  σ !! df = Some f →
  categorical_columns ⊆ columns f →
  "Performance_Rating" ∈ columns f →
  sortable ((λ lr, cell_at "Performance_Rating" lr.2) <$> body f) = true →
  let cols := filter (λ c, c ∈ columns f) leadership_columns in
  leadership_list df σ
  = (Ok (Frame cols (project cols <$> sort_rows leadership_keys (body (derived f)))),
     σ ++ [derived f]).
Proof.
  intros Hf Hc Hpr Hsort cols. unfold leadership_list.
  erewrite bind_run by by apply run_add_derived_columns.
  erewrite bind_run by apply run_read, lookup_last.
  cbv zeta. fold leadership_columns. rewrite leadership_columns_derived. fold cols.
  erewrite bind_run.
  2:{ unfold lift. rewrite sort_values_ok; [reflexivity|].
      apply Forall_cons. split; [|apply Forall_cons; split; [|constructor]]; cbn [fst]; split.
      - apply in_derived_columns. right. by repeat constructor.
      - unfold derived. apply sortable_no_str, Forall_series_rowmap, Forall_forall.
        intros lr _. unfold derived_row.
        rewrite !cell_at_insert_ne by done. rewrite cell_at_insert.
        by rewrite mapped_leadership.
      - apply in_derived_columns. by left.
      - unfold derived, rowmap. cbn [body]. rewrite <- list_fmap_compose.
        erewrite list_fmap_ext; [exact Hsort|]. intros _ lr _. simpl.
        apply derived_row_other. not_in_names. }
  unfold lift. rewrite df_select_ok; [done|]. cbn [columns].
  intros c [Hcin _]%list_elem_of_filter. apply in_derived_columns. by left.
Qed.

Lemma derived_leadership_score f lr :
  lr ∈ body (derived f) →
  cell_at "Leadership_Score" lr.2
  = CNum (leadership_score (cell_at "Leadership_Potential" lr.2)).
Proof.
  intros (lr0 & -> & _)%list_elem_of_fmap. cbn [snd].
  rewrite (derived_row_other _ "Leadership_Potential") by not_in_names.
  unfold derived_row. rewrite !cell_at_insert_ne by done. rewrite cell_at_insert.
  apply mapped_leadership.
Qed.

(** X7.  The leadership ranking keeps every row of the table and only
    reorders them: its columns are those of the seven report columns the
    table has, its rows are the rows of the table cut to these columns,
    and a row with a higher leadership score always comes first. *)
Theorem leadership_ranking_keeps_every_row (σ : store) (df : ref) (f : frame) :
  σ !! df = Some f →
  categorical_columns ⊆ columns f →
  "Performance_Rating" ∈ columns f →
  sortable ((λ lr, cell_at "Performance_Rating" lr.2) <$> body f) = true →
  ∃ tab : frame,
    leadership_list df σ = (Ok tab, σ ++ [derived f])
    ∧ columns tab = filter (λ c, c ∈ columns f) leadership_columns
    ∧ body tab ≡ₚ project (columns tab) <$> body f
    ∧ StronglySorted by_leadership (body tab).
Proof.
  intros Hf Hc Hpr Hsort. rewrite (run_leadership_rows σ df f) by done.
  eexists. split; [done|]. cbn [columns body]. split; [done|].
  set (cols := filter _ leadership_columns).
  assert (∀ c, c ∈ cols → c ∉ derived_names) as Hcols.
  { intros c [_ Hcin]%list_elem_of_filter. unfold leadership_columns in Hcin.
    rewrite !elem_of_cons, elem_of_nil in Hcin.
    destruct Hcin as [->|[->|[->|[->|[->|[->|[->|[]]]]]]]]; not_in_names. }
  split.
  - rewrite sort_rows_perm. by rewrite project_body_derived.
  - apply (StronglySorted_fmap (row_le [("Leadership_Score", false)])).
    + intros x y Hx Hy Hxy%row_le_single. rewrite sort_rows_perm in Hx, Hy.
      rewrite (derived_leadership_score f x), (derived_leadership_score f y) in Hxy by done.
      apply key_compare_desc in Hxy. unfold by_leadership.
      assert ("Leadership_Potential" ∈ cols) as Hlp.
      { apply list_elem_of_filter. split; [apply Hc|]; by repeat constructor. }
      by rewrite !cell_at_project by done.
    + apply sort_rows_first_key, Forall_forall. intros x Hx.
      repeat constructor. cbn [fst]. by rewrite (derived_leadership_score f x).
Qed.

(** ** The medical report and missing columns *)

(** X5.  The medical report filters nothing: it has one row per row of
    the table, in table order and under the same label, with the seven
    report columns; Medical_Score is the score of the row's medical
    category and the other cells are those of the table. *)
Theorem medical_report_keeps_every_row (σ : store) (df : ref) (f : frame) :
  σ !! df = Some f →
  categorical_columns ⊆ columns f →
  ["Personnel_ID"; "Name"; "Rank"; "BMI"; "Last_Medical_Checkup"] ⊆ columns f →
  ∃ t : frame,
    medical_scores df σ = (Ok t, σ ++ [derived f])
    ∧ columns t = medical_columns
    ∧ Forall2 medical_row (body f) (body t).
Proof.
  intros Hf Hc Hcols. unfold medical_scores.
  erewrite bind_run by by apply run_add_derived_columns.
  erewrite bind_run by apply run_read, lookup_last.
  unfold lift. fold medical_columns. rewrite df_select_ok.
  - eexists. split; [done|]. cbn [columns body]. split; [done|].
    unfold derived, rowmap. cbn [body]. rewrite <- list_fmap_compose.
    apply Forall2_fmap_r, Forall_Forall2_diag, Forall_forall. intros lr _.
    unfold medical_row. simpl. split; [done|]. split.
    + rewrite restricted_row_lookup by by repeat constructor.
      unfold derived_row. rewrite !lookup_insert_ne by done.
      by rewrite lookup_insert_eq, mapped_medical.
    + intros c Hne. destruct (decide (c ∈ medical_columns)) as [Hin|Hin].
      * rewrite restricted_row_lookup by done.
        unfold medical_columns in Hin. rewrite !elem_of_cons, elem_of_nil in Hin.
        unfold derived_row.
        destruct Hin as [->|[->|[->|[->|[->|[->|[->|[]]]]]]]];
          first [done | by rewrite !lookup_insert_ne by done].
      * by apply restricted_row_none.
  - cbn [columns]. intros c Hcin. apply in_derived_columns.
    unfold medical_columns in Hcin. rewrite !elem_of_cons, elem_of_nil in Hcin.
    destruct Hcin as [->|[->|[->|[->|[->|[->|[->|[]]]]]]]];
      first [ left; apply Hcols; by repeat constructor
            | left; apply Hc; by repeat constructor
            | right; by repeat constructor ].
Qed.

Lemma run_col_missing σ cols F f c :
  c ∉ cols →
  col (length σ) c (σ ++ [rowmap cols F f]) = (Raise KeyError, σ ++ [rowmap cols F f]).
Proof. intros Hc. by rewrite run_col, getitem_missing. Qed.

Lemma add_derived_columns_missing σ df f :
  σ !! df = Some f → ¬ categorical_columns ⊆ columns f →
  ∃ σ', add_derived_columns df σ = (Raise KeyError, σ').
Proof.
  intros Hf Hmiss. unfold add_derived_columns.
  erewrite bind_run by by apply run_copy.
  replace (σ ++ [f]) with (σ ++ [rowmap (columns f) (λ lr, lr.2) f])
    by by rewrite <- rowmap_id.
  destruct (decide ("Medical_Category" ∈ columns f)) as [Hm|Hm].
  2:{ eexists. by erewrite bind_raise by by apply run_col_missing. }
  run_step. rewrite fillna_map_dict. run_step.
  destruct (decide ("Leadership_Potential" ∈ columns f)) as [Hl|Hl].
  2:{ eexists. erewrite bind_raise; [done|]. apply run_col_missing.
      rewrite elem_of_add_column. by intros [?|?]. }
  run_step. rewrite fillna_map_dict. run_step.
  destruct (decide ("Readiness_Level" ∈ columns f)) as [Hr|Hr].
  2:{ eexists. erewrite bind_raise; [done|]. apply run_col_missing.
      rewrite !elem_of_add_column. by intros [[?|?]|?]. }
  destruct Hmiss. intros c Hc. unfold categorical_columns in Hc.
  rewrite !elem_of_cons, elem_of_nil in Hc. by destruct Hc as [->|[->|[->|[]]]].
Qed.

(** X2.  The three categorical columns are not optional: on a table that
    lacks Medical_Category, Leadership_Potential or Readiness_Level,
    [add_derived_columns] raises [KeyError], and with it the attrition,
    medical, training and leadership reports, [select_best_team] and the
    five scenario analysers, which all start by enriching the table. *)
Theorem missing_categorical_column_raises (σ : store) (df : ref) (f : frame) :
  σ !! df = Some f →
  ¬ categorical_columns ⊆ columns f →
  (add_derived_columns df σ).1 = Raise KeyError
  ∧ (∀ top_n, (who_is_going_to_leave df top_n σ).1 = Raise KeyError)
  ∧ (medical_scores df σ).1 = Raise KeyError
  ∧ (∀ thresh, (who_needs_training df thresh σ).1 = Raise KeyError)
  ∧ (leadership_list df σ).1 = Raise KeyError
  ∧ (∀ headcount required_roles restrict_to_roles,
       (select_best_team df headcount required_roles restrict_to_roles σ).1
       = Raise KeyError)
  ∧ (∀ text_low,
       (_analyze_retirement_scenario df text_low σ).1 = Raise KeyError
       ∧ (_analyze_redeployment_scenario df text_low σ).1 = Raise KeyError
       ∧ (_analyze_grounding_scenario df text_low σ).1 = Raise KeyError
       ∧ (_analyze_promotion_scenario df text_low σ).1 = Raise KeyError
       ∧ (_analyze_budget_scenario df text_low σ).1 = Raise KeyError).
Proof.
  intros Hf Hmiss.
  destruct (add_derived_columns_missing σ df f Hf Hmiss) as (σ' & Hrun).
  repeat split; intros;
    unfold who_is_going_to_leave, medical_scores, who_needs_training, leadership_list,
      select_best_team, score_table, _analyze_retirement_scenario,
      _analyze_redeployment_scenario, _analyze_grounding_scenario,
      _analyze_promotion_scenario, _analyze_budget_scenario;
    first [ by rewrite Hrun
          | by erewrite bind_raise by exact Hrun
          | by erewrite bind_raise by (erewrite bind_raise by exact Hrun; reflexivity) ].
Qed.

(** ** Text ratings in the attrition heuristic *)

Lemma cmp_scalar_text op k (s : list cell) :
  Exists (λ c, is_str c = true) s → cmp_scalar op k s = Raise TypeError.
Proof.
  unfold cmp_scalar. induction s as [|c s IH]; intros H; [by apply Exists_nil in H|].
  rewrite mapM_cons. destruct c as [|q|t]; try done; cbn [mbind res_bind cmp_cell];
    (apply Exists_cons in H as [H|H]; [done|]); by rewrite IH.
Qed.

Lemma fillna_text v (s : list cell) :
  Exists (λ c, is_str c = true) s → Exists (λ c, is_str c = true) (fillna v s).
Proof.
  unfold fillna. rewrite !Exists_exists. intros (c & Hc & Hs).
  exists c. split; [|done]. apply list_elem_of_fmap. exists c. by destruct c.
Qed.

(** X4.  Without an attrition-risk column the attrition report needs
    numeric performance ratings: on a table with numeric years of
    service where some rating is text, the comparison of line 38 raises
    [TypeError]. *)
Theorem heuristic_attrition_rejects_worded_ratings
    (σ : store) (df : ref) (f : frame) (top_n : Z) :
  σ !! df = Some f →
  categorical_columns ⊆ columns f →
  "Attrition_Risk" ∉ columns f →
  numeric_column f "Years_of_Service" →
  "Performance_Rating" ∈ columns f →
  Exists (λ lr, is_str (cell_at "Performance_Rating" lr.2) = true) (body f) →
  (who_is_going_to_leave df top_n σ).1 = Raise TypeError.
Proof.
  intros Hf Hc Hrisk Hyos Hpr Htext. unfold who_is_going_to_leave.
  erewrite bind_run by by apply run_add_derived_columns.
  unfold derived at 1. run_step. fold (derived f).
  rewrite bool_decide_eq_false_2
    by (rewrite in_derived_columns; intros [?|H]; [done|]; revert H;
        change ("Attrition_Risk" ∉ derived_names); not_in_names).
  erewrite bind_run
    by (apply run_col_derived, in_derived_columns; left; apply Hyos).
  erewrite bind_run
    by (unfold lift; rewrite cmp_scalar_fillna;
        [reflexivity|done|apply derived_numeric; [done|not_in_names]]).
  erewrite bind_run
    by (apply run_col_derived, in_derived_columns; by left).
  erewrite bind_raise; [done|]. unfold lift. rewrite cmp_scalar_text; [done|].
  apply fillna_text. unfold derived, rowmap. cbn [body]. rewrite <- list_fmap_compose.
  apply Exists_fmap. eapply Exists_impl; [exact Htext|]. intros lr Hlr. simpl.
  by rewrite derived_row_other by not_in_names.
Qed.

(** ** The ranking inside the team *)

Lemma res_bind_inv {A B} (m : res A) (k : A → res B) r :
  m ≫= k = Ok r → ∃ a, m = Ok a ∧ k a = Ok r.
Proof. destruct m as [e|a]; [done|]. intros H. by exists a. Qed.

Lemma df_select_inv f cs t :
  df_select f cs = Ok t → t = Frame cs (project cs <$> body f).
Proof. unfold df_select. destruct (decide (cs ⊆ columns f)); [|done]. by intros [= <-]. Qed.

Lemma pick_team_length d headcount required_roles restrict_to_roles team :
  (0 ≤ headcount)%Z →
  pick_team d headcount required_roles restrict_to_roles = Ok team →
  length (body team) ≤ Z.to_nat headcount.
Proof.
  intros Hh H. unfold pick_team in H.
  apply res_bind_inv in H as (d1 & _ & H).
  apply res_bind_inv in H as (picked_idx & _ & H).
  apply res_bind_inv in H as (dropped & _ & H).
  apply res_bind_inv in H as (sorted & _ & H).
  apply res_bind_inv in H as (picks & _ & H).
  apply res_bind_inv in H as (t & _ & H).
  cbv zeta in H. apply df_select_inv in H as ->. cbn [body].
  rewrite length_fmap. by apply df_head_length.
Qed.

Lemma select_best_team_length σ σ' df headcount required_roles restrict_to_roles team :
  (0 ≤ headcount)%Z →
  select_best_team df headcount required_roles restrict_to_roles σ = (Ok team, σ') →
  length (body team) ≤ Z.to_nat headcount.
Proof.
  intros Hh H. unfold select_best_team in H.
  apply bind_ok_inv in H as (d & σ1 & _ & H).
  apply bind_ok_inv in H as (dv & σ2 & _ & H).
  unfold lift in H. injection H as H _. by eapply pick_team_length.
Qed.

(** X9.  Whatever the table, the roles and the mode, a team that
    [select_best_team] returns for a headcount of 0 or more has at most
    that many rows. *)
Theorem team_never_exceeds_headcount
    (σ σ' : store) (df : ref) (headcount : Z) (required_roles : option (list string))
    (restrict_to_roles : bool) (team : frame) :
  (0 ≤ headcount)%Z →
  select_best_team df headcount required_roles restrict_to_roles σ = (Ok team, σ') →
  length (body team) ≤ Z.to_nat headcount.
Proof. apply select_best_team_length. Qed.

Lemma scored_row_overall f ls :
  ls ∈ body (scored f) →
  ∃ lr q, lr ∈ body f ∧ ls.1 = lr.1
          ∧ ls.2 !! "Overall" = Some (CNum q) ∧ (q == overall_formula f lr.2)%Q.
Proof.
  intros (lr & -> & Hlr)%list_elem_of_fmap.
  destruct (overall_cell_formula f lr Hlr) as (q & Hq & Hqe).
  exists lr, q. split; [done|]. split; [done|]. split; [|done].
  cbn [snd]. by rewrite lookup_insert_eq, Hq.
Qed.

Lemma scored_row_of f lr :
  lr ∈ body f →
  ∃ ls q, ls ∈ body (scored f) ∧ ls.1 = lr.1
          ∧ ls.2 !! "Overall" = Some (CNum q) ∧ (q == overall_formula f lr.2)%Q.
Proof.
  intros Hlr. destruct (overall_cell_formula f lr Hlr) as (q & Hq & Hqe).
  eexists (lr.1, _), q. split; [|split; [done|split; [|done]]].
  - unfold scored, rowmap. cbn [body].
    apply (list_elem_of_fmap_2 (λ lr0, (lr0.1, _)) _ lr Hlr).
  - cbn [snd]. by rewrite lookup_insert_eq, Hq.
Qed.

Lemma overall_of_lookup lr q : lr.2 !! "Overall" = Some (CNum q) → overall_of lr = q.
Proof. intros H. unfold overall_of, cell_at. by rewrite H. Qed.

Lemma team_pool_sub d headcount picked_idx lr :
  lr ∈ concat ((λ l, rows_labelled l (body d)) <$> picked_idx)
       ++ body (df_head headcount
                  (Frame (columns d)
                     (sort_rows overall_desc (filter (λ lr, lr.1 ∉ picked_idx) (body d))))) →
  lr ∈ body d.
Proof.
  intros [H|H]%elem_of_app.
  - apply elem_of_concat in H as (l & Hl & H).
    apply list_elem_of_fmap in Hl as (x & -> & _).
    by apply list_elem_of_filter in H as [_ H].
  - apply elem_of_head in H. rewrite sort_rows_perm in H.
    by apply list_elem_of_filter in H as [_ H].
Qed.

Lemma rankable_numeric_keys rows :
  rankable rows → Forall (numeric_keys overall_desc) rows.
Proof.
  unfold rankable. intros H. eapply Forall_impl; [exact H|].
  intros lr Hlr. by repeat constructor.
Qed.

Lemma team_rows_sorted d headcount picked_idx :
  rankable (body d) → (0 ≤ headcount)%Z →
  StronglySorted (row_le overall_desc) (team_rows d headcount picked_idx).
Proof.
  intros Hr Hh. unfold team_rows. cbv zeta. rewrite head_take by done. cbn [body].
  apply StronglySorted_take, sort_rows_strongly_sorted, rankable_numeric_keys.
  apply Forall_forall. intros lr Hlr. unfold pd_concat in Hlr. cbn [body] in Hlr.
  apply team_pool_sub in Hlr. unfold rankable in Hr. rewrite Forall_forall in Hr.
  by apply Hr.
Qed.

Lemma candidates_sub d required_roles restrict_to_roles lr :
  lr ∈ body (candidates d required_roles restrict_to_roles) → lr ∈ body d.
Proof.
  unfold candidates. destruct (restrict_to_roles && truthy required_roles); [|done].
  cbn [body]. by intros [_ H]%list_elem_of_filter.
Qed.

Lemma team_picks f required_roles restrict_to_roles :
  (truthy required_roles = true → "Primary_Skill" ∈ columns f) →
  let d1 := candidates (scored f) required_roles restrict_to_roles in
  ∃ picked,
    (if truthy required_roles && negb restrict_to_roles
     then pick_roles d1 (default [] required_roles) []
     else Ok []) = Ok picked
    ∧ picked ⊆ labels d1.
Proof.
  intros Hps d1. destruct (truthy required_roles && negb restrict_to_roles) eqn:Hb.
  - apply andb_true_iff in Hb as [Ht Hr].
    destruct (pick_roles_spec d1 (default [] required_roles) [])
      as (picks & matched & Hrun & _ & Hf2 & _).
    + unfold d1. rewrite columns_candidates. apply column_in_scored. by apply Hps.
    + unfold d1. rewrite columns_candidates. apply overall_in_scored.
    + apply rankable_candidates, rankable_scored.
    + exists picks. split; [done|]. by eapply picked_labels.
  - exists []. split; [done|]. by intros ? ?%elem_of_nil.
Qed.

Lemma run_team σ df f headcount required_roles restrict_to_roles :
  σ !! df = Some f →
  categorical_columns ⊆ columns f →
  (truthy required_roles = true → "Primary_Skill" ∈ columns f) →
  let d1 := candidates (scored f) required_roles restrict_to_roles in
  ∃ picked,
    picked ⊆ labels d1
    ∧ select_best_team df headcount required_roles restrict_to_roles σ
      = (Ok (Frame (team_columns (columns (scored f)))
               (project (team_columns (columns (scored f)))
                  <$> team_rows d1 headcount picked)),
         σ ++ [derived f; scored f]).
Proof.
  intros Hf Hc Hps d1.
  destruct (team_picks f required_roles restrict_to_roles Hps) as (picked & Hpick & Hsub).
  exists picked. split; [done|]. rewrite (run_select_best_team σ df f) by done.
  rewrite (run_pick_team _ _ _ _ picked);
    [done|apply overall_in_scored|apply rankable_scored
    |intros Ht; apply column_in_scored; by apply Hps|done|done].
Qed.

(** X11.  The team comes ranked: every row [select_best_team] returns is
    the row of a person of the table, carrying the Overall score that
    the formula gives for that person, and the rows are in descending
    order of that score, whatever the roles and the mode. *)
Theorem team_is_ranked_by_overall
    (σ : store) (df : ref) (f : frame) (headcount : Z)
    (required_roles : option (list string)) (restrict_to_roles : bool) :
  σ !! df = Some f →
  categorical_columns ⊆ columns f →
  (truthy required_roles = true → "Primary_Skill" ∈ columns f) →
  (0 ≤ headcount)%Z →
  ∃ team : frame,
    select_best_team df headcount required_roles restrict_to_roles σ
    = (Ok team, σ ++ [derived f; scored f])
    ∧ (∀ lr', lr' ∈ body team → ∃ lr, lr ∈ body f ∧ scored_from f lr lr')
    ∧ StronglySorted by_overall (body team).
Proof.
  intros Hf Hc Hps Hh.
  destruct (run_team σ df f headcount required_roles restrict_to_roles Hf Hc Hps)
    as (picked & Hsub & ->).
  eexists. split; [done|]. cbn [body].
  set (d1 := candidates (scored f) required_roles restrict_to_roles).
  assert ("Overall" ∈ team_columns (columns (scored f))) as Hov
    by (apply team_columns_keep; [by repeat constructor|apply overall_in_scored]).
  assert (∀ ls, ls ∈ team_rows d1 headcount picked →
            ∃ lr q, lr ∈ body f ∧ ls.1 = lr.1
                    ∧ ls.2 !! "Overall" = Some (CNum q) ∧ (q == overall_formula f lr.2)%Q)
    as Hrow.
  { intros ls Hls. by apply scored_row_overall, (candidates_sub _ required_roles
      restrict_to_roles), team_rows_sub with headcount picked. }
  split.
  - intros lr' (ls & -> & Hls)%list_elem_of_fmap.
    destruct (Hrow ls Hls) as (lr & q & Hlr & Hl & Hq & Hqe).
    exists lr. split; [done|]. split; [done|]. exists q. split; [|done].
    unfold project. cbn [snd]. by rewrite restricted_row_lookup.
  - apply (StronglySorted_fmap (row_le overall_desc)).
    + intros x y Hx Hy Hxy%row_le_single.
      destruct (Hrow x Hx) as (? & qx & _ & _ & Hqx & _).
      destruct (Hrow y Hy) as (? & qy & _ & _ & Hqy & _).
      unfold by_overall.
      rewrite (overall_of_lookup (project _ y) qy), (overall_of_lookup (project _ x) qx);
        [|unfold project; cbn [snd]; by rewrite restricted_row_lookup..].
      apply key_compare_desc. unfold cell_at in Hxy. by rewrite Hqx, Hqy in Hxy.
    + apply team_rows_sorted; [|done]. apply rankable_candidates, rankable_scored.
Qed.

Lemma filter_all {A} (P : A → Prop) `{!∀ x, Decision (P x)} (l : list A) :
  (∀ x, x ∈ l → P x) → filter P l = l.
Proof.
  induction l as [|x l IH]; intros Hall; [done|].
  rewrite filter_cons, decide_True by (apply Hall; by left).
  f_equal. apply IH. intros y Hy. apply Hall. by right.
Qed.

Lemma Sorted_take {A} (R : A → A → Prop) n l : Sorted R l → Sorted R (take n l).
Proof.
  intros Hs. revert n. induction Hs as [|x l Hs IH Hhd]; intros [|n]; simpl; try constructor.
  - apply IH.
  - destruct Hhd as [|y l]; destruct n; simpl; by constructor.
Qed.

Lemma team_rows_unforced d headcount :
  (0 ≤ headcount)%Z →
  team_rows d headcount [] = take (Z.to_nat headcount) (sort_rows overall_desc (body d)).
Proof.
  intros Hh. unfold team_rows. cbv zeta. rewrite head_take by done.
  unfold pd_concat. cbn [body length fmap list_fmap concat app].
  rewrite head_take by lia. cbn [body].
  rewrite (filter_all _ (body d)) by (intros ? _ ?%elem_of_nil; done).
  replace (Z.to_nat (0 `max` (headcount - Z.of_nat 0))) with (Z.to_nat headcount) by lia.
  rewrite sort_rows_of_sorted by apply Sorted_take, sort_rows_sorted.
  rewrite take_take. f_equal. lia.
Qed.

(** X12.  Without required roles the team is the best of the table: it
    has min(headcount, rows) rows, and nobody left out has a higher
    Overall score than anybody selected. *)
Theorem team_takes_the_best
    (σ : store) (df : ref) (f : frame) (headcount : Z) (restrict_to_roles : bool) :
  σ !! df = Some f →
  categorical_columns ⊆ columns f →
  (0 ≤ headcount)%Z →
  ∃ team : frame,
    select_best_team df headcount None restrict_to_roles σ
    = (Ok team, σ ++ [derived f; scored f])
    ∧ length (body team) = Z.to_nat headcount `min` length (body f)
    ∧ ∀ lr lr', lr ∈ body f → lr.1 ∉ labels team → lr' ∈ body team →
        (overall_formula f lr.2 <= overall_of lr')%Q.
Proof.
  intros Hf Hc Hh. rewrite (run_select_best_team σ df f) by done.
  rewrite (run_pick_team _ _ _ _ []);
    [|apply overall_in_scored|apply rankable_scored|done
     |by rewrite andb_false_l|by intros ? ?%elem_of_nil].
  eexists. split; [done|]. cbn [body].
  fold (project (team_columns (columns (scored f)))).
  assert (candidates (scored f) None restrict_to_roles = scored f) as ->
    by (unfold candidates; by rewrite andb_false_r).
  rewrite team_rows_unforced by done.
  set (S := sort_rows overall_desc (body (scored f))).
  split.
  - rewrite length_fmap, length_take. unfold S. rewrite length_sort_rows.
    unfold scored, rowmap. cbn [body]. by rewrite length_fmap.
  - intros lr lr' Hlr Hout (x & -> & Hx)%list_elem_of_fmap.
    destruct (scored_row_of f lr Hlr) as (ls & q & Hls & Hl & Hq & Hqe).
    assert (ls ∈ drop (Z.to_nat headcount) S) as Hdrop.
    { assert (ls ∈ take (Z.to_nat headcount) S ++ drop (Z.to_nat headcount) S) as Hin
        by (rewrite take_drop; unfold S; by rewrite sort_rows_perm).
      apply elem_of_app in Hin as [Hin|Hin]; [|done].
      destruct Hout. unfold labels. cbn [body]. rewrite <- list_fmap_compose, <- Hl.
      by apply (list_elem_of_fmap_2 (fst ∘ project _)). }
    assert (StronglySorted (row_le overall_desc) S) as Hss
      by apply sort_rows_strongly_sorted, rankable_numeric_keys, rankable_scored.
    pose proof (StronglySorted_take_drop _ _ _ _ _ Hss Hx Hdrop) as Hxy.
    apply row_le_single in Hxy.
    assert (x ∈ body (scored f)) as Hxs
      by (apply subseteq_take in Hx; unfold S in Hx; by rewrite sort_rows_perm in Hx).
    destruct (scored_row_overall f x Hxs) as (? & qx & _ & _ & Hqx & _).
    rewrite (overall_of_lookup (project _ x) qx).
    + rewrite <- Hqe. apply key_compare_desc. unfold cell_at in Hxy.
      by rewrite Hqx, Hq in Hxy.
    + unfold project. cbn [snd]. rewrite restricted_row_lookup; [done|].
      apply team_columns_keep; [by repeat constructor|apply overall_in_scored].
Qed.

(** ** Enriching twice *)

Lemma derived_columns_idem cols : derived_columns (derived_columns cols) = derived_columns cols.
Proof.
  assert (∀ c, c ∈ derived_names → add_column (derived_columns cols) c = derived_columns cols)
    as Hadd.
  { intros c Hc. unfold add_column. rewrite decide_True; [done|].
    apply in_derived_columns. by right. }
  unfold derived_columns at 1. unfold derived_names. simpl.
  rewrite !Hadd; [done|by repeat constructor..].
Qed.

Lemma derived_row_idem has r : derived_row has (derived_row has r) = derived_row has r.
Proof.
  unfold derived_row at 1.
  rewrite !(derived_row_other has) by not_in_names.
  unfold derived_row. apply map_eq. intros c.
  destruct (decide (c = "Attrition_Score")) as [->|]; [by rewrite !lookup_insert_eq|].
  rewrite !(lookup_insert_ne _ "Attrition_Score") by done.
  destruct (decide (c = "Readiness_Score")) as [->|]; [by rewrite !lookup_insert_eq|].
  rewrite !(lookup_insert_ne _ "Readiness_Score") by done.
  destruct (decide (c = "Leadership_Score")) as [->|]; [by rewrite !lookup_insert_eq|].
  rewrite !(lookup_insert_ne _ "Leadership_Score") by done.
  destruct (decide (c = "Medical_Score")) as [->|]; [by rewrite !lookup_insert_eq|].
  by rewrite !lookup_insert_ne by done.
Qed.

Lemma derived_idem f : derived (derived f) = derived f.
Proof.
  unfold derived at 1. unfold rowmap.
  assert (bool_decide ("Attrition_Risk" ∈ columns (derived f))
          = bool_decide ("Attrition_Risk" ∈ columns f)) as ->.
  { apply bool_decide_ext. unfold derived, rowmap. cbn [columns].
    rewrite in_derived_columns. split; [|by left]. intros [?|Hd]; [done|].
    assert ("Attrition_Risk" ∉ derived_names) by not_in_names. done. }
  unfold derived, rowmap. cbn [columns body]. rewrite derived_columns_idem. f_equal.
  rewrite <- list_fmap_compose. apply list_fmap_ext. intros _ lr _. simpl.
  by rewrite derived_row_idem.
Qed.

(** X1.  Enriching an enriched table changes nothing: on a table with the
    three categorical columns, [add_derived_columns] applied to its own
    result returns a copy equal to that result (the same columns in the
    same order, the same cells). *)
Theorem enrich_twice_changes_nothing (σ : store) (df : ref) (f : frame) :
  σ !! df = Some f →
  categorical_columns ⊆ columns f →
  ∃ d : frame,
    add_derived_columns df σ = (Ok (length σ), σ ++ [d])
    ∧ add_derived_columns (length σ) (σ ++ [d]) = (Ok (S (length σ)), σ ++ [d; d]).
Proof.
  intros Hf Hc. exists (derived f). split; [by apply run_add_derived_columns|].
  rewrite (run_add_derived_columns (σ ++ [derived f]) (length σ) (derived f)).
  - rewrite derived_idem, length_app, <- app_assoc. simpl. do 2 f_equal. lia.
  - apply lookup_last.
  - intros c Hcin. apply in_derived_columns. left. by apply Hc.
Qed.

(** ** The skill gap of the redeployment analysis *)

Lemma getitem_inv f c s :
  getitem f c = Ok s → c ∈ columns f ∧ s = (λ lr, cell_at c lr.2) <$> body f.
Proof. unfold getitem. destruct (decide (c ∈ columns f)); [|done]. by intros [= <-]. Qed.

Lemma str_search_fmap {A} re (G : A → cell) (l : list A) :
  str_search re (G <$> l)
  = (λ x, match G x with CStr v => re v | _ => false end) <$> l.
Proof. unfold str_search. by rewrite <- list_fmap_compose. Qed.

Lemma filter_filter_neg {A} (h : A → bool) (l : list A) :
  filter (λ x, h x = true) (filter (λ x, negb (h x) = true) l) = [].
Proof.
  induction l as [|x l IH]; [done|]. rewrite (filter_cons (λ x, negb (h x) = true)).
  destruct (decide (negb (h x) = true)) as [Hn|Hn]; [|done].
  rewrite filter_cons, decide_False; [done|]. by destruct (h x).
Qed.

(** X18.  The skill gap that the redeployment analysis reports is always
    0: it counts, among the rows whose skill does not match the pattern,
    those whose skill matches it. *)
Theorem skill_gap_is_always_zero (dv : frame) (from_skill : string) (n : nat) :
  skill_gap dv from_skill = Ok n → n = 0.
Proof.
  unfold skill_gap. intros H.
  apply res_bind_inv in H as (ps & [Hc ->]%getitem_inv & H).
  apply res_bind_inv in H as (re & Hre & H). cbv zeta in H.
  rewrite str_search_fmap, <- list_fmap_compose, df_mask_fmap in H.
  rewrite getitem_ok in H by done. cbn [mbind res_bind body] in H.
  rewrite Hre in H. cbn [mbind res_bind] in H.
  rewrite str_search_fmap, df_mask_fmap in H. cbn [body] in H.
  injection H as <-.
  by rewrite (filter_filter_neg
    (λ lr, match cell_at "Primary_Skill" lr.2 with CStr v => re v | _ => false end)).
Qed.

(** ** Numbers and roles read from the query *)

Lemma digit_val_bounds a : is_digit a = true → (0 ≤ digit_val a ≤ 9)%Z.
Proof.
  unfold is_digit, digit_val. intros [H1 H2]%andb_true_iff.
  apply Nat.leb_le in H1, H2. lia.
Qed.

Lemma take_digits_digits n s :
  Forall (λ a, is_digit a = true) (list_ascii_of_string (take_digits n s)).
Proof.
  revert s. induction n as [|n IH]; intros [|a s]; simpl; try constructor.
  destruct (is_digit a) eqn:Ha; simpl; [|constructor]. constructor; [done|apply IH].
Qed.

Lemma take_digits_length n s : String.length (take_digits n s) ≤ n.
Proof.
  revert s. induction n as [|n IH]; intros [|a s]; simpl; try lia.
  destruct (is_digit a); simpl; [|lia]. specialize (IH s). lia.
Qed.

Lemma int_of_digits_bounds s :
  Forall (λ a, is_digit a = true) (list_ascii_of_string s) →
  (0 ≤ int_of_digits s < 10 ^ Z.of_nat (String.length s))%Z.
Proof.
  unfold int_of_digits.
  assert (∀ l acc k, Forall (λ a, is_digit a = true) l → (0 ≤ acc < 10 ^ k)%Z → (0 ≤ k)%Z →
            (0 ≤ fold_left (λ acc a, 10 * acc + digit_val a) l acc
               < 10 ^ (k + Z.of_nat (length l)))%Z) as Hgen.
  { induction l as [|a l IH]; intros acc k Hd Hacc Hk; cbn [fold_left length].
    - by rewrite Z.add_0_r.
    - apply Forall_cons in Hd as [Ha Hd]. apply digit_val_bounds in Ha.
      replace (k + Z.of_nat (S (length l)))%Z
        with ((k + 1) + Z.of_nat (length l))%Z by lia.
      apply IH; [done| |lia]. rewrite Z.pow_add_r by lia. lia. }
  intros Hd. specialize (Hgen (list_ascii_of_string s) 0%Z 0%Z Hd).
  assert (length (list_ascii_of_string s) = String.length s) as Hlen
    by (clear; induction s; simpl; congruence).
  rewrite Hlen in Hgen. apply Hgen; lia.
Qed.

Lemma search_2digits_spec s m :
  search_2digits s = Some m →
  String.length m = 2 ∧ Forall (λ a, is_digit a = true) (list_ascii_of_string m)
  ∧ ∃ pre post, s = (pre +:+ m +:+ post)%string.
Proof.
  induction s as [|a s IH]; [done|]. simpl. destruct s as [|b s]; [done|].
  destruct (is_digit a && is_digit b) eqn:Hd.
  - intros [= <-]. apply andb_true_iff in Hd as [Ha Hb]. split; [done|]. split.
    + by repeat constructor.
    + by exists EmptyString, s.
  - intros (Hlen & Hdig & pre & post & Hs)%IH. split; [done|]. split; [done|].
    exists (String a pre), post. by rewrite Hs.
Qed.

Lemma take_digits_prefix n s : ∃ post, s = (take_digits n s +:+ post)%string.
Proof.
  revert s. induction n as [|n IH]; intros [|a s]; simpl; try by eexists.
  destruct (is_digit a); [|by eexists]. destruct (IH s) as (post & Hs).
  exists post. change (String a s = String a (take_digits n s +:+ post)). by f_equal.
Qed.

Lemma search_1to3digits_spec s m :
  search_1to3digits s = Some m →
  1 ≤ String.length m ≤ 3 ∧ Forall (λ a, is_digit a = true) (list_ascii_of_string m)
  ∧ ∃ pre post, s = (pre +:+ m +:+ post)%string.
Proof.
  revert m. induction s as [|a s IH]; intros m; [done|]. cbn [search_1to3digits].
  destruct (is_digit a) eqn:Ha.
  - intros Hm. clear IH.
    assert (m = String a (take_digits 2 s)) as ->.
    { injection Hm as <-. cbn [take_digits]. by rewrite Ha. }
    split; [|split].
    + pose proof (take_digits_length 2 s). cbn [String.length]. lia.
    + constructor; [done|]. apply take_digits_digits.
    + destruct (take_digits_prefix 2 s) as (post & Hs).
      exists EmptyString, post.
      change (String a s = String a (take_digits 2 s +:+ post)). by f_equal.
  - intros (Hlen & Hdig & pre & post & Hs)%IH. split; [done|]. split; [done|].
    exists (String a pre), post. by rewrite Hs.
Qed.

Lemma search_2digits_first s m :
  search_2digits s = Some m →
  ∃ pre a b,
    m = String a (String b EmptyString)
    ∧ digit_pair_at s pre a b
    ∧ ∀ pre' a' b', digit_pair_at s pre' a' b' → String.length pre ≤ String.length pre'.
Proof.
  induction s as [|a s IH]; [done|]. cbn [search_2digits]. destruct s as [|b s]; [done|].
  destruct (is_digit a && is_digit b) eqn:Hd.
  - intros [= <-]. apply andb_true_iff in Hd as [Ha Hb].
    exists EmptyString, a, b. split; [done|]. split; [by exists s|].
    intros. simpl. lia.
  - intros (pre & a0 & b0 & -> & (post & Hs & Ha0 & Hb0) & Hmin)%IH.
    exists (String a pre), a0, b0. split; [done|]. split.
    + exists post. by rewrite Hs.
    + intros pre' a' b' (post' & Hs' & Ha' & Hb').
      destruct pre' as [|c pre'].
      * injection Hs' as -> -> _. by rewrite Ha', Hb' in Hd.
      * injection Hs' as _ Hs'. cbn [String.length].
        specialize (Hmin pre' a' b'). apply le_n_S, Hmin. by exists post'.
Qed.

Lemma search_2digits_none s : search_2digits s = None → ¬ has_digit_pair s.
Proof.
  induction s as [|a s IH]; cbn [search_2digits].
  - intros _ (pre & a' & b' & post & Hs & _). by destruct pre.
  - destruct s as [|b s].
    + intros _ (pre & a' & b' & post & Hs & _).
      destruct pre as [|c pre]; [done|]. injection Hs as _ Hs. by destruct pre.
    + destruct (is_digit a && is_digit b) eqn:Hd; [done|].
      intros Hn%IH (pre & a' & b' & post & Hs & Ha' & Hb').
      destruct pre as [|c pre].
      * injection Hs as -> -> _. by rewrite Ha', Hb' in Hd.
      * injection Hs as _ Hs. apply Hn. by exists pre, a', b', post.
Qed.

Lemma int_of_digits_decimal s :
  int_of_digits s = decimal_value (list_ascii_of_string s).
Proof.
  unfold int_of_digits.
  assert (∀ l acc,
            fold_left (λ acc a, 10 * acc + digit_val a)%Z l acc
            = (acc * 10 ^ Z.of_nat (length l) + decimal_value l)%Z) as Hgen.
  { induction l as [|a l IH]; intros acc; cbn [fold_left decimal_value length].
    - rewrite Z.pow_0_r. lia.
    - rewrite IH. rewrite Nat2Z.inj_succ, Z.pow_succ_r by lia. lia. }
  rewrite Hgen. lia.
Qed.

Lemma take_digits_split n s :
  ∃ post, s = take_digits n s +:+ post
          ∧ (String.length (take_digits n s) < n → ¬ starts_with_digit post).
Proof.
  revert s. induction n as [|n IH]; intros [|a s]; cbn [take_digits].
  - exists EmptyString. split; [done|]. simpl. lia.
  - exists (String a s). split; [done|]. simpl. lia.
  - exists EmptyString. split; [done|]. by intros _ [].
  - destruct (is_digit a) eqn:Ha.
    + destruct (IH s) as (post & Hs & Hstop). exists post. split.
      * change (String a s = String a (take_digits n s +:+ post)). by f_equal.
      * cbn [String.length]. intros Hlt. apply Hstop. lia.
    + exists (String a s). split; [done|]. intros _. simpl. by rewrite Ha.
Qed.

Lemma search_1to3digits_first s m :
  search_1to3digits s = Some m → first_digit_run s (int_of_digits m).
Proof.
  revert m. induction s as [|a s IH]; intros m; [done|]. cbn [search_1to3digits].
  destruct (is_digit a) eqn:Ha.
  - intros [= <-]. destruct (take_digits_split 3 (String a s)) as (post & Hs & Hstop).
    exists EmptyString, (take_digits 3 (String a s)), post.
    split; [exact Hs|]. split; [constructor|]. split.
    { cbn [take_digits]. by rewrite Ha. }
    split; [apply take_digits_digits|]. split; [apply take_digits_length|].
    split; [exact Hstop|apply int_of_digits_decimal].
  - intros (pre & m' & post & Hs & Hpre & Hne & Hd & Hlen & Hstop & Hn)%IH.
    exists (String a pre), m', post. split; [by rewrite Hs|].
    split; [by constructor|done].
Qed.

Lemma search_1to3digits_none s : search_1to3digits s = None → no_digit s.
Proof.
  induction s as [|a s IH]; cbn [search_1to3digits]; [constructor|].
  destruct (is_digit a) eqn:Ha; [done|]. intros Hn%IH. by constructor.
Qed.

Lemma cell_eqb_refl c : cell_eqb c c = true.
Proof. destruct c; simpl; [done|apply Qeq_bool_refl|by apply bool_decide_eq_true]. Qed.

Lemma NoDup_unique s : NoDup (unique s).
Proof.
  induction s as [|c s IH]; simpl; [constructor|]. constructor.
  - intros [Hc _]%list_elem_of_filter. by rewrite cell_eqb_refl in Hc.
  - by apply NoDup_filter.
Qed.

Lemma elem_of_unique_str k s : CStr k ∈ unique s ↔ CStr k ∈ s.
Proof.
  split; [apply elem_of_unique|]. induction s as [|c s IH]; [done|].
  intros [<-|H]%elem_of_cons; simpl; [by left|].
  destruct (cell_eqb c (CStr k)) eqn:Hc.
  - destruct c as [|q|t]; try done. simpl in Hc.
    apply bool_decide_eq_true in Hc as ->. by left.
  - right. apply list_elem_of_filter. split; [done|by apply IH].
Qed.

Lemma elem_of_dropna_str k s : CStr k ∈ dropna s ↔ CStr k ∈ s.
Proof. unfold dropna. rewrite list_elem_of_filter. by split; [intros [_ ?]|intros ?]. Qed.

Lemma named_skills_spec skills text_low roles :
  named_skills skills text_low = Ok roles →
  NoDup skills →
  NoDup roles
  ∧ ∀ role, role ∈ roles ↔ CStr role ∈ skills ∧ py_in (lower role) text_low = true.
Proof.
  revert roles. induction skills as [|c skills IH]; intros roles.
  - intros [= <-] _. split; [constructor|]. intros role. split; [by intros ?%elem_of_nil|].
    by intros [?%elem_of_nil _].
  - destruct c as [|q|s]; try done. cbn [named_skills].
    intros (rest & Hrest & [= <-])%res_bind_inv [Hnotin Hnd]%NoDup_cons.
    destruct (IH rest Hrest Hnd) as [Hndr Hiff].
    destruct (py_in (lower s) text_low) eqn:Hin.
    + split.
      * constructor; [|done]. intros [Hs _]%Hiff. done.
      * intros role. rewrite !elem_of_cons, Hiff. split.
        -- intros [->|[? ?]]; [by split; [left|]|]. split; [by right|done].
        -- intros [[[= ->]|?] ?]; [by left|by right].
    + split; [done|]. intros role. rewrite elem_of_cons, Hiff. split.
      * intros [? ?]. split; [by right|done].
      * intros [[[= ->]|?] ?]; [congruence|done].
Qed.

(** X14.  In the training branch of an ASCII query the threshold is the
    number written by the leftmost two adjacent digits of the text (so
    that a typed 100 is read as 10, and a lone digit is not read), 60
    when no two digits are adjacent; it lies between 0 and 99, the
    answer is the training report for it, and the action names it. *)
Theorem training_branch_reads_two_digits
    (σ σ' : store) (df : ref) (text : string) (r : result) :
  ascii_text text →
  training_query (lower text) →
  what_if_simulation df text σ = (Ok r, σ') →
  ∃ (thresh : Z) (tab : frame),
    (first_digit_pair (lower text) thresh
     ∨ (¬ has_digit_pair (lower text) ∧ thresh = 60%Z))
    ∧ (0 ≤ thresh ≤ 99)%Z
    ∧ who_needs_training df thresh σ = (Ok tab, σ')
    ∧ r = Result text ("show_training_below_" +:+ pretty thresh) [] (to_records tab).
Proof.
  intros _ (H1 & H2 & H3 & H4 & H5 & H6) Hrun.
  unfold what_if_simulation in Hrun. cbv zeta in Hrun.
  rewrite H1, H2, H3, H4, H5, H6 in Hrun.
  apply bind_ok_inv in Hrun as (tab & σ1 & Htab & Hret).
  injection Hret as <- <-.
  eexists _, tab. split; [|split; [|split; [exact Htab|done]]].
  - destruct (search_2digits (lower text)) as [m|] eqn:Hm.
    + left. destruct (search_2digits_first _ _ Hm) as (pre & a & b & -> & Hat & Hmin).
      exists pre, a, b. split; [done|]. split; [done|].
      unfold int_of_digits. cbn [list_ascii_of_string fold_left]. lia.
    + right. split; [by apply search_2digits_none|done].
  - destruct (search_2digits (lower text)) as [m|] eqn:Hm; [|lia].
    apply search_2digits_spec in Hm as (Hlen & Hdig & _).
    pose proof (int_of_digits_bounds m Hdig) as Hb. rewrite Hlen in Hb.
    change (10 ^ Z.of_nat 2)%Z with 100%Z in Hb. lia.
Qed.

(** X15.  In the team branch of an ASCII query over a table of ASCII
    skills, the headcount is the number written by the first digits of
    the text, the leftmost run of digits cut after three, and 10 when
    the text has no digit (so 0 to 999); the required roles are the
    skills of the table whose lower-cased name occurs in the text, each
    once; the team is selected without restriction and has at most that
    many rows. *)
Theorem team_branch_names_distinct_roles
    (σ σ' : store) (df : ref) (f : frame) (text : string) (r : result) :
  σ !! df = Some f →
  ascii_text text →
  ascii_column f "Primary_Skill" →
  team_query (lower text) →
  what_if_simulation df text σ = (Ok r, σ') →
  ∃ (n : Z) (roles : list string) (team : frame),
    (first_digit_run (lower text) n ∨ (no_digit (lower text) ∧ n = 10%Z))
    ∧ (0 ≤ n ≤ 999)%Z
    ∧ NoDup roles
    ∧ (∀ role, role ∈ roles ↔
         (∃ lr, lr ∈ body f ∧ cell_at "Primary_Skill" lr.2 = CStr role)
         ∧ py_in (lower role) (lower text) = true)
    ∧ select_best_team df n (match roles with [] => None | _ => Some roles end) false σ
      = (Ok team, σ')
    ∧ r = Result text "select_team" [] (to_records team)
    ∧ length (data r) ≤ Z.to_nat n.
Proof.
  intros Hf _ _ (H1 & H2 & H3 & H4 & H5 & H6 & H7 & H8) Hrun.
  unfold what_if_simulation in Hrun. cbv zeta in Hrun.
  rewrite H1, H2, H3, H4, H5, H6, H7, H8 in Hrun.
  erewrite bind_run in Hrun by by apply run_read.
  apply bind_ok_inv in Hrun as (s & σ1 & Hs & Hrun).
  unfold lift in Hs. injection Hs as Hs <-. apply getitem_inv in Hs as [Hps ->].
  apply bind_ok_inv in Hrun as (roles & σ1 & Hroles & Hrun).
  unfold lift in Hroles. injection Hroles as Hroles <-.
  apply bind_ok_inv in Hrun as (team & σ1 & Hteam & Hret).
  injection Hret as <- <-.
  apply named_skills_spec in Hroles as [Hnd Hiff]; [|apply NoDup_unique].
  set (n := match search_1to3digits (lower text) with
            | Some m => int_of_digits m | None => 10%Z end) in *.
  assert (0 ≤ n ≤ 999)%Z as Hn.
  { unfold n. destruct (search_1to3digits (lower text)) as [m|] eqn:Hm; [|lia].
    apply search_1to3digits_spec in Hm as (Hlen & Hdig & _).
    pose proof (int_of_digits_bounds m Hdig) as Hb.
    assert (10 ^ Z.of_nat (String.length m) ≤ 10 ^ 3)%Z
      by (apply Z.pow_le_mono_r; lia).
    lia. }
  exists n, roles, team. split; [|split; [done|split; [done|split; [|split; [done|split; [done|]]]]]].
  - unfold n. destruct (search_1to3digits (lower text)) as [m|] eqn:Hm.
    + left. by apply search_1to3digits_first.
    + right. split; [by apply search_1to3digits_none|done].
  - intros role. rewrite Hiff, elem_of_unique_str, elem_of_dropna_str, list_elem_of_fmap.
    split.
    + intros [(lr & Hlr & Hin) Hpy]. split; [|done]. by exists lr.
    + intros [(lr & Hin & Hlr) Hpy]. split; [|done]. by exists lr.
  - cbn [data]. rewrite to_records_length.
    eapply select_best_team_length; [|exact Hteam]. lia.
Qed.

(** ** The scenario router *)

Ltac res_inv H :=
  repeat (apply res_bind_inv in H as (? & _ & H); cbv zeta in H).

Lemma lift_ok_inv {A} (m : res A) σ a σ' : lift m σ = (Ok a, σ') → m = Ok a.
Proof. unfold lift. by intros [= -> _]. Qed.

Lemma retirement_action df text_low σ s σ' :
  _analyze_retirement_scenario df text_low σ = (Ok s, σ') → s_action s = "retirement_impact".
Proof.
  unfold _analyze_retirement_scenario. intros H.
  apply bind_ok_inv in H as (? & ? & _ & H).
  apply bind_ok_inv in H as (? & ? & _ & H).
  apply bind_ok_inv in H as (? & ? & _ & H).
  apply lift_ok_inv in H. res_inv H. by injection H as <-.
Qed.

Lemma redeployment_action df text_low σ s σ' :
  _analyze_redeployment_scenario df text_low σ = (Ok s, σ') →
  s_action s = "redeployment_impact".
Proof.
  unfold _analyze_redeployment_scenario. intros H.
  apply bind_ok_inv in H as (? & ? & _ & H).
  apply bind_ok_inv in H as (? & ? & _ & H).
  apply bind_ok_inv in H as (? & ? & _ & H).
  apply bind_ok_inv in H as (? & ? & _ & H). cbv zeta in H.
  apply bind_ok_inv in H as (? & ? & _ & H).
  apply lift_ok_inv in H. res_inv H. by injection H as <-.
Qed.

Lemma grounding_action df text_low σ s σ' :
  _analyze_grounding_scenario df text_low σ = (Ok s, σ') → s_action s = "grounding_impact".
Proof.
  unfold _analyze_grounding_scenario. intros H.
  apply bind_ok_inv in H as (? & ? & _ & H).
  apply bind_ok_inv in H as (? & ? & _ & H).
  apply lift_ok_inv in H. res_inv H. by injection H as <-.
Qed.

Lemma promotion_action df text_low σ s σ' :
  _analyze_promotion_scenario df text_low σ = (Ok s, σ') → s_action s = "promotion_impact".
Proof.
  unfold _analyze_promotion_scenario. intros H.
  apply bind_ok_inv in H as (? & ? & _ & H).
  apply bind_ok_inv in H as (? & ? & _ & H).
  apply lift_ok_inv in H. res_inv H. by injection H as <-.
Qed.

Lemma budget_action df text_low σ s σ' :
  _analyze_budget_scenario df text_low σ = (Ok s, σ') → s_action s = "budget_impact".
Proof.
  unfold _analyze_budget_scenario. intros H.
  apply bind_ok_inv in H as (? & ? & _ & H).
  apply bind_ok_inv in H as (? & ? & _ & H).
  apply lift_ok_inv in H. res_inv H. by injection H as <-.
Qed.

(** X13.  The router is a priority table: the answer of
    [what_if_simulation] echoes the query as typed, and its action is
    the tag of the first scenario of [scenario_table] one of whose
    keywords occurs in the lower-cased text, whatever else the text
    says; when no scenario keyword occurs the action is that of the
    training, leadership, team or attrition branch. *)
Theorem scenario_keywords_take_priority
    (σ σ' : store) (df : ref) (text : string) (r : result) :
  what_if_simulation df text σ = (Ok r, σ') →
  query r = text
  ∧ match first_scenario scenario_table (lower text) with
    | Some tag => action r = tag
    | None =>
        action r ∈ ["show_leadership"; "select_team"; "show_attrition"]
        ∨ ∃ thresh : Z, action r = "show_training_below_" +:+ pretty thresh
    end.
Proof.
  unfold what_if_simulation. cbv zeta. cbn [first_scenario scenario_table].
  intros H.
  repeat match type of H with
  | (if ?b then _ else _) _ = _ => destruct b
  end;
  repeat (apply bind_ok_inv in H as (? & ? & ? & H));
  injection H as <- <-; (split; [done|]); cbn [action update];
  first [ by eapply retirement_action | by eapply redeployment_action
        | by eapply grounding_action | by eapply promotion_action
        | by eapply budget_action
        | right; by eexists
        | left; by repeat constructor
        | left; right; by repeat constructor
        | left; right; right; by repeat constructor ].
Qed.

(** ** The grounding scenario *)



Lemma and_mask_fmap {A} (g1 g2 : A → bool) (l : list A) :
  and_mask (g1 <$> l) (g2 <$> l) = (λ x, g1 x && g2 x) <$> l.
Proof. apply zip_with_fmap_same. Qed.

Lemma isin_fmap {A} vals (G : A → cell) (l : list A) :
  isin vals (G <$> l) = (λ x, isin_cell vals (G x)) <$> l.
Proof. unfold isin. by rewrite <- list_fmap_compose. Qed.


(** ** The promotion scenario *)

Lemma rated_exclusive lr : rated "Good" lr = true → rated "Excellent" lr = true → False.
Proof.
  unfold rated. destruct (cell_at "Performance_Rating" lr.2); try done. simpl.
  intros ->%bool_decide_eq_true. done.
Qed.

Lemma candidate_compare x y :
  candidate_row x → candidate_row y →
  keys_compare leadership_keys x.2 y.2
  = if rated "Excellent" x && rated "Good" y then Gt
    else if rated "Good" x && rated "Excellent" y then Lt else Eq.
Proof.
  unfold candidate_row, rated, leadership_keys. intros [Hx Hrx] [Hy Hry].
  cbn [keys_compare]. rewrite Hx, Hy.
  destruct (cell_at "Performance_Rating" x.2) as [| |rx],
           (cell_at "Performance_Rating" y.2) as [| |ry];
    simpl in Hrx, Hry; try (by destruct Hrx); try (by destruct Hry).
  destruct Hrx as [->%bool_decide_eq_true| ->%bool_decide_eq_true],
           Hry as [->%bool_decide_eq_true| ->%bool_decide_eq_true]; by vm_compute.
Qed.

Lemma insert_candidate x goods excs :
  candidate_row x →
  Forall (λ lr, candidate_row lr ∧ rated "Good" lr = true) goods →
  Forall (λ lr, candidate_row lr ∧ rated "Excellent" lr = true) excs →
  insert_row leadership_keys x (goods ++ excs)
  = if rated "Good" x then x :: goods ++ excs else goods ++ x :: excs.
Proof.
  intros Hx Hg He. induction Hg as [|y goods [Hy Hyg] Hg IH].
  - cbn [app]. destruct He as [|y excs [Hy Hye] He]; cbn [insert_row];
      [by destruct (rated "Good" x)|].
    rewrite candidate_compare by done. rewrite Hye.
    destruct (rated "Good" y) eqn:Hyg; [by destruct (rated_exclusive y)|].
    rewrite andb_false_r, andb_true_r. by destruct (rated "Good" x).
  - cbn [app insert_row]. rewrite candidate_compare by done. rewrite Hyg.
    destruct (rated "Excellent" y) eqn:Hye; [by destruct (rated_exclusive y)|].
    rewrite andb_false_r, andb_true_r.
    destruct (rated "Excellent" x) eqn:Hxe.
    + rewrite IH. destruct (rated "Good" x) eqn:Hxg; [by destruct (rated_exclusive x)|done].
    + destruct Hx as [_ [Hxg|?]]; [|congruence]. by rewrite Hxg.
Qed.

Lemma sort_candidates rows :
  Forall candidate_row rows →
  sort_rows leadership_keys rows
  = filter (λ lr, rated "Good" lr = true) rows
    ++ filter (λ lr, rated "Excellent" lr = true) rows.
Proof.
  unfold sort_rows. induction 1 as [|x rows Hx Hrows IH]; [done|].
  cbn [foldr]. rewrite IH, insert_candidate; [|done|..].
  - rewrite !filter_cons. destruct (rated "Good" x) eqn:Hxg.
    + rewrite decide_True by done.
      destruct (decide (rated "Excellent" x = true)) as [Hxe|Hxe];
        [by destruct (rated_exclusive x)|done].
    + rewrite decide_False by congruence.
      destruct Hx as [? [?|Hxe]]; [congruence|]. by rewrite decide_True by done.
  - apply Forall_forall. intros lr [Hlr Hin]%list_elem_of_filter. split; [|done].
    rewrite Forall_forall in Hrows. by apply Hrows.
  - apply Forall_forall. intros lr [Hlr Hin]%list_elem_of_filter. split; [|done].
    rewrite Forall_forall in Hrows. by apply Hrows.
Qed.

Lemma run_promotion σ df f text_low :
  σ !! df = Some f →
  categorical_columns ⊆ columns f →
  promotion_columns ⊆ columns f →
  numeric_column f "Years_of_Service" →
  _analyze_promotion_scenario df text_low σ
  = (Ok (Scenario "promotion_impact" promotion_advice
           ((λ lr, record_of promotion_columns lr.2)
              <$> (filter (λ lr, promotable lr && rated "Good" lr = true) (body f)
                   ++ filter (λ lr, promotable lr && rated "Excellent" lr = true) (body f)))),
     σ ++ [derived f]).
Proof.
  intros Hf Hc Hcols Hyos. unfold _analyze_promotion_scenario.
  erewrite bind_run by by apply run_add_derived_columns.
  erewrite bind_run by apply run_read, lookup_last.
  unfold lift. f_equal.
  assert (∀ c, c ∈ promotion_columns → c ∈ columns (derived f)) as Hin.
  { intros c Hcin. apply in_derived_columns. left. by apply Hcols. }
  rewrite !getitem_ok by (apply Hin; by repeat constructor).
  cbn [mbind res_bind].
  rewrite cmp_scalar_plain by (apply derived_numeric; [done|not_in_names]).
  cbn [mbind res_bind]. rewrite !isin_fmap, !and_mask_fmap, df_mask_fmap.
  set (rows := filter _ (body (derived f))).
  assert (Forall candidate_row rows) as Hcand.
  { apply Forall_forall. intros lr [Hlr Hd]%list_elem_of_filter.
    apply andb_true_iff in Hlr as [[Hlp Hpr]%andb_true_iff _].
    split.
    - rewrite (derived_leadership_score f lr Hd).
      destruct (cell_at "Leadership_Potential" lr.2) as [| |k]; try done. simpl in Hlp.
      apply bool_decide_eq_true in Hlp. rewrite !elem_of_cons, elem_of_nil in Hlp.
      by destruct Hlp as [->|[->|[]]].
    - unfold rated. destruct (cell_at "Performance_Rating" lr.2) as [| |k]; try done.
      simpl in *. apply bool_decide_eq_true in Hpr.
      rewrite !elem_of_cons, elem_of_nil in Hpr.
      destruct Hpr as [->|[->|[]]]; [by right|by left]. }
  fold leadership_keys. rewrite sort_values_ok.
  2:{ apply Forall_cons. split; [|apply Forall_cons; split; [|constructor]];
        cbn [fst columns body]; split.
      - apply in_derived_columns. right. by repeat constructor.
      - apply sortable_no_str, Forall_fmap. eapply Forall_impl; [exact Hcand|].
        intros lr [Hls _]. simpl. by rewrite Hls.
      - apply Hin. by repeat constructor.
      - apply sortable_no_num, Forall_fmap. eapply Forall_impl; [exact Hcand|].
        intros lr [_ Hr]. simpl. unfold rated in Hr.
        by destruct (cell_at "Performance_Rating" lr.2), Hr. }
  cbn [mbind res_bind columns body]. rewrite getitem_ok by (apply Hin; by repeat constructor).
  cbn [mbind res_bind]. fold promotion_columns.
  rewrite df_select_ok by (intros c Hcin; by apply Hin).
  cbn [mbind res_bind]. do 2 f_equal. unfold to_records. cbn [body columns].
  rewrite sort_candidates by done. unfold rows. rewrite !list_filter_filter.
  unfold derived, rowmap. cbn [body]. rewrite !filter_fmap, !fmap_app, <- !list_fmap_compose.
  assert (∀ label, label = "Good" ∨ label = "Excellent" →
            ∀ lr : Z * row,
              rated label (lr.1, derived_row (bool_decide ("Attrition_Risk" ∈ columns f)) lr.2)
              = true
              ∧ isin_cell ["High"; "Yes"]
                  (cell_at "Leadership_Potential"
                     (derived_row (bool_decide ("Attrition_Risk" ∈ columns f)) lr.2))
                && isin_cell ["Excellent"; "Good"]
                     (cell_at "Performance_Rating"
                        (derived_row (bool_decide ("Attrition_Risk" ∈ columns f)) lr.2))
                && truth Qgeb 5 CNa
                     (cell_at "Years_of_Service"
                        (derived_row (bool_decide ("Attrition_Risk" ∈ columns f)) lr.2))
                = true
              ↔ promotable lr && rated label lr = true) as Hiff.
  { intros label Hlabel lr. unfold rated, promotable. cbn [snd].
    rewrite !derived_row_other by not_in_names.
    destruct (cell_at "Performance_Rating" lr.2) as [| |k]; simpl;
      [rewrite !andb_false_r; by split; [intros [? ?]|]..|].
    destruct (cell_at "Years_of_Service" lr.2) as [|q|?]; simpl;
      rewrite ?andb_false_r, ?andb_false_l; try (by split; [intros [? ?]|]).
    unfold Qgeb. rewrite !andb_true_iff, !bool_decide_eq_true, !elem_of_cons, elem_of_nil.
    destruct Hlabel as [->| ->]; split.
    - intros [-> [[? _] ?]]. done.
    - intros [[? ?] ->]. split; [done|]. split; [|done]. split; [done|]. by right; left.
    - intros [-> [[? _] ?]]. done.
    - intros [[? ?] ->]. split; [done|]. split; [|done]. split; [done|]. by left. }
  f_equal.
  - erewrite (filter_ext_in _ (λ lr, promotable lr && rated "Good" lr = true))
      by (intros lr _; apply Hiff; by left).
    apply list_fmap_ext. intros _ lr _. unfold record_of, compose. cbn [snd fst].
    apply list_fmap_ext. intros i c Hci. f_equal.
    assert (c ∈ promotion_columns) as Hcin by by eapply list_elem_of_lookup_2.
    unfold cell_at. rewrite restricted_row_lookup by done.
    apply (derived_row_other _ c lr.2).
    unfold promotion_columns in Hcin. rewrite !elem_of_cons, elem_of_nil in Hcin.
    destruct Hcin as [->|[->|[->|[->|[->|[->|[->|[]]]]]]]]; not_in_names.
  - erewrite (filter_ext_in _ (λ lr, promotable lr && rated "Excellent" lr = true))
      by (intros lr _; apply Hiff; by right).
    apply list_fmap_ext. intros _ lr _. unfold record_of, compose. cbn [snd fst].
    apply list_fmap_ext. intros i c Hci. f_equal.
    assert (c ∈ promotion_columns) as Hcin by by eapply list_elem_of_lookup_2.
    unfold cell_at. rewrite restricted_row_lookup by done.
    apply (derived_row_other _ c lr.2).
    unfold promotion_columns in Hcin. rewrite !elem_of_cons, elem_of_nil in Hcin.
    destruct Hcin as [->|[->|[->|[->|[->|[->|[->|[]]]]]]]]; not_in_names.
Qed.


(** X17.  A promotion query lists the rows with leadership potential
    High or Yes, a rating of Good or Excellent and at least five years
    of service.  All of them have leadership score 3, so the descending
    sort on the rating text decides the order: the rows rated Good come
    first, then the rows rated Excellent, each group in table order. *)
Theorem promotion_lists_good_before_excellent
    (σ : store) (df : ref) (f : frame) (text : string) :
  σ !! df = Some f →
  categorical_columns ⊆ columns f →
  promotion_columns ⊆ columns f →
  numeric_column f "Years_of_Service" →
  promotion_query (lower text) →
  what_if_simulation df text σ
  = (Ok (Result text "promotion_impact" promotion_advice
           ((λ lr, record_of promotion_columns lr.2)
              <$> (filter (λ lr, promotable lr && rated "Good" lr = true) (body f)
                   ++ filter (λ lr, promotable lr && rated "Excellent" lr = true) (body f)))),
     σ ++ [derived f]).
Proof.
  intros Hf Hc Hcols Hyos (H1 & H2 & H3 & H4).
  unfold what_if_simulation. cbv zeta. rewrite H1, H2, H3, H4.
  by erewrite bind_run by by apply run_promotion.
Qed.

(** ** Skill groups *)

Lemma unique_dropna_na s : CNa ∉ unique (dropna s).
Proof. intros H%elem_of_unique. unfold dropna in H. by apply list_elem_of_filter in H as [? _]. Qed.

(** X8.  [skill_grouping] partitions the table by primary skill: without
    a Primary_Skill column it returns no group and no error; otherwise
    no skill is the key of two groups, a missing skill is no key, every
    text skill of the table is a key, and the records under a key are
    those of exactly the rows with that skill, in table order. *)
Theorem skill_groups_partition (σ : store) (df : ref) (f : frame) :
  σ !! df = Some f →
  ("Primary_Skill" ∈ columns f → group_columns ⊆ columns f) →
  ∃ groups : list (cell * list (list (string * cell))),
    skill_grouping df σ = (Ok groups, σ)
    ∧ ("Primary_Skill" ∉ columns f → groups = [])
    ∧ NoDup groups.*1
    ∧ (∀ skill recs, (skill, recs) ∈ groups →
         skill ≠ CNa
         ∧ recs = (λ lr, record_of group_columns lr.2)
                    <$> filter (λ lr, cell_eqb skill (cell_at "Primary_Skill" lr.2) = true)
                               (body f))
    ∧ (∀ lr k, "Primary_Skill" ∈ columns f → lr ∈ body f →
         cell_at "Primary_Skill" lr.2 = CStr k → CStr k ∈ groups.*1).
Proof.
  intros Hf Hcols. unfold skill_grouping.
  erewrite bind_run by by apply run_read.
  destruct (decide ("Primary_Skill" ∈ columns f)) as [Hps|Hps].
  - rewrite bool_decide_eq_true_2 by done. specialize (Hcols Hps).
    erewrite bind_run by (unfold lift; rewrite getitem_ok by done; reflexivity).
    set (s := (λ lr : Z * row, cell_at "Primary_Skill" lr.2) <$> body f).
    unfold lift. fold group_columns.
    rewrite (mapM_ok _ (λ skill, (skill,
               (λ lr : Z * row, record_of group_columns lr.2)
                 <$> filter (λ lr, cell_eqb skill (cell_at "Primary_Skill" lr.2) = true)
                            (body f)))).
    + eexists. split; [done|]. split; [done|]. split; [|split].
      * rewrite <- list_fmap_compose. simpl. rewrite list_fmap_id. apply NoDup_unique.
      * intros skill recs (sk & [= -> ->] & Hin)%list_elem_of_fmap. split; [|done].
        intros ->. by apply unique_dropna_na in Hin.
      * intros lr k _ Hlr Hk. rewrite <- list_fmap_compose. simpl. rewrite list_fmap_id.
        apply elem_of_unique_str, elem_of_dropna_str. unfold s.
        rewrite <- Hk. by apply (list_elem_of_fmap_2 (λ lr, cell_at "Primary_Skill" lr.2)).
    + intros skill _. unfold s. rewrite <- list_fmap_compose, df_mask_fmap.
      rewrite df_select_ok by done. cbn [mbind res_bind]. do 2 f_equal.
      unfold to_records. cbn [body columns]. rewrite <- list_fmap_compose.
      apply list_fmap_ext. intros _ lr _. unfold record_of, compose. cbn [snd].
      apply list_fmap_ext. intros i c Hci. f_equal. unfold cell_at.
      rewrite restricted_row_lookup; [done|]. by eapply list_elem_of_lookup_2.
  - rewrite bool_decide_eq_false_2 by done. exists []. split; [done|]. split; [done|].
    split; [constructor|]. split; [by intros ? ? ?%elem_of_nil|done].
Qed.

(** ** The readiness route *)

Lemma lstrip_first s : space_at first_char (lstrip s) = false.
Proof.
  unfold space_at. induction s as [|b s IH]; [done|]. simpl.
  by destruct (is_space b) eqn:Hb.
Qed.

Lemma rstrip_last s : space_at last_char (rstrip s) = false.
Proof.
  unfold space_at. induction s as [|b s IH]; [done|]. cbn [rstrip].
  destruct (rstrip s) as [|c t] eqn:Hr.
  - by destruct (is_space b) eqn:Hb.
  - done.
Qed.

Lemma rstrip_first s :
  space_at first_char s = false → space_at first_char (rstrip s) = false.
Proof.
  unfold space_at. destruct s as [|b s]; [done|]. simpl. intros Hb.
  destruct (rstrip s); [by rewrite Hb|done].
Qed.

Lemma strip_first s : space_at first_char (strip s) = false.
Proof. apply rstrip_first, lstrip_first. Qed.

Lemma lstrip_elem s a : a ∈ list_ascii_of_string (lstrip s) → a ∈ list_ascii_of_string s.
Proof.
  induction s as [|b s IH]; [done|]. simpl. destruct (is_space b); [|done].
  intros H. right. by apply IH.
Qed.

Lemma rstrip_elem s a : a ∈ list_ascii_of_string (rstrip s) → a ∈ list_ascii_of_string s.
Proof.
  induction s as [|b s IH]; [done|]. cbn [rstrip].
  destruct (rstrip s) as [|c t] eqn:Hr.
  - destruct (is_space b); [by intros ?%elem_of_nil|].
    simpl. intros [->|?%elem_of_nil]%elem_of_cons; [by left|done].
  - simpl. intros [->|H]%elem_of_cons; [by left|]. right. by apply IH.
Qed.

Lemma strip_elem s a : a ∈ list_ascii_of_string (strip s) → a ∈ list_ascii_of_string s.
Proof. unfold strip. intros H. by apply lstrip_elem, rstrip_elem. Qed.

Lemma split_no_sep sep s r :
  r ∈ str_split sep s → sep ∉ list_ascii_of_string r.
Proof.
  revert r. induction s as [|a s IH]; intros r.
  - simpl. intros [->|?%elem_of_nil]%elem_of_cons; [by intros ?%elem_of_nil|done].
  - simpl. destruct (Ascii.eqb_spec a sep) as [->|Hne].
    + intros [->|H]%elem_of_cons; [by intros ?%elem_of_nil|by apply IH].
    + destruct (str_split sep s) as [|h rest] eqn:Hs.
      * intros [->|?%elem_of_nil]%elem_of_cons; [|done]. simpl.
        intros [->|?%elem_of_nil]%elem_of_cons; done.
      * intros [->|H]%elem_of_cons.
        -- simpl. intros [->|Hin]%elem_of_cons; [done|].
           revert Hin. apply IH. by left.
        -- apply IH. by right.
Qed.

(** X19.  Whatever is typed in the roles field, every role the readiness
    route passes on is non-empty, has no white space at either end and
    contains no comma. *)
Theorem parsed_roles_are_clean (roles : option string) :
  Forall clean_role (parse_roles roles).
Proof.
  unfold parse_roles. cbv zeta. apply Forall_forall.
  intros r [Hne (r0 & -> & Hin)%list_elem_of_fmap]%list_elem_of_filter.
  split; [done|]. split; [apply strip_first|]. split; [apply rstrip_last|].
  intros Hc%strip_elem. by apply split_no_sep in Hin.
Qed.

Lemma lstrip_id s : space_at first_char s = false → lstrip s = s.
Proof. unfold space_at. destruct s as [|a s]; [done|]. simpl. by intros ->. Qed.

Lemma rstrip_id s : space_at last_char s = false → rstrip s = s.
Proof.
  unfold space_at. induction s as [|b s IH]; [done|]. intros H. cbn [rstrip].
  destruct s as [|c t].
  - simpl in *. by rewrite H.
  - by rewrite IH.
Qed.

Lemma strip_id s :
  space_at first_char s = false → space_at last_char s = false → strip s = s.
Proof. intros Hf Hl. unfold strip. rewrite lstrip_id by done. by apply rstrip_id. Qed.

Lemma first_char_app s t : s ≠ EmptyString → first_char (s +:+ t) = first_char s.
Proof. by destruct s. Qed.

Lemma last_char_app s t : t ≠ EmptyString → last_char (s +:+ t) = last_char t.
Proof.
  intros Ht. induction s as [|a s IH]; [done|].
  change (String a s +:+ t) with (String a (s +:+ t)). cbn [last_char].
  destruct (s +:+ t) eqn:Hst; [by destruct s, t|done].
Qed.

Lemma join_ends sep r l :
  Forall clean_role (r :: l) →
  join_with sep (r :: l) ≠ EmptyString
  ∧ first_char (join_with sep (r :: l)) = first_char r
  ∧ ∃ r', r' ∈ r :: l ∧ last_char (join_with sep (r :: l)) = last_char r'.
Proof.
  revert r. induction l as [|r2 l IH]; intros r [Hr Hl]%Forall_cons.
  - destruct Hr as (Hne & _). split; [done|]. split; [done|]. exists r. split; [by left|done].
  - destruct Hr as (Hne & _). destruct (IH r2 Hl) as (Hj & _ & r' & Hin & Hlast).
    change (join_with sep (r :: r2 :: l)) with (r +:+ String sep (join_with sep (r2 :: l))).
    split; [by destruct r|].
    split; [by apply first_char_app|]. exists r'. split; [by right|].
    rewrite last_char_app by done. cbn [last_char].
    by destruct (join_with sep (r2 :: l)).
Qed.

Lemma split_plain sep r : sep ∉ list_ascii_of_string r → str_split sep r = [r].
Proof.
  induction r as [|a r IH]; [done|]. simpl. intros [Hne Hr]%not_elem_of_cons.
  destruct (Ascii.eqb_spec a sep) as [->|_]; [done|]. by rewrite IH.
Qed.

Lemma split_app sep r t :
  sep ∉ list_ascii_of_string r → str_split sep (r +:+ String sep t) = r :: str_split sep t.
Proof.
  induction r as [|a r IH].
  - intros _. simpl. by rewrite Ascii.eqb_refl.
  - simpl. intros [Hne Hr]%not_elem_of_cons.
    destruct (Ascii.eqb_spec a sep) as [->|_]; [done|]. by rewrite IH.
Qed.

Lemma split_join sep r l :
  Forall (λ r, sep ∉ list_ascii_of_string r) (r :: l) → str_split sep (join_with sep (r :: l)) = r :: l.
Proof.
  revert r. induction l as [|r2 l IH]; intros r [Hr Hl]%Forall_cons.
  - by apply split_plain.
  - change (join_with sep (r :: r2 :: l)) with (r +:+ String sep (join_with sep (r2 :: l))).
    rewrite split_app by done. by rewrite IH.
Qed.

(** X20.  Typing clean ASCII roles separated by commas gives back
    exactly these roles, in order. *)
Theorem parse_roles_round_trip (roles : list string) :
  Forall ascii_text roles →
  Forall clean_role roles → parse_roles (Some (join_with "," roles)) = roles.
Proof.
  intros _ Hclean. unfold parse_roles. cbv zeta. cbn [from_option id].
  destruct roles as [|r l]; [done|].
  destruct (join_ends "," r l Hclean) as (Hne & Hfirst & r' & Hin & Hlast).
  rewrite Forall_forall in Hclean.
  rewrite (strip_id (join_with "," (r :: l))).
  - rewrite split_join
      by (apply Forall_forall; intros x Hx; by destruct (Hclean x Hx) as (_ & _ & _ & ?)).
    assert (strip <$> r :: l = r :: l) as ->.
    { rewrite <- (list_fmap_id (r :: l)) at 2. apply list_fmap_ext.
      intros i x Hx%list_elem_of_lookup_2. destruct (Hclean x Hx) as (_ & ? & ? & _).
      by apply strip_id. }
    apply filter_all. intros x Hx. by destruct (Hclean x Hx).
  - unfold space_at. rewrite Hfirst. by destruct (Hclean r) as (_ & ? & _); [by left|].
  - unfold space_at. rewrite Hlast. by destruct (Hclean r' Hin) as (_ & _ & ? & _).
Qed.


(** ** The login redirect *)

(** X22.  The redirect target that [_normalize_next] hands on is never
    blank and never one of the placeholders none, null, undefined in any
    letter case; it has no white space at either end, and normalising it
    again returns it unchanged. *)
Theorem normalized_next_is_stable (next : option string) (n : string) :
  _normalize_next next = Some n →
  n ≠ EmptyString
  ∧ (lower n ∉ ["none"; "null"; "undefined"])
  ∧ space_at first_char n = false
  ∧ space_at last_char n = false
  ∧ _normalize_next (Some n) = Some n.
Proof.
  unfold _normalize_next.
  set (s := default EmptyString next).
  destruct (bool_decide (strip s = EmptyString)) eqn:He; [done|].
  destruct (bool_decide (lower (strip s) ∈ ["none"; "null"; "undefined"])) eqn:Hp; [done|].
  intros [= <-].
  assert (strip (strip s) = strip s) as Hid
    by (apply strip_id; [apply strip_first|apply rstrip_last]).
  split; [by apply bool_decide_eq_false in He|].
  split; [by apply bool_decide_eq_false in Hp|].
  split; [apply strip_first|]. split; [apply rstrip_last|].
  cbn [from_option id]. change (default EmptyString (Some (strip s))) with (strip s).
  by rewrite Hid, He, Hp.
Qed.

End Logic.

(** * The theorems on concrete tables *)

(** Decides a closed, decidable proposition by evaluation. *)
Ltac by_evaluation := apply (bool_decide_unpack _); vm_compute; exact I.

(** C1.  [select_best_team] does not always return min(headcount,
    available rows) rows: with a role named twice and no restriction the
    pick of that role is taken twice.  On a table of one pilot, with
    headcount 2 and roles Pilot, Pilot, the team has two rows, both the
    row labelled 0. *)
Theorem duplicate_role_repeats_a_row :
  ∃ team : frame,
    (select_best_team plain_digits 0 2 (Some ["Pilot"; "Pilot"]) false [lone_pilot]).1
    = Ok team
    ∧ labels team = [0; 0]%Z
    ∧ length (body team) = 2
    ∧ length (body lone_pilot) = 1.
Proof. eexists. split; [vm_compute; reflexivity|]. by vm_compute. Qed.

(** C3.  Without an attrition-risk column the report is sorted on the
    tier label as text, descending: Medium, Low, High.  On [roster] Ann
    is High (three criteria), Bob Medium (one), Cy Low (none); the report
    lists Bob, Cy, Ann, and its top 1 is Bob. *)
Theorem heuristic_ranking_puts_high_last :
  (∃ t : frame,
     (who_is_going_to_leave 0 50 [roster]).1 = Ok t
     ∧ (λ lr, (cell_at "Name" lr.2, cell_at "Heuristic_Attrition" lr.2)) <$> body t
       = [(CStr "Bob", CStr "Medium"); (CStr "Cy", CStr "Low"); (CStr "Ann", CStr "High")])
  ∧ (∃ t : frame,
       (who_is_going_to_leave 0 1 [roster]).1 = Ok t
       ∧ (λ lr, (cell_at "Name" lr.2, cell_at "Heuristic_Attrition" lr.2)) <$> body t
         = [(CStr "Bob", CStr "Medium")]).
Proof.
  split; (eexists; split; [vm_compute; reflexivity|]); by vm_compute.
Qed.

Lemma enrich_adds_derived_scores_on_roster :
  ∃ d : frame,
    add_derived_columns 0 [roster] = (Ok (length [roster]), [roster] ++ [d])
    ∧ columns d = columns roster ++ filter (λ c, c ∉ columns roster) derived_names
    ∧ Forall2 (enriched_from (bool_decide ("Attrition_Risk" ∈ columns roster)))
              (body roster) (body d)
    ∧ ∀ c, (60 <= medical_score c <= 100)%Q ∧ (1 <= leadership_score c <= 3)%Q
           ∧ (1 <= readiness_score c <= 3)%Q ∧ (1 <= attrition_score c <= 3)%Q.
Proof.
  apply (enrich_adds_derived_scores [roster] 0 roster); [reflexivity|by_evaluation].
Defined.

Lemma overall_score_on_roster :
  ∃ d : frame,
    score_table plain_digits 0 [roster]
    = (Ok (S (length [roster])), [roster] ++ [derived roster; d])
    ∧ Forall2 (scored_from plain_digits roster) (body roster) (body d).
Proof.
  apply (overall_score_is_the_weighted_sum plain_digits [roster] 0 roster);
    [reflexivity|by_evaluation].
Defined.

Lemma restricted_team_on_roster :
  ∃ team : frame,
    select_best_team plain_digits 0 5 (Some ["Pilot"]) true [roster]
    = (Ok team, [roster] ++ [derived roster; scored plain_digits roster])
    ∧ ∀ lr, lr ∈ body team →
        ∃ k, lr.2 !! "Primary_Skill" = Some (CStr k) ∧ k ∈ ["Pilot"].
Proof.
  apply (restricted_team_stays_within_roles plain_digits [roster] 0 roster 5 ["Pilot"]);
    [reflexivity|by_evaluation|by_evaluation|discriminate].
Defined.

Lemma required_roles_covered_on_roster :
  ∃ team : frame,
    select_best_team plain_digits 0 2 (Some ["Pilot"; "Engineer"]) false [roster]
    = (Ok team, [roster] ++ [derived roster; scored plain_digits roster])
    ∧ ∀ role, role ∈ ["Pilot"; "Engineer"] →
        (∃ lr, lr ∈ body roster ∧ cell_at "Primary_Skill" lr.2 = CStr role) →
        ∃ lr', lr' ∈ body team ∧ lr'.2 !! "Primary_Skill" = Some (CStr role).
Proof.
  apply (required_roles_are_covered plain_digits [roster] 0 roster 2 ["Pilot"; "Engineer"]);
    [reflexivity|by_evaluation|by_evaluation|by_evaluation|simpl; lia].
Defined.


Lemma unrouted_query_on_roster :
  ∃ (t : frame) (σ' : store),
    who_is_going_to_leave 0 50 [roster] = (Ok t, σ')
    ∧ what_if_simulation plain_digits literal_pattern 0 "random unrelated text" [roster]
      = (Ok (Result "random unrelated text" "show_attrition" [] (to_records t)), σ').
Proof.
  apply (unrouted_query_shows_attrition plain_digits literal_pattern [roster] 0 roster
           "random unrelated text"); [reflexivity| |].
  - unfold attrition_ready, numeric_column. by_evaluation.
  - unfold no_keyword. repeat split; vm_compute; reflexivity.
Defined.

Lemma leadership_branch_on_squadron :
  (∀ r σ',
     what_if_simulation plain_digits literal_pattern 0 "show the best leaders" [squadron]
     = (Ok r, σ') →
     action r = "show_leadership" ∧ length (data r) ≤ 50)
  ∧ ∃ r σ',
      what_if_simulation plain_digits literal_pattern 0 "show the best leaders" [squadron]
      = (Ok r, σ').
Proof.
  destruct (leadership_branch_returns_at_most_50 plain_digits literal_pattern
              [squadron] 0 squadron "show the best leaders") as [Hbound Hruns];
    [reflexivity|by_evaluation| |].
  - unfold leadership_query. repeat split; vm_compute; reflexivity.
  - split; [exact Hbound|]. apply Hruns.
    unfold leadership_ready, text_column. by_evaluation.
Defined.

(** The cut of C10 at work: the leadership ranking of the sixty engineers
    has sixty rows, the what-if answer fifty. *)
Example leadership_cut_on_squadron :
  returned (λ tab, length (body tab)) (leadership_list 0 [squadron]).1 = Some 60
  ∧ returned (λ r, length (data r))
      (what_if_simulation plain_digits literal_pattern 0 "show the best leaders"
         [squadron]).1
    = Some 50.
Proof. split; vm_compute; reflexivity. Qed.

(** C8.  An unrouted query does raise on a table the specification
    allows.  [rated_in_words] has every column of a personnel record but
    the optional attrition risk and rates performance in words; the text
    "random unrelated text" matches none of the keyword sets, so the
    router takes the default branch and calls the attrition report,
    whose heuristic (line 38) compares a rating in words with the number
    2: the call ends in [TypeError] instead of the action
    "show_attrition". *)
Theorem unrouted_query_raises_on_worded_ratings :
  no_keyword (lower "random unrelated text")
  ∧ (personnel_columns ⊆ columns rated_in_words)
  ∧ ("Attrition_Risk" ∉ columns rated_in_words)
  ∧ (who_is_going_to_leave 0 50 [rated_in_words]).1 = Raise TypeError
  ∧ (what_if_simulation plain_digits literal_pattern 0 "random unrelated text"
       [rated_in_words]).1 = Raise TypeError.
Proof.
  split; [unfold no_keyword; repeat split; vm_compute; reflexivity|].
  split; [by_evaluation|]. split; [by_evaluation|].
  split; vm_compute; reflexivity.
Qed.

(** The rounding at numbers whose float64 is known: 0.1 and 1/3, the
    tie at 2^53 + 1, which goes to the even neighbour, and the smallest
    subnormal 2^-1074, half of which rounds to 0. *)
Example round64_on_known_values :
  round64 (1 # 10) = (3602879701896397 # 36028797018963968)%Q
  ∧ round64 (1 # 3) = (6004799503160661 # 18014398509481984)%Q
  ∧ round64 (inject_Z (2 ^ 53 + 1)) = inject_Z (2 ^ 53)
  ∧ round64 (inject_Z (2 ^ 53 + 3)) = inject_Z (2 ^ 53 + 4)
  ∧ round64 (1 # 2 ^ 1074) = (1 # 2 ^ 1074)%Q
  ∧ round64 (1 # 2 ^ 1075) = 0%Q
  ∧ f64_add (1 # 10) (2 # 10) = (1351079888211149 # 4503599627370496)%Q.
Proof. repeat split; vm_compute; reflexivity. Qed.

(** The score of [lone_pilot] is the float 15.139999999999999, below the
    exact value 757/50 of the formula and below the float64 nearest to
    it. *)
Example overall_of_lone_pilot :
  (λ lr, cell_at "Overall" lr.2) <$> body (scored plain_digits lone_pilot)
  = [CNum (8523062294798663 # 562949953421312)]
  ∧ (8523062294798663 # 562949953421312 < round64 (757 # 50))%Q
  ∧ (round64 (757 # 50) - (8523062294798663 # 562949953421312) == 1 # 2 ^ 49)%Q.
Proof. repeat split; vm_compute; reflexivity. Qed.

(** Rounding decides a selection: the two rows of [tied] have the same
    exact score; the program stores 8.339999999999998 for the first and
    8.34 for the second, and a team of one is the second row. *)
Example rounding_breaks_a_tie :
  (λ lr, cell_at "Overall" lr.2) <$> body (scored plain_digits tied)
  = [CNum (4695002611533741 # 562949953421312); CNum (2347501305766871 # 281474976710656)]
  ∧ returned labels (select_best_team plain_digits 0 1 None false [tied]).1 = Some [1%Z].
Proof. split; vm_compute; reflexivity. Qed.

(** ** The further properties on concrete tables *)

Lemma enrich_twice_on_roster :
  ∃ d : frame,
    add_derived_columns 0 [roster] = (Ok (length [roster]), [roster] ++ [d])
    ∧ add_derived_columns (length [roster]) ([roster] ++ [d])
      = (Ok (S (length [roster])), [roster] ++ [d; d]).
Proof.
  apply (enrich_twice_changes_nothing [roster] 0 roster); [reflexivity|by_evaluation].
Defined.

Lemma missing_column_on_bare_table :
  (add_derived_columns 0 [bare]).1 = Raise KeyError
  ∧ (∀ top_n, (who_is_going_to_leave 0 top_n [bare]).1 = Raise KeyError)
  ∧ (medical_scores 0 [bare]).1 = Raise KeyError
  ∧ (∀ thresh, (who_needs_training 0 thresh [bare]).1 = Raise KeyError)
  ∧ (leadership_list 0 [bare]).1 = Raise KeyError
  ∧ (∀ headcount required_roles restrict_to_roles,
       (select_best_team plain_digits 0 headcount required_roles restrict_to_roles
          [bare]).1 = Raise KeyError)
  ∧ ∀ text_low,
      (_analyze_retirement_scenario 0 text_low [bare]).1 = Raise KeyError
      ∧ (_analyze_redeployment_scenario literal_pattern 0 text_low [bare]).1
        = Raise KeyError
      ∧ (_analyze_grounding_scenario 0 text_low [bare]).1 = Raise KeyError
      ∧ (_analyze_promotion_scenario 0 text_low [bare]).1 = Raise KeyError
      ∧ (_analyze_budget_scenario 0 text_low [bare]).1 = Raise KeyError.
Proof.
  apply (missing_categorical_column_raises plain_digits literal_pattern [bare] 0 bare);
    [reflexivity|by_evaluation].
Defined.

Lemma ranked_attrition_on_assessed :
  ∃ (t : frame) (rest : list (Z * row)),
    who_is_going_to_leave 0 2 [assessed] = (Ok t, [assessed] ++ [derived assessed])
    ∧ project attrition_columns <$> body assessed ≡ₚ body t ++ rest
    ∧ length (body t) = Z.to_nat 2 `min` length (body assessed)
    ∧ StronglySorted risk_order (body t)
    ∧ ∀ x y, x ∈ body t → y ∈ rest → risk_order x y.
Proof.
  apply (ranked_attrition_report_order [assessed] 0 assessed 2);
    [reflexivity| |by_evaluation|lia].
  unfold attrition_ready, numeric_column. by_evaluation.
Defined.

Lemma worded_ratings_rejected_on_roster :
  (who_is_going_to_leave 0 50 [rated_in_words]).1 = Raise TypeError.
Proof.
  apply (heuristic_attrition_rejects_worded_ratings [rated_in_words] 0 rated_in_words 50);
    [reflexivity|by_evaluation|by_evaluation| |by_evaluation|by_evaluation].
  unfold numeric_column. by_evaluation.
Defined.

Lemma medical_report_on_roster :
  ∃ t : frame,
    medical_scores 0 [roster] = (Ok t, [roster] ++ [derived roster])
    ∧ columns t = medical_columns
    ∧ Forall2 medical_row (body roster) (body t).
Proof.
  apply (medical_report_keeps_every_row [roster] 0 roster);
    [reflexivity|by_evaluation|by_evaluation].
Defined.

Lemma training_report_on_roster :
  ∃ t : frame,
    who_needs_training 0 70 [roster] = (Ok t, [roster] ++ [derived roster])
    ∧ columns t = training_columns
    ∧ body t ≡ₚ project training_columns
                  <$> filter (λ lr, training_gap 70 lr = true) (body roster)
    ∧ ascending "Training_Score" (body t).
Proof.
  apply (training_report_lists_the_gaps [roster] 0 roster 70);
    [reflexivity|by_evaluation|by_evaluation|].
  unfold numeric_column. by_evaluation.
Defined.

Lemma leadership_ranking_on_roster :
  ∃ tab : frame,
    leadership_list 0 [roster] = (Ok tab, [roster] ++ [derived roster])
    ∧ columns tab = filter (λ c, c ∈ columns roster) leadership_columns
    ∧ body tab ≡ₚ project (columns tab) <$> body roster
    ∧ StronglySorted by_leadership (body tab).
Proof.
  apply (leadership_ranking_keeps_every_row [roster] 0 roster);
    [reflexivity|by_evaluation|by_evaluation|vm_compute; reflexivity].
Defined.

Lemma skill_groups_on_roster :
  ∃ groups : list (cell * list (list (string * cell))),
    skill_grouping 0 [roster] = (Ok groups, [roster])
    ∧ ("Primary_Skill" ∉ columns roster → groups = [])
    ∧ NoDup groups.*1
    ∧ (∀ skill recs,
         (skill, recs) ∈ groups →
         skill ≠ CNa
         ∧ recs = (λ lr, record_of group_columns lr.2)
                    <$> filter (λ lr, cell_eqb skill (cell_at "Primary_Skill" lr.2) = true)
                               (body roster))
    ∧ ∀ lr k, "Primary_Skill" ∈ columns roster → lr ∈ body roster →
              cell_at "Primary_Skill" lr.2 = CStr k → CStr k ∈ groups.*1.
Proof.
  apply (skill_groups_partition [roster] 0 roster); [reflexivity|].
  intros _. by_evaluation.
Defined.

Lemma team_within_headcount_on_roster :
  ∃ (team : frame) (σ' : store),
    select_best_team plain_digits 0 2 (Some ["Pilot"; "Pilot"]) false [roster]
    = (Ok team, σ')
    ∧ length (body team) ≤ Z.to_nat 2.
Proof.
  assert (match (select_best_team plain_digits 0 2 (Some ["Pilot"; "Pilot"]) false
                   [roster]).1 with inr _ => True | inl _ => False end) as Hok
    by (vm_compute; exact I).
  revert Hok.
  destruct (select_best_team plain_digits 0 2 (Some ["Pilot"; "Pilot"]) false [roster])
    as [[e|team] σ'] eqn:Hrun; cbn [fst]; intros Hok; [by destruct Hok|].
  exists team, σ'. split; [reflexivity|].
  apply (team_never_exceeds_headcount plain_digits [roster] σ' 0 2
           (Some ["Pilot"; "Pilot"]) false team); [lia|exact Hrun].
Defined.

Lemma team_size_on_roster :
  ∃ team : frame,
    select_best_team plain_digits 0 2 (Some ["Pilot"; "Engineer"]) false [roster]
    = (Ok team, [roster] ++ [derived roster; scored plain_digits roster])
    ∧ length (body team)
      = Z.to_nat 2
        `min` length (available_rows roster (Some ["Pilot"; "Engineer"]) false).
Proof.
  apply (team_size_with_distinct_roles plain_digits [roster] 0 roster 2
           (Some ["Pilot"; "Engineer"]) false);
    [reflexivity|by_evaluation|intros _; by_evaluation|by_evaluation|by_evaluation|lia].
Defined.

Lemma team_ranked_on_roster :
  ∃ team : frame,
    select_best_team plain_digits 0 3 (Some ["Engineer"]) false [roster]
    = (Ok team, [roster] ++ [derived roster; scored plain_digits roster])
    ∧ (∀ lr', lr' ∈ body team →
              ∃ lr, lr ∈ body roster ∧ scored_from plain_digits roster lr lr')
    ∧ StronglySorted by_overall (body team).
Proof.
  apply (team_is_ranked_by_overall plain_digits [roster] 0 roster 3
           (Some ["Engineer"]) false);
    [reflexivity|by_evaluation|intros _; by_evaluation|lia].
Defined.

Lemma team_takes_the_best_on_roster :
  ∃ team : frame,
    select_best_team plain_digits 0 2 None false [roster]
    = (Ok team, [roster] ++ [derived roster; scored plain_digits roster])
    ∧ length (body team) = Z.to_nat 2 `min` length (body roster)
    ∧ ∀ lr lr', lr ∈ body roster → lr.1 ∉ labels team → lr' ∈ body team →
                (overall_formula plain_digits roster lr.2 <= overall_of lr')%Q.
Proof.
  apply (team_takes_the_best plain_digits [roster] 0 roster 2 false);
    [reflexivity|by_evaluation|lia].
Defined.

Lemma budget_query_on_roster :
  ∃ (r : result) (σ' : store),
    what_if_simulation plain_digits literal_pattern 0 "Budget cost of the team" [roster]
    = (Ok r, σ')
    ∧ query r = "Budget cost of the team"
    ∧ match first_scenario scenario_table (lower "Budget cost of the team") with
      | Some tag => action r = tag
      | None =>
          action r ∈ ["show_leadership"; "select_team"; "show_attrition"]
          ∨ ∃ thresh : Z, action r = "show_training_below_" +:+ pretty thresh
      end.
Proof.
  assert (match (what_if_simulation plain_digits literal_pattern 0
                   "Budget cost of the team" [roster]).1
          with inr _ => True | inl _ => False end) as Hok by (vm_compute; exact I).
  revert Hok.
  destruct (what_if_simulation plain_digits literal_pattern 0 "Budget cost of the team"
              [roster]) as [[e|r] σ'] eqn:Hrun; cbn [fst]; intros Hok; [by destruct Hok|].
  exists r, σ'. split; [reflexivity|].
  apply (scenario_keywords_take_priority plain_digits literal_pattern [roster] σ' 0
           "Budget cost of the team" r).
  exact Hrun.
Defined.

Lemma training_branch_on_roster :
  ∃ (r : result) (σ' : store),
    what_if_simulation plain_digits literal_pattern 0 "Training score below 70" [roster]
    = (Ok r, σ')
    ∧ ∃ (thresh : Z) (tab : frame),
        (first_digit_pair (lower "Training score below 70") thresh
         ∨ (¬ has_digit_pair (lower "Training score below 70") ∧ thresh = 60%Z))
        ∧ (0 ≤ thresh ≤ 99)%Z
        ∧ who_needs_training 0 thresh [roster] = (Ok tab, σ')
        ∧ r = Result "Training score below 70"
                ("show_training_below_" +:+ pretty thresh) [] (to_records tab).
Proof.
  assert (match (what_if_simulation plain_digits literal_pattern 0
                   "Training score below 70" [roster]).1
          with inr _ => True | inl _ => False end) as Hok by (vm_compute; exact I).
  revert Hok.
  destruct (what_if_simulation plain_digits literal_pattern 0 "Training score below 70"
              [roster]) as [[e|r] σ'] eqn:Hrun; cbn [fst]; intros Hok; [by destruct Hok|].
  exists r, σ'. split; [reflexivity|].
  apply (training_branch_reads_two_digits plain_digits literal_pattern [roster] σ' 0
           "Training score below 70" r); [by_evaluation| |exact Hrun].
  unfold training_query. repeat split; vm_compute; reflexivity.
Defined.

Lemma team_branch_on_roster :
  ∃ (r : result) (σ' : store),
    what_if_simulation plain_digits literal_pattern 0 "Best team of 2 with a pilot"
      [roster]
    = (Ok r, σ')
    ∧ ∃ (n : Z) (roles : list string) (team : frame),
        (first_digit_run (lower "Best team of 2 with a pilot") n
         ∨ (no_digit (lower "Best team of 2 with a pilot") ∧ n = 10%Z))
        ∧ (0 ≤ n ≤ 999)%Z
        ∧ NoDup roles
        ∧ (∀ role,
             role ∈ roles
             ↔ (∃ lr, lr ∈ body roster ∧ cell_at "Primary_Skill" lr.2 = CStr role)
               ∧ py_in (lower role) (lower "Best team of 2 with a pilot") = true)
        ∧ select_best_team plain_digits 0 n
            (match roles with [] => None | _ => Some roles end) false [roster]
          = (Ok team, σ')
        ∧ r = Result "Best team of 2 with a pilot" "select_team" [] (to_records team)
        ∧ length (data r) ≤ Z.to_nat n.
Proof.
  assert (match (what_if_simulation plain_digits literal_pattern 0
                   "Best team of 2 with a pilot" [roster]).1
          with inr _ => True | inl _ => False end) as Hok by (vm_compute; exact I).
  revert Hok.
  destruct (what_if_simulation plain_digits literal_pattern 0
              "Best team of 2 with a pilot" [roster])
    as [[e|r] σ'] eqn:Hrun; cbn [fst]; intros Hok; [by destruct Hok|].
  exists r, σ'. split; [reflexivity|].
  apply (team_branch_names_distinct_roles plain_digits literal_pattern [roster] σ' 0
           roster "Best team of 2 with a pilot" r);
    [reflexivity|by_evaluation| | |exact Hrun].
  - unfold ascii_column. by_evaluation.
  - unfold team_query. repeat split; vm_compute; reflexivity.
Defined.


Lemma promotion_on_officers :
  what_if_simulation plain_digits literal_pattern 0 "Who is due for promotion" [officers]
  = (Ok (Result "Who is due for promotion" "promotion_impact" promotion_advice
           ((λ lr, record_of promotion_columns lr.2)
              <$> filter (λ lr, promotable lr && rated "Good" lr = true) (body officers)
                  ++ filter (λ lr, promotable lr && rated "Excellent" lr = true)
                       (body officers))),
     [officers] ++ [derived officers]).
Proof.
  apply (promotion_lists_good_before_excellent plain_digits literal_pattern
           [officers] 0 officers);
    [reflexivity|by_evaluation|by_evaluation| |].
  - unfold numeric_column. by_evaluation.
  - unfold promotion_query. repeat split; vm_compute; reflexivity.
Defined.

Lemma skill_gap_on_roster :
  ∃ n : nat, skill_gap literal_pattern roster "Pilot" = Ok n ∧ n = 0.
Proof.
  eexists. split; [vm_compute; reflexivity|].
  apply (skill_gap_is_always_zero literal_pattern roster "Pilot").
  vm_compute; reflexivity.
Defined.

Lemma parse_roles_round_trip_on_two_roles :
  Forall clean_role ["Pilot"; "Radar Operator"]
  ∧ parse_roles (Some (join_with "," ["Pilot"; "Radar Operator"]))
    = ["Pilot"; "Radar Operator"].
Proof.
  split; [|apply (parse_roles_round_trip ["Pilot"; "Radar Operator"])];
    unfold clean_role, ascii_text; by_evaluation.
Defined.


Lemma normalized_next_on_dashboard :
  _normalize_next (Some "  /dashboard ") = Some "/dashboard"
  ∧ "/dashboard" ≠ EmptyString
  ∧ (lower "/dashboard" ∉ ["none"; "null"; "undefined"])
  ∧ space_at first_char "/dashboard" = false
  ∧ space_at last_char "/dashboard" = false
  ∧ _normalize_next (Some "/dashboard") = Some "/dashboard".
Proof.
  split; [vm_compute; reflexivity|].
  apply (normalized_next_is_stable (Some "  /dashboard ") "/dashboard").
  vm_compute; reflexivity.
Defined.
